(** * Binary search trees and AVL trees of [tree.hpp], over an explicit heap

    The C++ classes [BinarySearchTree] and [AVLTree] work on heap nodes
    linked by raw pointers ([left], [right], [parent]) and on the member
    [root].  The embedding keeps that shape: a state is a finite map from
    addresses to node records together with the [root] member, a [NodeT *]
    is an optional address, and every member function is a computation in
    a state monad whose outcome is a value, a memory fault (a null or
    dangling pointer was dereferenced) or exhausted fuel (recursion and
    loops are bounded by a fuel argument). *)

From stdpp Require Import gmap.
From Stdlib Require Import ZArith Lia.

Local Open Scope Z_scope.

(** ** Memory model *)

(** A [NodeT *] is an optional address; [None] is [nullptr]. *)
Abbreviation ptr := (option positive) (only parsing).

(** Modelled from the spec: [BSTNode] is declared in [node.hpp], which is
    not part of the sources at hand.  The fields are the ones [tree.hpp]
    reads and writes; keys and heights are C++ [int]s, kept as [Z] (every
    height the code computes is bounded by the number of live nodes). *)
Record BSTNode : Type := mkNode {
  key : Z;
  height : Z;
  left : ptr;
  right : ptr;
  parent : ptr
}.

Definition with_height (h : Z) (n : BSTNode) : BSTNode :=
  mkNode (key n) h (left n) (right n) (parent n).
Definition with_left (p : ptr) (n : BSTNode) : BSTNode :=
  mkNode (key n) (height n) p (right n) (parent n).
Definition with_right (p : ptr) (n : BSTNode) : BSTNode :=
  mkNode (key n) (height n) (left n) p (parent n).
Definition with_parent (p : ptr) (n : BSTNode) : BSTNode :=
  mkNode (key n) (height n) (left n) (right n) p.

(** The object state: the live nodes, the [root] member and the next
    address the allocator hands out. *)
Record state : Type := mkState {
  heap : gmap positive BSTNode;
  root : ptr;
  next : positive
}.

Definition empty_state : state := mkState ∅ None 1%positive.

(** Outcome of running a member function. *)
Inductive res (A : Type) : Type :=
  | Ok (a : A)
  | Fault
  | Timeout.
Arguments Ok {A} a.
Arguments Fault {A}.
Arguments Timeout {A}.

Definition M (A : Type) : Type := state → res (A * state).

#[export] Instance M_ret : MRet M := λ A a s, Ok (a, s).
#[export] Instance M_bind : MBind M := λ A B f m s,
  match m s with
  | Ok (a, s') => f a s'
  | Fault => Fault
  | Timeout => Timeout
  end.

Definition fault {A} : M A := λ _, Fault.
Definition timeout {A} : M A := λ _, Timeout.

Definition get_root : M ptr := λ s, Ok (root s, s).
Definition set_root (p : ptr) : M unit :=
  λ s, Ok (tt, mkState (heap s) p (next s)).

(** Dereferencing: a null pointer or an address that is not live faults. *)
Definition load (p : ptr) : M BSTNode := λ s,
  match p with
  | None => Fault
  | Some a => match heap s !! a with
              | Some n => Ok (n, s)
              | None => Fault
              end
  end.

Definition update (p : ptr) (f : BSTNode → BSTNode) : M unit := λ s,
  match p with
  | None => Fault
  | Some a => match heap s !! a with
              | Some n => Ok (tt, mkState (<[a := f n]> (heap s)) (root s) (next s))
              | None => Fault
              end
  end.

Definition get_key (p : ptr) : M Z := n ← load p; mret (key n).
Definition get_height (p : ptr) : M Z := n ← load p; mret (height n).
Definition get_left (p : ptr) : M ptr := n ← load p; mret (left n).
Definition get_right (p : ptr) : M ptr := n ← load p; mret (right n).
Definition get_parent (p : ptr) : M ptr := n ← load p; mret (parent n).

Definition set_height (p : ptr) (h : Z) : M unit := update p (with_height h).
Definition set_left (p v : ptr) : M unit := update p (with_left v).
Definition set_right (p v : ptr) : M unit := update p (with_right v).
Definition set_parent (p v : ptr) : M unit := update p (with_parent v).

(** Modelled from the spec: the constructor [NodeT(key)] of [node.hpp]
    ("new node with height 1, no children"); the parent link is written
    by the caller. *)
Definition new_BSTNode (key : Z) : M ptr := λ s,
  let a := next s in
  Ok (Some a,
      mkState (<[a := mkNode key 1 None None None]> (heap s)) (root s) (Pos.succ a)).

(** [delete node]: the node stops being live. *)
Definition delete_node (p : ptr) : M unit := λ s,
  match p with
  | None => Ok (tt, s)
  | Some a => match heap s !! a with
              | Some _ => Ok (tt, mkState (delete a (heap s)) (root s) (next s))
              | None => Fault
              end
  end.

(** [a && b] with [b] evaluated only when [a] holds. *)
Definition and_then (a : bool) (b : M bool) : M bool :=
  if a then b else mret false.

Definition when (c : bool) (m : M unit) : M unit :=
  if c then m else mret tt.

Definition not_null (p : ptr) : bool :=
  match p with Some _ => true | None => false end.
Definition is_null (p : ptr) : bool :=
  match p with Some _ => false | None => true end.

(** ** class BinarySearchTree *)

Module BinarySearchTree.

(** [return node ? node->height : 0;] *)
Definition getHeight (node : ptr) : M Z :=
  if not_null node then get_height node else mret 0.

(** [return node ? getHeight(node->left) - getHeight(node->right) : 0;] *)
Definition getBalance (node : ptr) : M Z :=
  if not_null node then
    l ← get_left node;
    hl ← getHeight l;
    r ← get_right node;
    hr ← getHeight r;
    mret (hl - hr)
  else mret 0.

(** [node->height = std::max(getHeight(node->left),
    getHeight(node->right)) + 1;], nothing on a null node. *)
Definition updateHeight (node : ptr) : M unit :=
  if is_null node then mret tt
  else
    l ← get_left node;
    hl ← getHeight l;
    r ← get_right node;
    hr ← getHeight r;
    set_height node (Z.max hl hr + 1).

(** [BinarySearchTree::insertNode]: two branches only, [key < node->key]
    and everything else. *)
Fixpoint insertNode (fuel : nat) (node : ptr) (key : Z) (parent : ptr) : M ptr :=
  match fuel with
  | O => timeout
  | S fuel =>
    if is_null node then
      newNode ← new_BSTNode key;
      set_parent newNode parent;;
      r ← get_root;
      when (is_null r) (set_root newNode);;
      mret newNode
    else
      k ← get_key node;
      (if bool_decide (key < k) then
         l ← get_left node;
         c ← insertNode fuel l key node;
         set_left node c;;
         l' ← get_left node;
         set_parent l' node
       else
         r ← get_right node;
         c ← insertNode fuel r key node;
         set_right node c;;
         r' ← get_right node;
         set_parent r' node);;
      mret node
  end.

(** [if (node == nullptr || node->key == key) return node;] and then
    left or right. *)
Fixpoint searchNode (fuel : nat) (node : ptr) (key : Z) : M ptr :=
  match fuel with
  | O => timeout
  | S fuel =>
    c ← (if is_null node then mret true
         else k ← get_key node; mret (bool_decide (k = key)));
    if c : bool then mret node
    else
      k ← get_key node;
      if bool_decide (key < k) then
        l ← get_left node; searchNode fuel l key
      else
        r ← get_right node; searchNode fuel r key
  end.

(** [transplant(u, v)]: [u->parent] is read again at every use, as in
    the source. *)
Definition transplant (u v : ptr) : M unit :=
  up ← get_parent u;
  (if is_null up then set_root v
   else
     up ← get_parent u;
     upl ← get_left up;
     if bool_decide (u = upl) then
       up ← get_parent u; set_left up v
     else
       up ← get_parent u; set_right up v);;
  when (not_null v) (up ← get_parent u; set_parent v up).

(** [while (node->left != nullptr) node = node->left;] with no test of
    [node] itself. *)
Fixpoint minimumNode (fuel : nat) (node : ptr) : M ptr :=
  match fuel with
  | O => timeout
  | S fuel =>
    l ← get_left node;
    if not_null l then minimumNode fuel l else mret node
  end.

Fixpoint maximumNode (fuel : nat) (node : ptr) : M ptr :=
  match fuel with
  | O => timeout
  | S fuel =>
    r ← get_right node;
    if not_null r then maximumNode fuel r else mret node
  end.

(** [BinarySearchTree::deleteNode(root, node)]: the guard is on the
    parameter [root]; [node] is dereferenced unguarded.  Nothing is
    freed. *)
Definition deleteNode (fuel : nat) (root node : ptr) : M ptr :=
  if is_null root then mret root
  else
    nl ← get_left node;
    (if is_null nl then
       nr ← get_right node; transplant node nr
     else
       nr ← get_right node;
       if is_null nr then
         nl ← get_left node; transplant node nl
       else
         nr ← get_right node;
         sec ← minimumNode fuel nr;
         sp ← get_parent sec;
         when (bool_decide (sp ≠ node))
           (sr ← get_right sec;
            transplant sec sr;;
            nr ← get_right node;
            set_right sec nr;;
            sr ← get_right sec;
            set_parent sr sec);;
         transplant node sec;;
         nl ← get_left node;
         set_left sec nl;;
         sl ← get_left sec;
         set_parent sl sec);;
    mret root.

(** The loop of [successorNode]:
    [while (parent != nullptr && parent->right == node)]; it yields the
    final value of [parent] ([node] is not read after the loop). *)
Fixpoint successorNode_loop (fuel : nat) (node parent : ptr) : M ptr :=
  match fuel with
  | O => timeout
  | S fuel =>
    c ← and_then (not_null parent)
          (pr ← get_right parent; mret (bool_decide (pr = node)));
    if c : bool then
      pp ← get_parent parent;
      successorNode_loop fuel parent pp
    else mret parent
  end.

(** [successorNode]: [originNode] is returned when the walk ends with a
    null [parent]. *)
Definition successorNode (fuel : nat) (node : ptr) : M ptr :=
  if is_null node then mret None
  else
    r ← get_right node;
    if not_null r then
      r ← get_right node; minimumNode fuel r
    else
      let originNode := node in
      parent ← get_parent node;
      parent ← successorNode_loop fuel node parent;
      if is_null parent then mret originNode
      else mret parent.

(** [rotateLeft(z)], statement by statement: the source assigns
    [z->right], [z->parent], [T2->parent], one child link of [y->parent]
    (or [root]) and the two heights, and nothing else. *)
Definition rotateLeft (z : ptr) : M ptr :=
  y ← get_right z;
  T2 ← get_left y;
  set_right z T2;;
  set_parent z y;;
  when (not_null T2) (set_parent T2 z);;
  yp ← get_parent y;
  (if is_null yp then set_root y
   else
     yp ← get_parent y;
     ypl ← get_left yp;
     if bool_decide (ypl = z) then
       yp ← get_parent y; set_left yp y
     else
       yp ← get_parent y; set_right yp y);;
  updateHeight z;;
  updateHeight y;;
  mret y.

Definition rotateRight (z : ptr) : M ptr :=
  y ← get_left z;
  T3 ← get_right y;
  set_left z T3;;
  set_parent z y;;
  when (not_null T3) (set_parent T3 z);;
  yp ← get_parent y;
  (if is_null yp then set_root y
   else
     yp ← get_parent y;
     ypl ← get_left yp;
     if bool_decide (ypl = z) then
       yp ← get_parent y; set_left yp y
     else
       yp ← get_parent y; set_right yp y);;
  updateHeight z;;
  updateHeight y;;
  mret y.

Definition getRoot : M ptr := get_root.

Definition insert (fuel : nat) (key : Z) : M unit :=
  r ← get_root;
  r' ← insertNode fuel r key None;
  set_root r'.

Definition search (fuel : nat) (key : Z) : M ptr :=
  r ← get_root; searchNode fuel r key.

Definition remove (fuel : nat) (key : Z) : M unit :=
  r ← get_root;
  node ← searchNode fuel r key;
  _ ← deleteNode fuel r node;
  mret tt.

Definition minimum (fuel : nat) : M ptr :=
  r ← get_root; minimumNode fuel r.

Definition maximum (fuel : nat) : M ptr :=
  r ← get_root; maximumNode fuel r.

Definition successor (fuel : nat) (key : Z) : M ptr :=
  node ← search fuel key;
  successorNode fuel node.

End BinarySearchTree.

(** ** class AVLTree *)

Module AVLTree.

Import BinarySearchTree.

(** [balance(node, key)]: the four tests in source order, each an early
    return; the second and the fourth are the same test. *)
Definition balance (node : ptr) (key : Z) : M ptr :=
  balance ← getBalance node;
  (* LL case *)
  c ← and_then (bool_decide (balance > 1))
        (l ← get_left node; lk ← get_key l; mret (bool_decide (key < lk)));
  if c : bool then rotateRight node
  else
    (* RR case *)
    c ← and_then (bool_decide (balance < -1))
          (r ← get_right node; rk ← get_key r; mret (bool_decide (key < rk)));
    if c : bool then rotateLeft node
    else
      (* LR case *)
      c ← and_then (bool_decide (balance > 1))
            (l ← get_left node; lk ← get_key l; mret (bool_decide (key > lk)));
      if c : bool then
        l ← get_left node;
        l' ← rotateLeft l;
        set_left node l';;
        rotateRight node
      else
        (* RL case *)
        c ← and_then (bool_decide (balance < -1))
              (r ← get_right node; rk ← get_key r; mret (bool_decide (key < rk)));
        if c : bool then
          r ← get_right node;
          r' ← rotateRight r;
          set_right node r';;
          rotateLeft node
        else mret node.

(** [AVLTree::insertNode]: the equal key returns [node] at once; the two
    other branches go on to [updateHeight(node)] and
    [return balance(node, key)]. *)
Fixpoint insertNode (fuel : nat) (node : ptr) (key : Z) (parent : ptr) : M ptr :=
  match fuel with
  | O => timeout
  | S fuel =>
    if is_null node then
      newNode ← new_BSTNode key;
      set_parent newNode parent;;
      r ← get_root;
      when (is_null r) (set_root newNode);;
      mret newNode
    else
      k ← get_key node;
      if bool_decide (key < k) then
        l ← get_left node;
        c ← insertNode fuel l key node;
        set_left node c;;
        l' ← get_left node;
        set_parent l' node;;
        updateHeight node;;
        balance node key
      else
        k ← get_key node;
        if bool_decide (key > k) then
          r ← get_right node;
          c ← insertNode fuel r key node;
          set_right node c;;
          r' ← get_right node;
          set_parent r' node;;
          updateHeight node;;
          balance node key
        else mret node
  end.

(** The rebalancing loop of [deleteNode]: [while (cur != nullptr)]. *)
Fixpoint deleteNode_loop (fuel : nat) (cur : ptr) : M unit :=
  match fuel with
  | O => timeout
  | S fuel =>
    if not_null cur then
      updateHeight cur;;
      k ← get_key cur;
      cur ← balance cur k;
      p ← get_parent cur;
      when (is_null p) (set_root cur);;
      cur ← get_parent cur;
      deleteNode_loop fuel cur
    else mret tt
  end.

(** [AVLTree::deleteNode(root, node)]: returns at once on a null [node];
    otherwise unlinks and frees it, then runs the rebalancing loop. *)
Definition deleteNode (fuel : nat) (root node : ptr) : M ptr :=
  if is_null node then mret root
  else
    parent ← get_parent node;
    nl ← get_left node;
    childless ← and_then (is_null nl) (nr ← get_right node; mret (is_null nr));
    rebalanceStart ←
      (if childless : bool then
         (* no children *)
         rebalanceStart ← get_parent node;
         transplant node None;;
         delete_node node;;
         mret rebalanceStart
       else
         nl ← get_left node;
         if is_null nl then
           (* one child (right) *)
           rebalanceStart ← get_right node;
           nr ← get_right node;
           transplant node nr;;
           delete_node node;;
           mret rebalanceStart
         else
           nr ← get_right node;
           if is_null nr then
             (* one child (left) *)
             rebalanceStart ← get_left node;
             nl ← get_left node;
             transplant node nl;;
             delete_node node;;
             mret rebalanceStart
           else
             (* two children *)
             nr ← get_right node;
             sec ← minimumNode fuel nr;
             sp ← get_parent sec;
             rebalanceStart ←
               (if bool_decide (sp ≠ node) then
                  rebalanceStart ← get_parent sec;
                  sr ← get_right sec;
                  transplant sec sr;;
                  nr ← get_right node;
                  set_right sec nr;;
                  sr ← get_right sec;
                  when (not_null sr) (sr ← get_right sec; set_parent sr sec);;
                  mret rebalanceStart
                else mret sec);
             transplant node sec;;
             nl ← get_left node;
             set_left sec nl;;
             sl ← get_left sec;
             when (not_null sl) (sl ← get_left sec; set_parent sl sec);;
             delete_node node;;
             mret rebalanceStart);
    let cur := if not_null rebalanceStart then rebalanceStart else parent in
    deleteNode_loop fuel cur;;
    get_root.

Definition insert (fuel : nat) (key : Z) : M unit :=
  r ← get_root;
  r' ← insertNode fuel r key None;
  set_root r'.

Definition search (fuel : nat) (key : Z) : M ptr :=
  r ← get_root; searchNode fuel r key.

Definition remove (fuel : nat) (key : Z) : M unit :=
  r ← get_root;
  node ← searchNode fuel r key;
  _ ← deleteNode fuel r node;
  mret tt.

End AVLTree.

(** ** Sequences of public operations *)

Inductive op : Type :=
  | Insert (key : Z)
  | Remove (key : Z).

Definition AVL_apply (fuel : nat) (o : op) : M unit :=
  match o with
  | Insert k => AVLTree.insert fuel k
  | Remove k => AVLTree.remove fuel k
  end.

Definition BST_apply (fuel : nat) (o : op) : M unit :=
  match o with
  | Insert k => BinarySearchTree.insert fuel k
  | Remove k => BinarySearchTree.remove fuel k
  end.

Fixpoint run (apply : op → M unit) (ops : list op) : M unit :=
  match ops with
  | [] => mret tt
  | o :: ops => apply o;; run apply ops
  end.

(** ** The invariants of the data model, on a state

    They speak about the nodes that can be reached from [root] through
    child links. *)

Inductive reachable_from (s : state) (p : ptr) : ptr → Prop :=
  | reach_here : reachable_from s p p
  | reach_left a n :
      reachable_from s p (Some a) → heap s !! a = Some n →
      reachable_from s p (left n)
  | reach_right a n :
      reachable_from s p (Some a) → heap s !! a = Some n →
      reachable_from s p (right n).

Definition in_tree (s : state) (a : positive) (n : BSTNode) : Prop :=
  reachable_from s (root s) (Some a) ∧ heap s !! a = Some n.

Definition in_subtree (s : state) (p : ptr) (m : BSTNode) : Prop :=
  ∃ b, reachable_from s p (Some b) ∧ heap s !! b = Some m.

(** [height(none) == 0], otherwise the cached field. *)
Definition cached_height (s : state) (p : ptr) : Z :=
  match p with
  | None => 0
  | Some a => from_option height 0 (heap s !! a)
  end.

Definition bst_order (s : state) : Prop :=
  ∀ a n, in_tree s a n →
    (∀ m, in_subtree s (left n) m → key m < key n) ∧
    (∀ m, in_subtree s (right n) m → key n < key m).

Definition parent_consistent (s : state) : Prop :=
  (∀ a n, in_tree s a n →
     (∀ l nl, left n = Some l → heap s !! l = Some nl → parent nl = Some a) ∧
     (∀ r nr, right n = Some r → heap s !! r = Some nr → parent nr = Some a)) ∧
  (∀ a n, root s = Some a → heap s !! a = Some n → parent n = None).

Definition heights_cached (s : state) : Prop :=
  ∀ a n, in_tree s a n →
    height n = 1 + Z.max (cached_height s (left n)) (cached_height s (right n)).

Definition avl_balanced (s : state) : Prop :=
  ∀ a n, in_tree s a n →
    Z.abs (cached_height s (left n) - cached_height s (right n)) ≤ 1.

Definition invariants (s : state) : Prop :=
  bst_order s ∧ parent_consistent s ∧ heights_cached s ∧ avl_balanced s.

(** ** Tree shapes

    A finite binary tree of addresses and keys describes the part of the
    heap that hangs below a pointer. *)

Inductive tree : Type :=
  | Leaf
  | Node (l : tree) (a : positive) (k : Z) (r : tree).

(** [shape h p t]: following child links from [p] in [h] spells out [t]. *)
Fixpoint shape (h : gmap positive BSTNode) (p : ptr) (t : tree) : Prop :=
  match t with
  | Leaf => p = None
  | Node l a k r =>
      p = Some a ∧
      match h !! a with
      | Some n => key n = k ∧ shape h (left n) l ∧ shape h (right n) r
      | None => False
      end
  end.

(** [linked h up p t]: as [shape], and every node's [parent] field names
    the node above it ([up] for the topmost one). *)
Fixpoint linked (h : gmap positive BSTNode) (up p : ptr) (t : tree) : Prop :=
  match t with
  | Leaf => p = None
  | Node l a k r =>
      p = Some a ∧
      match h !! a with
      | Some n =>
          key n = k ∧ parent n = up ∧
          linked h (Some a) (left n) l ∧ linked h (Some a) (right n) r
      | None => False
      end
  end.

(** [avl_linked s up p t]: as [linked], and at every node the cached
    height is right and the balance factor is within one. *)
Fixpoint avl_linked (s : state) (up p : ptr) (t : tree) : Prop :=
  match t with
  | Leaf => p = None
  | Node l a k r =>
      p = Some a ∧
      match heap s !! a with
      | Some n =>
          key n = k ∧ parent n = up ∧
          height n
          = 1 + Z.max (cached_height s (left n)) (cached_height s (right n)) ∧
          Z.abs (cached_height s (left n) - cached_height s (right n)) ≤ 1 ∧
          avl_linked s (Some a) (left n) l ∧ avl_linked s (Some a) (right n) r
      | None => False
      end
  end.

Fixpoint keys (t : tree) : list Z :=
  match t with
  | Leaf => []
  | Node l _ k r => keys l ++ k :: keys r
  end.

Fixpoint depth (t : tree) : nat :=
  match t with
  | Leaf => O
  | Node l _ _ r => S (Nat.max (depth l) (depth r))
  end.

Fixpoint all_keys (P : Z → Prop) (t : tree) : Prop :=
  match t with
  | Leaf => True
  | Node l _ k r => all_keys P l ∧ P k ∧ all_keys P r
  end.

(** BST ordering of a shape. *)
Fixpoint ordered (t : tree) : Prop :=
  match t with
  | Leaf => True
  | Node l _ k r =>
      all_keys (λ x, x < k) l ∧ all_keys (λ x, k < x) r ∧ ordered l ∧ ordered r
  end.

(** The maximum node: the end of the right spine. *)
Fixpoint max_addr (a : positive) (r : tree) : positive :=
  match r with
  | Leaf => a
  | Node _ a' _ r' => max_addr a' r'
  end.

Fixpoint max_key (k : Z) (r : tree) : Z :=
  match r with
  | Leaf => k
  | Node _ _ k' r' => max_key k' r'
  end.

(** Number of nodes on the right spine. *)
Fixpoint rspine (t : tree) : nat :=
  match t with
  | Leaf => O
  | Node _ _ _ r => S (rspine r)
  end.

(** ** Comparing outcomes under different fuel

    [res_le r1 r2]: [r1] ran out of fuel, or both are the same outcome. *)

Definition res_le {A} (r1 r2 : res A) : Prop := r1 = Timeout ∨ r1 = r2.

Definition m_le {A} (m1 m2 : M A) : Prop := ∀ s, res_le (m1 s) (m2 s).

(** A child pointer of the rotated pair [z], [y] is null, or names a live
    node other than [z] and [y]. *)
Definition child_ok (s : state) (z y : positive) (p : ptr) : Prop :=
  match p with
  | None => True
  | Some a => a ≠ z ∧ a ≠ y ∧ is_Some (heap s !! a)
  end.

(** ** Example states *)

(** The chain 10 -> 20 -> 30 left by inserting 10, 20, 30 into an empty
    [AVLTree]. *)
Definition chain_10_20_30 : state :=
  mkState
    (<[1%positive := mkNode 10 3 None (Some 2%positive) None]>
       (<[2%positive := mkNode 20 2 None (Some 3%positive) (Some 1%positive)]>
          (<[3%positive := mkNode 30 1 None None (Some 2%positive)]> ∅)))
    (Some 1%positive) 4%positive.

(** A node 10 with right child 20, as two inserts leave it. *)
Definition pair_10_20 : state :=
  mkState
    (<[1%positive := mkNode 10 2 None (Some 2%positive) None]>
       (<[2%positive := mkNode 20 1 None None (Some 1%positive)]> ∅))
    (Some 1%positive) 3%positive.

(** The single node 10. *)
Definition single_10 : state :=
  mkState (<[1%positive := mkNode 10 1 None None None]> ∅)
    (Some 1%positive) 2%positive.

(** 20 with children 10 and 30. *)
Definition tree_20_10_30 : state :=
  mkState
    (<[1%positive := mkNode 20 2 (Some 2%positive) (Some 3%positive) None]>
       (<[2%positive := mkNode 10 1 None None (Some 1%positive)]>
          (<[3%positive := mkNode 30 1 None None (Some 1%positive)]> ∅)))
    (Some 1%positive) 4%positive.

Definition shape_20_10_30 : tree :=
  Node (Node Leaf 2 10 Leaf) 1 20 (Node Leaf 3 30 Leaf).

(** The single node 10 after 10 was inserted twice into a plain
    [BinarySearchTree]. *)
Definition dup_10 : state :=
  mkState
    (<[1%positive := mkNode 10 1 None (Some 2%positive) None]>
       (<[2%positive := mkNode 10 1 None None (Some 1%positive)]> ∅))
    (Some 1%positive) 3%positive.

(** What inserting 10, 30, 20 into an empty [AVLTree] leaves: the root is
    30 with left child 20; node 10 is no longer below the root. *)
Definition lost_10 : state :=
  mkState
    (<[1%positive := mkNode 10 3 None (Some 2%positive) (Some 2%positive)]>
       (<[2%positive := mkNode 30 2 (Some 3%positive) None (Some 1%positive)]>
          (<[3%positive := mkNode 20 1 None None (Some 1%positive)]> ∅)))
    (Some 2%positive) 4%positive.

(** 10 with right child 30: the tree into which 20 is inserted next. *)
Definition pair_10_30 : state :=
  mkState
    (<[1%positive := mkNode 10 2 None (Some 2%positive) None]>
       (<[2%positive := mkNode 30 1 None None (Some 1%positive)]> ∅))
    (Some 1%positive) 3%positive.

(** The state in which [insertNode] calls [balance(node, 20)] at node 10
    while 20 is inserted into [pair_10_30]: 10 -> 30 with 20 to the left
    of 30, heights refreshed. *)
Definition zigzag_10_30_20 : state :=
  mkState
    (<[1%positive := mkNode 10 3 None (Some 2%positive) None]>
       (<[2%positive := mkNode 30 2 (Some 3%positive) None (Some 1%positive)]>
          (<[3%positive := mkNode 20 1 None None (Some 2%positive)]> ∅)))
    (Some 1%positive) 4%positive.

(** 30 with left child 20: the tree into which 10 is inserted next. *)
Definition pair_30_20 : state :=
  mkState
    (<[1%positive := mkNode 30 2 (Some 2%positive) None None]>
       (<[2%positive := mkNode 20 1 None None (Some 1%positive)]> ∅))
    (Some 1%positive) 3%positive.

(** The state in which [insertNode] calls [balance(node, 10)] at node 30
    while 10 is inserted into [pair_30_20]: the left chain 30 -> 20 -> 10. *)
Definition left_chain_30_20_10 : state :=
  mkState
    (<[1%positive := mkNode 30 3 (Some 2%positive) None None]>
       (<[2%positive := mkNode 20 2 (Some 3%positive) None (Some 1%positive)]>
          (<[3%positive := mkNode 10 1 None None (Some 2%positive)]> ∅)))
    (Some 1%positive) 4%positive.

(** The chain 10 -> 20 -> 30 -> 40 left by four ascending inserts. *)
Definition chain_10_20_30_40 : state :=
  mkState
    (<[1%positive := mkNode 10 4 None (Some 2%positive) None]>
       (<[2%positive := mkNode 20 3 None (Some 3%positive) (Some 1%positive)]>
          (<[3%positive := mkNode 30 2 None (Some 4%positive) (Some 2%positive)]>
             (<[4%positive := mkNode 40 1 None None (Some 3%positive)]> ∅))))
    (Some 1%positive) 5%positive.

(** The state the rebalancing loop of [remove(40)] is in, on that chain,
    from its fourth iteration on: 10 and 20 are each other's parent. *)
Definition spin_10_20 : state :=
  mkState
    (<[1%positive := mkNode 10 3 None (Some 2%positive) (Some 2%positive)]>
       (<[2%positive := mkNode 20 2 None (Some 3%positive) (Some 1%positive)]>
          (<[3%positive := mkNode 30 1 None None (Some 2%positive)]> ∅)))
    (Some 1%positive) 5%positive.

(** The statements of [AVLTree::insertNode] at a node with a smaller key,
    up to the call of [balance]. *)
Definition insertNode_right_before_balance (fuel : nat) (node : ptr) (key : Z) :
    M unit :=
  r ← get_right node;
  c ← AVLTree.insertNode fuel r key node;
  set_right node c;;
  r' ← get_right node;
  set_parent r' node;;
  BinarySearchTree.updateHeight node.

(** The same at a node with a larger key. *)
Definition insertNode_left_before_balance (fuel : nat) (node : ptr) (key : Z) :
    M unit :=
  l ← get_left node;
  c ← AVLTree.insertNode fuel l key node;
  set_left node c;;
  l' ← get_left node;
  set_parent l' node;;
  BinarySearchTree.updateHeight node.

(** ** More on tree shapes *)

(** The addresses of a shape, in order. *)
Fixpoint addrs (t : tree) : list positive :=
  match t with
  | Leaf => []
  | Node l a _ r => addrs l ++ a :: addrs r
  end.

(** The node at which the descent of [searchNode] for [k] stops. *)
Fixpoint find (t : tree) (k : Z) : option positive :=
  match t with
  | Leaf => None
  | Node l a ka r =>
      if bool_decide (ka = k) then Some a
      else if bool_decide (k < ka) then find l k else find r k
  end.

(** The minimum node: the end of the left spine. *)
Fixpoint min_addr (a : positive) (l : tree) : positive :=
  match l with
  | Leaf => a
  | Node l' a' _ _ => min_addr a' l'
  end.

Fixpoint min_key (k : Z) (l : tree) : Z :=
  match l with
  | Leaf => k
  | Node l' _ k' _ => min_key k' l'
  end.

(** Search-tree order with equal keys allowed on the right, which is
    where [BinarySearchTree::insertNode] puts them. *)
Fixpoint ordered_dup (t : tree) : Prop :=
  match t with
  | Leaf => True
  | Node l _ k r =>
      all_keys (λ x, x < k) l ∧ all_keys (λ x, k ≤ x) r ∧
      ordered_dup l ∧ ordered_dup r
  end.

(** The right subtree of the node [find] stops at. *)
Fixpoint rsub (t : tree) (k : Z) : tree :=
  match t with
  | Leaf => Leaf
  | Node l a ka r =>
      if bool_decide (ka = k) then r
      else if bool_decide (k < ka) then rsub l k else rsub r k
  end.

(** The upward walk of [successorNode] from the node that holds [k],
    as far as it stays inside [t]: the number of iterations that move
    up, and the ancestor (with its key) at which the walk stops, if it
    stops inside [t]. *)
Fixpoint climb (t : tree) (k : Z) : nat * option (positive * Z) :=
  match t with
  | Leaf => (O, None)
  | Node l a ka r =>
      if bool_decide (ka = k) then (O, None)
      else if bool_decide (k < ka) then
        match climb l k with
        | (n, Some u) => (n, Some u)
        | (n, None) => (n, Some (a, ka))
        end
      else
        match climb r k with
        | (n, Some u) => (n, Some u)
        | (n, None) => (S n, None)
        end
  end.

(** The node [successorNode] looks for: the minimum of the right subtree
    if there is one, otherwise the ancestor the upward walk stops at. *)
Definition succ_node (t : tree) (k : Z) : option (positive * Z) :=
  match rsub t k with
  | Node rl ra rk _ => Some (min_addr ra rl, min_key rk rl)
  | Leaf => (climb t k).2
  end.

(** The shape [BinarySearchTree::insertNode] builds: a new leaf at
    address [a'], to the left of larger keys and to the right of all
    others. *)
Fixpoint BST_ins (t : tree) (k : Z) (a' : positive) : tree :=
  match t with
  | Leaf => Node Leaf a' k Leaf
  | Node l a ka r =>
      if bool_decide (k < ka) then Node (BST_ins l k a') a ka r
      else Node l a ka (BST_ins r k a')
  end.

Definition root_ptr (t : tree) : ptr :=
  match t with
  | Leaf => None
  | Node _ a _ _ => Some a
  end.

(** [tree_at s t]: the object holds the tree [t]: links are consistent
    from [root] down, the root has no parent, no node occurs twice, and
    the allocator has not yet handed out an address beyond the nodes. *)
Definition tree_at (s : state) (t : tree) : Prop :=
  linked (heap s) None (root s) t ∧ NoDup (addrs t)
  ∧ Forall (λ a, (a < next s)%positive) (addrs t).

(** The constructor [BinarySearchTree(std::initializer_list<int>)]:
    [root = nullptr], then one [insert] per key. *)
Definition BinarySearchTree_ctor (fuel : nat) (list : list Z) : M unit :=
  set_root None;;
  run (BST_apply fuel) (Insert <$> list).

(** [operator=(std::initializer_list<int>)]: one [insert] per key into
    the tree as it is; [root] is not reset. *)
Definition BinarySearchTree_assign (fuel : nat) (list : list Z) : M unit :=
  run (BST_apply fuel) (Insert <$> list).

(** [heights h t]: every node of [t] caches the depth of the subtree
    below it (a leaf node 1, as the constructor sets it). *)
Fixpoint heights (h : gmap positive BSTNode) (t : tree) : Prop :=
  match t with
  | Leaf => True
  | Node l a k r =>
      match h !! a with
      | Some n => height n = Z.of_nat (depth (Node l a k r))
      | None => False
      end ∧ heights h l ∧ heights h r
  end.

(** AVL balance of a shape: at every node the depths of the two subtrees
    differ by at most one. *)
Fixpoint balanced (t : tree) : Prop :=
  match t with
  | Leaf => True
  | Node l _ _ r =>
      Z.abs (Z.of_nat (depth l) - Z.of_nat (depth r)) ≤ 1
      ∧ balanced l ∧ balanced r
  end.

(** The shape [BinarySearchTree::deleteNode] leaves.  [drop_min] takes
    the leftmost node out of a non-empty shape; [del_root] removes the
    root: a root with at most one child gives way to that child, a root
    with two children to the minimum of its right subtree. *)
Fixpoint drop_min (t : tree) : tree :=
  match t with
  | Leaf => Leaf
  | Node l a k r =>
      match l with
      | Leaf => r
      | Node _ _ _ _ => Node (drop_min l) a k r
      end
  end.

Definition del_root (l : tree) (r : tree) : tree :=
  match l, r with
  | Leaf, _ => r
  | _, Leaf => l
  | _, Node rl ra rk _ => Node l (min_addr ra rl) (min_key rk rl) (drop_min r)
  end.

Fixpoint BST_del (t : tree) (k : Z) : tree :=
  match t with
  | Leaf => Leaf
  | Node l a ka r =>
      if bool_decide (ka = k) then del_root l r
      else if bool_decide (k < ka) then Node (BST_del l k) a ka r
      else Node l a ka (BST_del r k)
  end.

(** [slot s up p]: the pointer [p] is what the parent [up] (or [root],
    for no parent) holds for this position; for a right child the left
    link is another pointer, as [transplant] tests the left link first. *)
Definition slot (s : state) (up p : ptr) : Prop :=
  match up with
  | None => root s = p
  | Some u =>
      match heap s !! u with
      | Some nu => left nu = p ∨ (left nu ≠ p ∧ right nu = p)
      | None => False
      end
  end.

(** The parent node after [transplant] replaced its child [p] by [v]. *)
Definition set_child (nu : BSTNode) (p v : ptr) : BSTNode :=
  if bool_decide (p = left nu) then with_left v nu else with_right v nu.

(** [replaced s s' up p t t']: from [s] to [s'] the subtree [t] that hung
    at [p] below [up] gave way to [t']: [t'] is linked in place, the parent
    (or [root]) holds its root pointer, and nothing outside [t] and the
    parent node changed. *)
Definition replaced (s s' : state) (up p : ptr) (t t' : tree) : Prop :=
  linked (heap s') up (root_ptr t') t'
  ∧ next s' = next s
  ∧ match up with
    | None => root s' = root_ptr t'
    | Some u =>
        root s' = root s
        ∧ ∃ nu, heap s !! u = Some nu
                ∧ heap s' !! u = Some (set_child nu p (root_ptr t'))
    end
  ∧ ∀ b, b ∉ addrs t → Some b ≠ up → heap s' !! b = heap s !! b.

(** The parent of the minimum node below [a], where the left subtree
    [l] of [a] is not empty. *)
Fixpoint min_parent (a : positive) (l : tree) : positive :=
  match l with
  | Leaf => a
  | Node l' a' _ _ =>
      match l' with
      | Leaf => a
      | Node _ _ _ _ => min_parent a' l'
      end
  end.

(** The node at which [AVLTree::deleteNode] starts to rebalance,
    [rebalanceStart ? rebalanceStart : parent], after it unlinked a node
    with parent [up] and subtrees [l] and [r]. *)
Definition del_start (up : ptr) (l r : tree) : ptr :=
  match l, r with
  | Leaf, Leaf => up
  | Leaf, Node _ ra _ _ => Some ra
  | Node _ la _ _, Leaf => Some la
  | Node _ _ _ _, Node rl ra _ _ =>
      match rl with
      | Leaf => Some ra
      | Node _ _ _ _ => Some (min_parent ra rl)
      end
  end.

Fixpoint BST_del_start (up : ptr) (t : tree) (k : Z) : ptr :=
  match t with
  | Leaf => up
  | Node l a ka r =>
      if bool_decide (ka = k) then del_start up l r
      else if bool_decide (k < ka) then BST_del_start (Some a) l k
      else BST_del_start (Some a) r k
  end.

(** [heights_off h c t]: [c] is a node of [t], and every node of [t]
    that is not [c] or above [c] caches the depth of its subtree. *)
Fixpoint heights_off (h : gmap positive BSTNode) (c : positive) (t : tree) :
    Prop :=
  match t with
  | Leaf => False
  | Node l a _ r =>
      (a = c ∧ heights h l ∧ heights h r)
      ∨ (heights_off h c l ∧ heights h r)
      ∨ (heights h l ∧ heights_off h c r)
  end.

(** The four cases of [AVLTree::deleteNode] between the null test and
    the rebalancing loop, as they stand in [AVLTree.deleteNode]: they
    unlink and free [node] and yield [rebalanceStart]. *)
Definition unlink_cases (fuel : nat) (node : ptr) (childless : bool) : M ptr :=
  if childless : bool then
    rebalanceStart ← get_parent node;
    BinarySearchTree.transplant node None;;
    delete_node node;;
    mret rebalanceStart
  else
    nl ← get_left node;
    if is_null nl then
      rebalanceStart ← get_right node;
      nr ← get_right node;
      BinarySearchTree.transplant node nr;;
      delete_node node;;
      mret rebalanceStart
    else
      nr ← get_right node;
      if is_null nr then
        rebalanceStart ← get_left node;
        nl ← get_left node;
        BinarySearchTree.transplant node nl;;
        delete_node node;;
        mret rebalanceStart
      else
        nr ← get_right node;
        sec ← BinarySearchTree.minimumNode fuel nr;
        sp ← get_parent sec;
        rebalanceStart ←
          (if bool_decide (sp ≠ node) then
             rebalanceStart ← get_parent sec;
             sr ← get_right sec;
             BinarySearchTree.transplant sec sr;;
             nr ← get_right node;
             set_right sec nr;;
             sr ← get_right sec;
             when (not_null sr) (sr ← get_right sec; set_parent sr sec);;
             mret rebalanceStart
           else mret sec);
        BinarySearchTree.transplant node sec;;
        nl ← get_left node;
        set_left sec nl;;
        sl ← get_left sec;
        when (not_null sl) (sl ← get_left sec; set_parent sl sec);;
        delete_node node;;
        mret rebalanceStart.

(** [keeps_heights m]: whatever is live after [m] was live before, with
    the same cached height. *)
Definition keeps_heights {A} (m : M A) : Prop :=
  ∀ (s s' : state) (y : A), m s = Ok (y, s') →
    ∀ b, is_Some (heap s' !! b) →
      height <$> (heap s' !! b) = height <$> (heap s !! b).

(** ** Running computations: basic equations *)

Lemma bind_eq {A B} (m : M A) (f : A → M B) (s : state) :
  (m ≫= f) s =
  match m s with
  | Ok (a, s') => f a s'
  | Fault => Fault
  | Timeout => Timeout
  end.
Proof. reflexivity. Qed.

Lemma bind_ok {A B} (m : M A) (f : A → M B) (s s' : state) (a : A) :
  m s = Ok (a, s') → (m ≫= f) s = f a s'.
Proof. intros H. rewrite bind_eq, H. reflexivity. Qed.

Lemma ret_eq {A} (a : A) (s : state) : mret (M := M) a s = Ok (a, s).
Proof. reflexivity. Qed.

Lemma load_ok (s : state) (a : positive) (n : BSTNode) :
  heap s !! a = Some n → load (Some a) s = Ok (n, s).
Proof. intros H. unfold load. rewrite H. reflexivity. Qed.

Lemma get_key_ok (s : state) (a : positive) (n : BSTNode) :
  heap s !! a = Some n → get_key (Some a) s = Ok (key n, s).
Proof. intros H. unfold get_key. rewrite (bind_ok _ _ _ _ _ (load_ok _ _ _ H)). reflexivity. Qed.

Lemma get_height_ok (s : state) (a : positive) (n : BSTNode) :
  heap s !! a = Some n → get_height (Some a) s = Ok (height n, s).
Proof. intros H. unfold get_height. rewrite (bind_ok _ _ _ _ _ (load_ok _ _ _ H)). reflexivity. Qed.

Lemma get_left_ok (s : state) (a : positive) (n : BSTNode) :
  heap s !! a = Some n → get_left (Some a) s = Ok (left n, s).
Proof. intros H. unfold get_left. rewrite (bind_ok _ _ _ _ _ (load_ok _ _ _ H)). reflexivity. Qed.

Lemma get_right_ok (s : state) (a : positive) (n : BSTNode) :
  heap s !! a = Some n → get_right (Some a) s = Ok (right n, s).
Proof. intros H. unfold get_right. rewrite (bind_ok _ _ _ _ _ (load_ok _ _ _ H)). reflexivity. Qed.

Lemma get_parent_ok (s : state) (a : positive) (n : BSTNode) :
  heap s !! a = Some n → get_parent (Some a) s = Ok (parent n, s).
Proof. intros H. unfold get_parent. rewrite (bind_ok _ _ _ _ _ (load_ok _ _ _ H)). reflexivity. Qed.

(** One step of a computation whose next read is known. *)
Ltac mstep H :=
  first
    [ rewrite (bind_ok _ _ _ _ _ (get_key_ok _ _ _ H))
    | rewrite (bind_ok _ _ _ _ _ (get_left_ok _ _ _ H))
    | rewrite (bind_ok _ _ _ _ _ (get_right_ok _ _ _ H))
    | rewrite (bind_ok _ _ _ _ _ (get_parent_ok _ _ _ H))
    | rewrite (bind_ok _ _ _ _ _ (get_height_ok _ _ _ H)) ].

(** ** Searching a shape *)

Lemma searchNode_absent (t : tree) :
  ∀ (s : state) (p : ptr) (k : Z) (fuel : nat),
    shape (heap s) p t → k ∉ keys t → (depth t < fuel)%nat →
    BinarySearchTree.searchNode fuel p k s = Ok (None, s).
Proof.
  induction t as [|l IHl a k0 r IHr]; intros s p k fuel Hs Hk Hf;
    (destruct fuel as [|fuel]; [lia|]); simpl in Hs.
  - subst p. reflexivity.
  - destruct Hs as [-> Hs].
    destruct (heap s !! a) as [n|] eqn:Hn; [|contradiction].
    destruct Hs as (Hkey & Hl & Hr).
    simpl in Hk, Hf.
    assert (k0 ≠ k) by (intros ->; apply Hk; set_solver).
    cbn [BinarySearchTree.searchNode is_null].
    rewrite bind_eq. mstep Hn. rewrite ret_eq.
    rewrite Hkey, bool_decide_eq_false_2 by done.
    mstep Hn. rewrite Hkey.
    case_bool_decide.
    + mstep Hn. apply (IHl s); [done | set_solver | lia].
    + mstep Hn. apply (IHr s); [done | set_solver | lia].
Qed.

Lemma all_keys_max (P : Z → Prop) (r l : tree) (a : positive) (k : Z) :
  all_keys P (Node l a k r) → P (max_key k r).
Proof.
  revert l a k. induction r as [|rl _ ra rk rr IH]; intros l a k H.
  - simpl in *. tauto.
  - simpl in H. simpl. apply (IH rl ra). simpl. tauto.
Qed.

Lemma rspine_depth (t : tree) : (rspine t ≤ depth t)%nat.
Proof. induction t; simpl; lia. Qed.

Lemma linked_shape (t : tree) :
  ∀ h up p, linked h up p t → shape h p t.
Proof.
  induction t as [|l IHl a k r IHr]; intros h up p H; simpl in *; [done|].
  destruct H as [-> H]. split; [done|].
  destruct (h !! a) as [n|]; [|done].
  destruct H as (? & ? & ? & ?). eauto.
Qed.

Lemma searchNode_max (r : tree) :
  ∀ (l : tree) (a : positive) (k : Z) (s : state) (up p : ptr) (fuel : nat),
    linked (heap s) up p (Node l a k r) → ordered (Node l a k r) →
    (depth (Node l a k r) ≤ fuel)%nat →
    BinarySearchTree.searchNode fuel p (max_key k r) s
    = Ok (Some (max_addr a r), s).
Proof.
  induction r as [|rl _ ra rk rr IH]; intros l a k s up p fuel Hl Ho Hf;
    (destruct fuel as [|fuel]; [simpl in Hf; lia|]);
    destruct Hl as [-> Hl];
    (destruct (heap s !! a) as [n|] eqn:Hn; [|contradiction]);
    destruct Hl as (Hkey & Hup & Hll & Hlr);
    cbn [BinarySearchTree.searchNode is_null];
    rewrite bind_eq; mstep Hn; rewrite ret_eq, Hkey.
  - simpl. rewrite bool_decide_eq_true_2 by done. reflexivity.
  - destruct Ho as (_ & Hgt & _ & Hor).
    apply all_keys_max in Hgt.
    change (max_key k (Node rl ra rk rr)) with (max_key rk rr).
    change (max_addr a (Node rl ra rk rr)) with (max_addr ra rr).
    rewrite bool_decide_eq_false_2 by lia.
    mstep Hn. rewrite Hkey, bool_decide_eq_false_2 by lia.
    mstep Hn. apply (IH rl ra rk s (Some a)); [done | done |].
    simpl in Hf. simpl. lia.
Qed.

Lemma successorNode_loop_spine (r : tree) :
  ∀ (l : tree) (a : positive) (k : Z) (s : state) (up p : ptr),
    linked (heap s) up p (Node l a k r) →
    ∃ nm, heap s !! max_addr a r = Some nm ∧ key nm = max_key k r ∧
          right nm = None ∧
          ∀ f, BinarySearchTree.successorNode_loop (rspine r + f)
                 (Some (max_addr a r)) (parent nm) s
               = BinarySearchTree.successorNode_loop f (Some a) up s.
Proof.
  induction r as [|rl _ ra rk rr IH]; intros l a k s up p Hl;
    destruct Hl as [-> Hl];
    (destruct (heap s !! a) as [n|] eqn:Hn; [|contradiction]);
    destruct Hl as (Hkey & Hup & Hll & Hlr).
  - exists n. simpl in Hlr. simpl. rewrite Hup. done.
  - destruct (IH rl ra rk s (Some a) (right n) Hlr) as (nm & Hm & Hmk & Hmr & Hloop).
    exists nm. repeat split; [done..|].
    intros f.
    change (max_addr a (Node rl ra rk rr)) with (max_addr ra rr).
    replace (rspine (Node rl ra rk rr) + f)%nat with (rspine rr + S f)%nat
      by (simpl; lia).
    rewrite Hloop.
    destruct Hlr as [Hr _].
    cbn [BinarySearchTree.successorNode_loop not_null and_then].
    rewrite bind_eq. mstep Hn. rewrite ret_eq, Hr.
    rewrite bool_decide_eq_true_2 by done.
    mstep Hn. rewrite Hup. reflexivity.
Qed.

(** ** More fuel never changes an outcome

    A run that ends with a value or with a fault ends the same way with
    any larger fuel: [m_le] is preserved by every member function. *)

Lemma m_le_refl {A} (m : M A) : m_le m m.
Proof. intros s. right. reflexivity. Qed.

Lemma m_le_timeout {A} (m : M A) : m_le timeout m.
Proof. intros s. left. reflexivity. Qed.

Lemma m_le_bind {A B} (m1 m2 : M A) (f1 f2 : A → M B) :
  m_le m1 m2 → (∀ a, m_le (f1 a) (f2 a)) → m_le (m1 ≫= f1) (m2 ≫= f2).
Proof.
  intros Hm Hf s. rewrite !bind_eq.
  destruct (Hm s) as [-> | <-]; [left; reflexivity|].
  destruct (m1 s) as [[a s']| |]; [apply Hf | right; reflexivity..].
Qed.

Lemma m_le_ok {A} (m1 m2 : M A) (s : state) (x : A * state) :
  m_le m1 m2 → m1 s = Ok x → m2 s = Ok x.
Proof. intros H E. destruct (H s) as [H' | H']; congruence. Qed.

Lemma m_le_fault {A} (m1 m2 : M A) (s : state) :
  m_le m1 m2 → m1 s = Fault → m2 s = Fault.
Proof. intros H E. destruct (H s) as [H' | H']; congruence. Qed.

Ltac mono :=
  repeat first
    [ apply m_le_refl
    | apply m_le_timeout
    | match goal with
      | IH : ∀ _, (_ ≤ _)%nat → _ |- _ => apply IH; lia
      | |- m_le (if ?c then _ else _) (if ?c then _ else _) => destruct c
      | |- m_le (_ ≫= _) (_ ≫= _) => apply m_le_bind; [|intros ?]
      end ].

Section Monotone.
Import BinarySearchTree.

Lemma searchNode_mono (f1 : nat) :
  ∀ f2, (f1 ≤ f2)%nat → ∀ node key, m_le (searchNode f1 node key) (searchNode f2 node key).
Proof.
  induction f1 as [|f1 IH]; intros [|f2] Hle node key; simpl; try lia; mono.
Qed.

Lemma minimumNode_mono (f1 : nat) :
  ∀ f2, (f1 ≤ f2)%nat → ∀ node, m_le (minimumNode f1 node) (minimumNode f2 node).
Proof.
  induction f1 as [|f1 IH]; intros [|f2] Hle node; simpl; try lia; mono.
Qed.

Lemma maximumNode_mono (f1 : nat) :
  ∀ f2, (f1 ≤ f2)%nat → ∀ node, m_le (maximumNode f1 node) (maximumNode f2 node).
Proof.
  induction f1 as [|f1 IH]; intros [|f2] Hle node; simpl; try lia; mono.
Qed.

Lemma successorNode_loop_mono (f1 : nat) :
  ∀ f2, (f1 ≤ f2)%nat → ∀ node parent,
    m_le (successorNode_loop f1 node parent) (successorNode_loop f2 node parent).
Proof.
  induction f1 as [|f1 IH]; intros [|f2] Hle node parent; simpl; try lia; mono.
Qed.

Lemma BST_insertNode_mono (f1 : nat) :
  ∀ f2, (f1 ≤ f2)%nat → ∀ node key parent,
    m_le (insertNode f1 node key parent) (insertNode f2 node key parent).
Proof.
  induction f1 as [|f1 IH]; intros [|f2] Hle node key parent; simpl; try lia; mono.
Qed.

Lemma AVL_insertNode_mono (f1 : nat) :
  ∀ f2, (f1 ≤ f2)%nat → ∀ node key parent,
    m_le (AVLTree.insertNode f1 node key parent) (AVLTree.insertNode f2 node key parent).
Proof.
  induction f1 as [|f1 IH]; intros [|f2] Hle node key parent; simpl; try lia; mono.
Qed.

Lemma deleteNode_loop_mono (f1 : nat) :
  ∀ f2, (f1 ≤ f2)%nat → ∀ cur,
    m_le (AVLTree.deleteNode_loop f1 cur) (AVLTree.deleteNode_loop f2 cur).
Proof.
  induction f1 as [|f1 IH]; intros [|f2] Hle cur; simpl; try lia; mono.
Qed.

Lemma successor_mono (f1 f2 : nat) (key : Z) :
  (f1 ≤ f2)%nat → m_le (successor f1 key) (successor f2 key).
Proof.
  intros Hle. unfold successor, search, successorNode. mono;
    first [ apply searchNode_mono | apply minimumNode_mono
          | apply successorNode_loop_mono ]; lia.
Qed.

Lemma minimum_mono (f1 f2 : nat) :
  (f1 ≤ f2)%nat → m_le (minimum f1) (minimum f2).
Proof. intros Hle. unfold minimum. mono. apply minimumNode_mono; lia. Qed.

Lemma maximum_mono (f1 f2 : nat) :
  (f1 ≤ f2)%nat → m_le (maximum f1) (maximum f2).
Proof. intros Hle. unfold maximum. mono. apply maximumNode_mono; lia. Qed.

Lemma BST_deleteNode_mono (f1 f2 : nat) (root node : ptr) :
  (f1 ≤ f2)%nat → m_le (deleteNode f1 root node) (deleteNode f2 root node).
Proof. intros Hle. unfold deleteNode. mono. apply minimumNode_mono; lia. Qed.

Lemma AVL_deleteNode_mono (f1 f2 : nat) (root node : ptr) :
  (f1 ≤ f2)%nat →
  m_le (AVLTree.deleteNode f1 root node) (AVLTree.deleteNode f2 root node).
Proof.
  intros Hle. unfold AVLTree.deleteNode. mono;
    first [ apply minimumNode_mono | apply deleteNode_loop_mono ]; lia.
Qed.

Lemma BST_apply_mono (f1 f2 : nat) (o : op) :
  (f1 ≤ f2)%nat → m_le (BST_apply f1 o) (BST_apply f2 o).
Proof.
  intros Hle. destruct o; simpl; unfold insert, remove; mono;
    first [ apply BST_insertNode_mono | apply searchNode_mono
          | apply BST_deleteNode_mono ]; lia.
Qed.

Lemma AVL_apply_mono (f1 f2 : nat) (o : op) :
  (f1 ≤ f2)%nat → m_le (AVL_apply f1 o) (AVL_apply f2 o).
Proof.
  intros Hle. destruct o; simpl; unfold AVLTree.insert, AVLTree.remove; mono;
    first [ apply AVL_insertNode_mono | apply searchNode_mono
          | apply AVL_deleteNode_mono ]; lia.
Qed.

Lemma run_mono (ap1 ap2 : op → M unit) (ops : list op) :
  (∀ o, m_le (ap1 o) (ap2 o)) → m_le (run ap1 ops) (run ap2 ops).
Proof.
  intros H. induction ops as [|o ops IH]; simpl; [apply m_le_refl|].
  apply m_le_bind; [apply H | intros _; apply IH].
Qed.

End Monotone.

(** ** The example states are what the operations build *)

Lemma run_AVL_fuel (n extra : nat) (ops : list op) (s : state) (x : unit * state) :
  run (AVL_apply n) ops s = Ok x → run (AVL_apply (n + extra)) ops s = Ok x.
Proof.
  apply m_le_ok, run_mono. intros o. apply AVL_apply_mono. lia.
Qed.

Lemma run_BST_fuel (n extra : nat) (ops : list op) (s : state) (x : unit * state) :
  run (BST_apply n) ops s = Ok x → run (BST_apply (n + extra)) ops s = Ok x.
Proof.
  apply m_le_ok, run_mono. intros o. apply BST_apply_mono. lia.
Qed.

Lemma chain_built (extra : nat) :
  run (AVL_apply (3 + extra)) [Insert 10; Insert 20; Insert 30] empty_state
  = Ok (tt, chain_10_20_30).
Proof. apply run_AVL_fuel. vm_compute. reflexivity. Qed.

Lemma pair_built (extra : nat) :
  run (AVL_apply (2 + extra)) [Insert 10; Insert 20] empty_state
  = Ok (tt, pair_10_20).
Proof. apply run_AVL_fuel. vm_compute. reflexivity. Qed.

Lemma pair_10_30_built (extra : nat) :
  run (AVL_apply (2 + extra)) [Insert 10; Insert 30] empty_state
  = Ok (tt, pair_10_30).
Proof. apply run_AVL_fuel. vm_compute. reflexivity. Qed.

Lemma pair_30_20_built (extra : nat) :
  run (AVL_apply (2 + extra)) [Insert 30; Insert 20] empty_state
  = Ok (tt, pair_30_20).
Proof. apply run_AVL_fuel. vm_compute. reflexivity. Qed.

(** Inserting 20 into [pair_10_30] reaches [balance] at node 10 in the
    state [zigzag_10_30_20], and there [balance] is [rotateLeft]. *)
Lemma zigzag_reached :
  insertNode_right_before_balance 2 (Some 1%positive) 20 pair_10_30
  = Ok (tt, zigzag_10_30_20)
  ∧ AVLTree.insertNode 3 (Some 1%positive) 20 None pair_10_30
    = (insertNode_right_before_balance 2 (Some 1%positive) 20;;
       AVLTree.balance (Some 1%positive) 20) pair_10_30
  ∧ AVLTree.balance (Some 1%positive) 20 zigzag_10_30_20
    = BinarySearchTree.rotateLeft (Some 1%positive) zigzag_10_30_20.
Proof. repeat split; vm_compute; reflexivity. Qed.

(** Inserting 10 into [pair_30_20] reaches [balance] at node 30 in the
    state [left_chain_30_20_10], and there [balance] is [rotateRight]. *)
Lemma left_chain_reached :
  insertNode_left_before_balance 2 (Some 1%positive) 10 pair_30_20
  = Ok (tt, left_chain_30_20_10)
  ∧ AVLTree.insertNode 3 (Some 1%positive) 10 None pair_30_20
    = (insertNode_left_before_balance 2 (Some 1%positive) 10;;
       AVLTree.balance (Some 1%positive) 10) pair_30_20
  ∧ AVLTree.balance (Some 1%positive) 10 left_chain_30_20_10
    = BinarySearchTree.rotateRight (Some 1%positive) left_chain_30_20_10.
Proof. repeat split; vm_compute; reflexivity. Qed.

Lemma tree_built (extra : nat) :
  run (AVL_apply (2 + extra)) [Insert 20; Insert 10; Insert 30] empty_state
  = Ok (tt, tree_20_10_30).
Proof. apply run_AVL_fuel. vm_compute. reflexivity. Qed.

Lemma lost_built (extra : nat) :
  run (AVL_apply (3 + extra)) [Insert 10; Insert 30; Insert 20] empty_state
  = Ok (tt, lost_10).
Proof. apply run_AVL_fuel. vm_compute. reflexivity. Qed.

Lemma single_built_AVL (extra : nat) :
  run (AVL_apply (1 + extra)) [Insert 10] empty_state = Ok (tt, single_10).
Proof. apply run_AVL_fuel. vm_compute. reflexivity. Qed.

Lemma single_built_BST (extra : nat) :
  run (BST_apply (1 + extra)) [Insert 10] empty_state = Ok (tt, single_10).
Proof. apply run_BST_fuel. vm_compute. reflexivity. Qed.

(** ** What the operations do on small trees *)

(** C1 (invariant preservation, refuted on the code): inserting 10, 20, 30
    into an empty [AVLTree] returns normally, for every sufficient fuel,
    with the chain 10 -> 20 -> 30; at its root the cached heights of the
    children are 0 and 2, so the AVL balance invariant, and with it the
    conjunction of the four invariants, does not hold after the third
    insert. *)
Theorem C1_ascending_inserts_break_balance (extra : nat) :
  run (AVL_apply (3 + extra)) [Insert 10; Insert 20; Insert 30] empty_state
  = Ok (tt, chain_10_20_30)
  ∧ ¬ avl_balanced chain_10_20_30
  ∧ ¬ invariants chain_10_20_30.
Proof.
  assert (Hb : ¬ avl_balanced chain_10_20_30).
  { intros H.
    specialize (H 1%positive (mkNode 10 3 None (Some 2%positive) None)).
    assert (Hh : cached_height chain_10_20_30
                   (right (mkNode 10 3 None (Some 2%positive) None)) = 2)
      by reflexivity.
    rewrite Hh in H. simpl in H.
    assert (Z.abs (0 - 2) ≤ 1); [|lia].
    apply H. split; [apply reach_here | reflexivity]. }
  split; [apply chain_built|]. split; [exact Hb|].
  intros (_ & _ & _ & H). exact (Hb H).
Qed.

(** C3 (scenario insert 10, 20, 30, refuted on the code): the three
    inserts leave the root with key 10 and cached height 3, no left child,
    right child 20 of height 2, whose right child is 30 of height 1; no
    rotation took place. *)
Theorem C3_insert_10_20_30_is_a_chain (extra : nat) :
  ∃ s r20 r30,
    run (AVL_apply (3 + extra)) [Insert 10; Insert 20; Insert 30] empty_state
    = Ok (tt, s)
    ∧ (n ← load (root s); mret (key n, height n, left n, right n)) s
      = Ok ((10, 3, None, Some r20), s)
    ∧ (n ← load (Some r20); mret (key n, height n, left n, right n)) s
      = Ok ((20, 2, None, Some r30), s)
    ∧ (n ← load (Some r30); mret (key n, height n, left n, right n)) s
      = Ok ((30, 1, None, None), s).
Proof.
  exists chain_10_20_30, 2%positive, 3%positive.
  split; [apply chain_built|]. repeat split.
Qed.

(** C5 (membership, refuted on the code): after inserting 10, 30, 20 into
    an empty [AVLTree], with nothing removed, [search(10)] returns the
    null pointer. *)
Theorem C5_inserted_key_not_found (extra : nat) :
  (run (AVL_apply (3 + extra)) [Insert 10; Insert 30; Insert 20];;
   AVLTree.search (3 + extra) 10) empty_state
  = Ok (None, lost_10).
Proof.
  rewrite (bind_ok _ _ _ _ _ (lost_built extra)).
  eapply (m_le_ok (AVLTree.search 3 10)).
  - unfold AVLTree.search. mono. apply searchNode_mono. lia.
  - vm_compute. reflexivity.
Qed.

(** C6 (duplicate insert, refuted on the plain tree): in the
    [BinarySearchTree] that holds the single key 10, [search(10)] finds
    the node, and [insert(10)] allocates a second node with key 10 and
    hangs it to the right of the first. *)
Theorem C6_BST_duplicate_insert_adds_node (extra : nat) :
  BinarySearchTree.search (1 + extra) 10 single_10
  = Ok (Some 1%positive, single_10)
  ∧ BinarySearchTree.insert (2 + extra) 10 single_10 = Ok (tt, dup_10)
  ∧ heap single_10 !! 2%positive = None
  ∧ heap dup_10 !! 2%positive
    = Some (mkNode 10 1 None None (Some 1%positive))
  ∧ (right <$> heap dup_10 !! 1%positive) = Some (Some 2%positive).
Proof.
  split; [|split; [|repeat split]].
  - eapply (m_le_ok (BinarySearchTree.search 1 10)).
    + unfold BinarySearchTree.search. mono.
      apply searchNode_mono. lia.
    + vm_compute. reflexivity.
  - eapply (m_le_ok (BST_apply 2 (Insert 10))).
    + apply (BST_apply_mono 2 (2 + extra) (Insert 10)). lia.
    + vm_compute. reflexivity.
Qed.

(** C7 (removing a missing key, refuted on the plain tree): in the
    [BinarySearchTree] that holds the single key 10, [remove(20)]
    dereferences the null pointer that [searchNode] returned. *)
Theorem C7_BST_remove_missing_key_faults (extra : nat) :
  BinarySearchTree.search (2 + extra) 20 single_10 = Ok (None, single_10)
  ∧ BinarySearchTree.remove (2 + extra) 20 single_10 = Fault.
Proof.
  split.
  - eapply (m_le_ok (BinarySearchTree.search 2 20)).
    + unfold BinarySearchTree.search. mono.
      apply searchNode_mono. lia.
    + vm_compute. reflexivity.
  - eapply (m_le_fault (BST_apply 2 (Remove 20))).
    + apply (BST_apply_mono 2 (2 + extra) (Remove 20)). lia.
    + vm_compute. reflexivity.
Qed.

(** C8 (minimum and maximum of an empty tree, refuted on the code): with
    a null [root], [minimum()] and [maximum()] dereference it; neither
    returns a value. *)
Theorem C8_minimum_maximum_of_empty_fault (s : state) (fuel : nat) :
  root s = None →
  BinarySearchTree.minimum (S fuel) s = Fault
  ∧ BinarySearchTree.maximum (S fuel) s = Fault.
Proof.
  intros H. unfold BinarySearchTree.minimum, BinarySearchTree.maximum.
  rewrite !bind_eq. unfold get_root. rewrite H. split; reflexivity.
Qed.

Lemma C8_minimum_maximum_of_empty_fault_witness :
  root empty_state = None
  ∧ BinarySearchTree.minimum 1 empty_state = Fault
  ∧ BinarySearchTree.maximum 1 empty_state = Fault.
Proof.
  split; [reflexivity|].
  apply (C8_minimum_maximum_of_empty_fault empty_state 0). reflexivity.
Defined.

(** C2 (rotations, refuted on the code): [rotateLeft] at node 10, called
    while 20 is inserted below 10 -> 30, returns the pivot 30; but 30
    keeps its left child 20 and its parent link to 10, node 10 ends with
    30 again as right child and with 30 as parent, the middle node 20 has
    parent 10 without being a child of 10, and [root] still names 10.
    [rotateRight] at node 30 of the left chain 30 -> 20 -> 10 is the
    mirror image, except that the pivot is stored into [z->right].  In
    both cases the insert then makes the pivot the root, so [z] is no
    longer below the root. *)
Theorem C2_rotations_leave_pivot_below_z (extra : nat) :
  (∃ s', BinarySearchTree.rotateLeft (Some 1%positive) zigzag_10_30_20
         = Ok (Some 2%positive, s')
       ∧ heap s' !! 2%positive
         = Some (mkNode 30 2 (Some 3%positive) None (Some 1%positive))
       ∧ heap s' !! 1%positive
         = Some (mkNode 10 3 None (Some 2%positive) (Some 2%positive))
       ∧ heap s' !! 3%positive
         = Some (mkNode 20 1 None None (Some 1%positive))
       ∧ root s' = Some 1%positive
       ∧ run (AVL_apply (3 + extra)) [Insert 10; Insert 30; Insert 20]
           empty_state
         = Ok (tt, mkState (heap s') (Some 2%positive) (next s')))
  ∧ (∃ s', BinarySearchTree.rotateRight (Some 1%positive) left_chain_30_20_10
           = Ok (Some 2%positive, s')
         ∧ heap s' !! 2%positive
           = Some (mkNode 20 2 (Some 3%positive) None (Some 1%positive))
         ∧ heap s' !! 1%positive
           = Some (mkNode 30 3 None (Some 2%positive) (Some 2%positive))
         ∧ heap s' !! 3%positive
           = Some (mkNode 10 1 None None (Some 2%positive))
         ∧ root s' = Some 1%positive
         ∧ run (AVL_apply (3 + extra)) [Insert 30; Insert 20; Insert 10]
             empty_state
           = Ok (tt, mkState (heap s') (Some 2%positive) (next s'))).
Proof.
  split; eexists; (split; [vm_compute; reflexivity|]);
    (repeat (split; [reflexivity|]));
    apply run_AVL_fuel; vm_compute; reflexivity.
Qed.

(** C4 (the RR case of [balance], refuted on the code): at a node whose
    balance factor is below -1, a reference key greater than the right
    child's key makes [balance] return the node with nothing changed,
    and a reference key smaller than the right child's key makes it run
    [rotateLeft] at the node. *)
Theorem C4_balance_right_heavy (s : state) (node r : positive)
    (n nr : BSTNode) (k b : Z) :
  heap s !! node = Some n → right n = Some r → heap s !! r = Some nr →
  BinarySearchTree.getBalance (Some node) s = Ok (b, s) → b < -1 →
  (k > key nr → AVLTree.balance (Some node) k s = Ok (Some node, s))
  ∧ (k < key nr →
     AVLTree.balance (Some node) k s
     = BinarySearchTree.rotateLeft (Some node) s).
Proof.
  intros Hn Hr Hnr Hb Hlt.
  unfold AVLTree.balance.
  rewrite (bind_ok _ _ _ _ _ Hb).
  rewrite (bool_decide_eq_false_2 (b > 1)) by lia.
  cbn [and_then]. rewrite !(bind_ok _ _ _ _ _ (ret_eq false s)).
  rewrite (bool_decide_eq_true_2 (b < -1)) by done.
  cbn [and_then].
  split; intros Hk.
  - rewrite bind_eq. mstep Hn. rewrite Hr. mstep Hnr. rewrite ret_eq.
    rewrite bool_decide_eq_false_2 by lia.
    rewrite (bind_ok _ _ _ _ _ (ret_eq false s)).
    rewrite bind_eq. mstep Hn. rewrite Hr. mstep Hnr. rewrite ret_eq.
    rewrite bool_decide_eq_false_2 by lia. reflexivity.
  - rewrite bind_eq. mstep Hn. rewrite Hr. mstep Hnr. rewrite ret_eq.
    rewrite bool_decide_eq_true_2 by lia. reflexivity.
Qed.

Lemma C4_balance_right_heavy_witness :
  BinarySearchTree.getBalance (Some 1%positive) chain_10_20_30
  = Ok (-2, chain_10_20_30)
  ∧ 30 > 20
  ∧ AVLTree.balance (Some 1%positive) 30 chain_10_20_30
    = Ok (Some 1%positive, chain_10_20_30).
Proof.
  split; [reflexivity|]. split; [lia|].
  apply (C4_balance_right_heavy chain_10_20_30 1%positive 2%positive
           (mkNode 10 3 None (Some 2%positive) None)
           (mkNode 20 2 None (Some 3%positive) (Some 1%positive))
           30 (-2));
    [reflexivity | reflexivity | reflexivity | reflexivity | lia | simpl; lia].
Defined.

(** ** successor *)

(** C9 as stated fails on the single node 10: that node is the maximum
    (no right child, no parent), and [successor(10)] returns the node
    itself, never the null pointer. *)
Lemma C9_successor_of_single_node :
  linked (heap single_10) None (root single_10) (Node Leaf 1%positive 10 Leaf)
  ∧ BinarySearchTree.successor 2 10 single_10
    = Ok (Some 1%positive, single_10)
  ∧ ¬ ∃ fuel, BinarySearchTree.successor fuel 10 single_10
              = Ok (None, single_10).
Proof.
  assert (H2 : BinarySearchTree.successor 2 10 single_10
               = Ok (Some 1%positive, single_10))
    by (vm_compute; reflexivity).
  split; [vm_compute; tauto|]. split; [exact H2|].
  intros [fuel H].
  destruct (Nat.le_ge_cases fuel 2) as [Hle | Hge].
  - pose proof (m_le_ok _ _ _ _
                  (successor_mono fuel 2 10 Hle) H).
    congruence.
  - pose proof (m_le_ok _ _ _ _
                  (successor_mono 2 fuel 10 Hge) H2).
    congruence.
Qed.

(** C9 (amended): in a tree whose child and parent links are consistent
    and whose keys are in search-tree order, [successor] applied to the
    key of the maximum node (the end of the right spine) returns that
    node itself, with the state unchanged. *)
Theorem C9_successor_of_maximum_is_itself (s : state) (l r : tree)
    (a : positive) (k : Z) (fuel : nat) :
  linked (heap s) None (root s) (Node l a k r) →
  ordered (Node l a k r) →
  (depth (Node l a k r) ≤ fuel)%nat →
  ∃ nm, heap s !! max_addr a r = Some nm
        ∧ key nm = max_key k r ∧ right nm = None
        ∧ BinarySearchTree.successor fuel (max_key k r) s
          = Ok (Some (max_addr a r), s).
Proof.
  intros Hl Ho Hf.
  destruct (successorNode_loop_spine r l a k s None (root s) Hl)
    as (nm & Hm & Hmk & Hmr & Hloop).
  exists nm. repeat split; [done..|].
  unfold BinarySearchTree.successor, BinarySearchTree.search.
  rewrite bind_eq, (bind_ok _ _ _ _ _ (eq_refl : get_root s = Ok (root s, s))).
  rewrite (searchNode_max r l a k s None (root s) fuel Hl Ho Hf).
  unfold BinarySearchTree.successorNode. cbn [is_null].
  mstep Hm. rewrite Hmr. cbn [not_null].
  mstep Hm.
  pose proof (rspine_depth r) as Hd. simpl in Hf.
  replace fuel with (rspine r + S (fuel - rspine r - 1))%nat by lia.
  rewrite bind_eq, Hloop. reflexivity.
Qed.

Lemma C9_successor_of_maximum_is_itself_witness :
  linked (heap tree_20_10_30) None (root tree_20_10_30) shape_20_10_30
  ∧ ordered shape_20_10_30
  ∧ ∃ nm, heap tree_20_10_30 !! 3%positive = Some nm
          ∧ key nm = 30 ∧ right nm = None
          ∧ BinarySearchTree.successor 2 30 tree_20_10_30
            = Ok (Some 3%positive, tree_20_10_30).
Proof.
  assert (Hl : linked (heap tree_20_10_30) None (root tree_20_10_30)
                 shape_20_10_30) by (vm_compute; tauto).
  assert (Ho : ordered shape_20_10_30) by (simpl; lia).
  split; [exact Hl|]. split; [exact Ho|].
  apply (C9_successor_of_maximum_is_itself tree_20_10_30
           (Node Leaf 2%positive 10 Leaf) (Node Leaf 3%positive 30 Leaf)
           1%positive 20 2 Hl Ho).
  simpl. lia.
Defined.

(** C10: in a state whose child links from [root] spell out a finite tree
    (the empty one included) that does not hold [key], [successor(key)]
    returns the null pointer, without a fault and with the state
    unchanged, for every fuel above the depth of the tree. *)
Theorem C10_successor_of_missing_key (s : state) (t : tree) (k : Z)
    (fuel : nat) :
  shape (heap s) (root s) t → k ∉ keys t → (depth t < fuel)%nat →
  BinarySearchTree.successor fuel k s = Ok (None, s).
Proof.
  intros Hs Hk Hf.
  unfold BinarySearchTree.successor, BinarySearchTree.search.
  rewrite bind_eq, (bind_ok _ _ _ _ _ (eq_refl : get_root s = Ok (root s, s))).
  rewrite (searchNode_absent t s (root s) k fuel Hs Hk Hf).
  reflexivity.
Qed.

Lemma C10_successor_of_missing_key_witness :
  shape (heap tree_20_10_30) (root tree_20_10_30) shape_20_10_30
  ∧ (15 ∉ keys shape_20_10_30)
  ∧ BinarySearchTree.successor 3 15 tree_20_10_30 = Ok (None, tree_20_10_30).
Proof.
  assert (Hs : shape (heap tree_20_10_30) (root tree_20_10_30)
                 shape_20_10_30) by (vm_compute; tauto).
  assert (Hk : 15 ∉ keys shape_20_10_30).
  { simpl. rewrite !elem_of_cons, elem_of_nil. lia. }
  split; [exact Hs|]. split; [exact Hk|].
  apply (C10_successor_of_missing_key tree_20_10_30 shape_20_10_30 15 3 Hs Hk).
  simpl. lia.
Defined.

(** ** remove of a key that search does not find *)

(** [AVLTree::deleteNode] returns at once on a null node. *)
Lemma AVL_remove_missing_is_noop (s : state) (fuel : nat) (k : Z) :
  BinarySearchTree.searchNode fuel (root s) k s = Ok (None, s) →
  AVLTree.remove fuel k s = Ok (tt, s).
Proof.
  intros H. unfold AVLTree.remove.
  rewrite bind_eq. cbn [get_root]. rewrite (bind_ok _ _ _ _ _ H).
  reflexivity.
Qed.

(** [BinarySearchTree::deleteNode] returns at once on a null root. *)
Lemma BST_remove_on_empty_is_noop (s : state) (fuel : nat) (k : Z) :
  root s = None → BinarySearchTree.remove (S fuel) k s = Ok (tt, s).
Proof.
  intros H. unfold BinarySearchTree.remove.
  rewrite bind_eq. cbn [get_root]. rewrite H. reflexivity.
Qed.

(** ** rotateLeft on any well-linked pair

    Whatever hangs below them, the pivot [y] keeps its children and its
    parent link, [z] keeps its left child and ends with [y] as right child
    and as parent, and [root] is not touched.  Only the cached heights
    are recomputed. *)

Ltac run_heap :=
  repeat first
    [ progress cbv beta iota delta
        [set_right set_parent set_left set_height update load
         get_parent get_left get_right get_height get_key
         set_root get_root mbind M_bind mret M_ret
         when not_null is_null
         with_right with_parent with_left with_height]
    | progress cbn [heap root next key height left right parent]
    | rewrite lookup_insert_eq
    | rewrite lookup_insert_ne by congruence
    | match goal with
      | H : heap _ !! _ = Some _ |- _ => rewrite H
      | H : left _ = _ |- _ => rewrite H
      | H : right _ = _ |- _ => rewrite H
      | H : parent _ = _ |- _ => rewrite H
      end
    | rewrite bool_decide_eq_false_2 by congruence ].

Lemma rotateLeft_keeps_pivot_links (s : state) (z y : positive)
    (nz ny : BSTNode) :
  heap s !! z = Some nz → right nz = Some y →
  heap s !! y = Some ny → parent ny = Some z → z ≠ y →
  child_ok s z y (left nz) → child_ok s z y (left ny) →
  child_ok s z y (right ny) →
  (left ny ≠ None → left nz ≠ left ny ∧ right ny ≠ left ny) →
  ∃ s', BinarySearchTree.rotateLeft (Some z) s = Ok (Some y, s')
        ∧ root s' = root s
        ∧ heap s' !! y
          = Some (mkNode (key ny)
                    (Z.max (cached_height s (left ny))
                           (cached_height s (right ny)) + 1)
                    (left ny) (right ny) (Some z))
        ∧ heap s' !! z
          = Some (mkNode (key nz)
                    (Z.max (cached_height s (left nz)) (height ny) + 1)
                    (left nz) (Some y) (Some y)).
Proof.
  intros Hz Hzr Hy Hyp Hne Hzl HT2 Hyr Hd.
  unfold BinarySearchTree.rotateLeft, BinarySearchTree.updateHeight,
    BinarySearchTree.getHeight.
  destruct (left nz) as [zl|] eqn:Ezl;
    [destruct Hzl as (? & ? & [nzl Hnzl])|];
    (destruct (left ny) as [t|] eqn:Et;
       [destruct HT2 as (? & ? & [nt Hnt]);
        destruct Hd as [Hd1 Hd2]; [done|]|clear Hd]);
    (destruct (right ny) as [yr|] eqn:Eyr;
       [destruct Hyr as (? & ? & [nyr Hnyr])|]);
    unfold cached_height;
    eexists; (split; [run_heap; reflexivity|]);
    cbn [root heap]; (split; [reflexivity|]);
    run_heap.
  all: split; reflexivity.
Qed.

(** [rotateRight] differs in one respect: after [z->left = T3] the test
    [y->parent->left == z] reads the new left child of [z], so the pivot is
    stored into [z->right], over the right subtree [z] had. *)
Lemma rotateRight_keeps_pivot_links (s : state) (z y : positive)
    (nz ny : BSTNode) :
  heap s !! z = Some nz → left nz = Some y →
  heap s !! y = Some ny → parent ny = Some z → z ≠ y →
  child_ok s z y (left ny) → child_ok s z y (right ny) →
  (right ny ≠ None → left ny ≠ right ny) →
  ∃ s', BinarySearchTree.rotateRight (Some z) s = Ok (Some y, s')
        ∧ root s' = root s
        ∧ heap s' !! y
          = Some (mkNode (key ny)
                    (Z.max (cached_height s (left ny))
                           (cached_height s (right ny)) + 1)
                    (left ny) (right ny) (Some z))
        ∧ heap s' !! z
          = Some (mkNode (key nz)
                    (Z.max (cached_height s (right ny)) (height ny) + 1)
                    (right ny) (Some y) (Some y)).
Proof.
  intros Hz Hzl Hy Hyp Hne Hyl HT3 Hd.
  unfold BinarySearchTree.rotateRight, BinarySearchTree.updateHeight,
    BinarySearchTree.getHeight.
  destruct (right ny) as [t|] eqn:Et;
    [destruct HT3 as (? & ? & [nt Hnt]); assert (left ny ≠ Some t) by auto
    |clear Hd];
    (destruct (left ny) as [yl|] eqn:Eyl;
       [destruct Hyl as (? & ? & [nyl Hnyl])|]);
    unfold cached_height;
    eexists; (split; [run_heap; reflexivity|]);
    cbn [root heap]; (split; [reflexivity|]);
    run_heap.
  all: split; reflexivity.
Qed.


(** ** The invariants on a balanced tree

    The four invariants hold in the state that inserting 20, 10, 30
    builds, so they can be met by states the code produces. *)

Lemma reachable_closed (s : state) (S : list ptr) :
  (∀ a n, Some a ∈ S → heap s !! a = Some n → left n ∈ S ∧ right n ∈ S) →
  ∀ p q, p ∈ S → reachable_from s p q → q ∈ S.
Proof.
  intros Hc p q Hp Hr.
  induction Hr as [|a n _ IH Hn|a n _ IH Hn]; [done|..];
    apply (Hc a n); auto.
Qed.

Ltac list_cases H :=
  repeat (apply elem_of_cons in H as [H | H]; [try discriminate H|]);
  [..|apply elem_of_nil in H; destruct H].

Ltac known_node H := vm_compute in H; first [discriminate H | injection H as <-].

Lemma reachable_tree_20_10_30 (p q : ptr) (S : list ptr) :
  S = [Some 1%positive; Some 2%positive; Some 3%positive; None]
  ∨ S = [Some 2%positive; None] ∨ S = [Some 3%positive; None] ∨ S = [None] →
  p ∈ S → reachable_from tree_20_10_30 p q → q ∈ S.
Proof.
  intros HS. apply reachable_closed. intros a n Ha Hn.
  destruct HS as [-> | [-> | [-> | ->]]]; list_cases Ha;
    injection Ha as ->; known_node Hn; simpl; split; set_solver.
Qed.

Lemma in_tree_20_10_30 (a : positive) (n : BSTNode) :
  in_tree tree_20_10_30 a n →
  (a = 1%positive ∧ n = mkNode 20 2 (Some 2%positive) (Some 3%positive) None)
  ∨ (a = 2%positive ∧ n = mkNode 10 1 None None (Some 1%positive))
  ∨ (a = 3%positive ∧ n = mkNode 30 1 None None (Some 1%positive)).
Proof.
  intros [Hr Hn].
  apply (reachable_tree_20_10_30 _ _ _ (or_introl eq_refl)) in Hr;
    [|apply list_elem_of_here].
  list_cases Hr; injection Hr as ->; known_node Hn; auto.
Qed.

Lemma in_subtree_20_10_30 (p : ptr) (m : BSTNode) :
  in_subtree tree_20_10_30 p m →
  match p with
  | Some 2%positive => key m = 10
  | Some 3%positive => key m = 30
  | None => False
  | _ => True
  end.
Proof.
  intros (b & Hr & Hm).
  destruct p as [[| |]|]; try exact I.
  1: destruct p; try exact I.
  - apply (reachable_tree_20_10_30 _ _ [Some 3%positive; None]) in Hr;
      [|tauto|apply list_elem_of_here].
    list_cases Hr; injection Hr as ->; known_node Hm; reflexivity.
  - destruct p; try exact I.
    apply (reachable_tree_20_10_30 _ _ [Some 2%positive; None]) in Hr;
      [|tauto|apply list_elem_of_here].
    list_cases Hr; injection Hr as ->; known_node Hm; reflexivity.
  - apply (reachable_tree_20_10_30 _ _ [None]) in Hr;
      [|tauto|apply list_elem_of_here].
    list_cases Hr.
Qed.

Lemma invariants_tree_20_10_30 : invariants tree_20_10_30.
Proof.
  split; [|split; [|split]].
  - intros a n Ha.
    apply in_tree_20_10_30 in Ha as [[-> ->] | [[-> ->] | [-> ->]]];
      split; intros m Hm; apply in_subtree_20_10_30 in Hm; simpl in *;
      first [lia | contradiction].
  - split.
    + intros a n Ha.
      apply in_tree_20_10_30 in Ha as [[-> ->] | [[-> ->] | [-> ->]]];
        split; intros c nc Hc Hnc; simpl in Hc; try discriminate Hc;
        injection Hc as <-; known_node Hnc; reflexivity.
    + intros a n Ha Hn. injection Ha as <-. known_node Hn. reflexivity.
  - intros a n Ha.
    apply in_tree_20_10_30 in Ha as [[-> ->] | [[-> ->] | [-> ->]]];
      reflexivity.
  - intros a n Ha.
    apply in_tree_20_10_30 in Ha as [[-> ->] | [[-> ->] | [-> ->]]];
      vm_compute; discriminate.
Qed.

(** ** insert of a key an AVL tree holds

    On a tree that meets the invariants, [AVLTree::insertNode] walks down
    to the key and back without changing anything. *)

Lemma all_keys_elem (P : Z → Prop) (t : tree) (x : Z) :
  all_keys P t → x ∈ keys t → P x.
Proof.
  induction t as [|l IHl a k r IHr]; simpl; intros H Hx.
  - apply elem_of_nil in Hx. destruct Hx.
  - destruct H as (Hl & Hk & Hr).
    apply elem_of_app in Hx as [Hx | Hx]; [auto|].
    apply elem_of_cons in Hx as [-> | Hx]; auto.
Qed.

Lemma state_eta (s : state) : mkState (heap s) (root s) (next s) = s.
Proof. destruct s. reflexivity. Qed.

Lemma update_id (s : state) (a : positive) (n : BSTNode)
    (f : BSTNode → BSTNode) :
  heap s !! a = Some n → f n = n → update (Some a) f s = Ok (tt, s).
Proof.
  intros Hn Hf. unfold update. rewrite Hn, Hf, insert_id by done.
  rewrite state_eta. reflexivity.
Qed.

Lemma avl_linked_live (t : tree) (s : state) (up p : ptr) :
  avl_linked s up p t →
  p = None ∨ ∃ a n, p = Some a ∧ heap s !! a = Some n ∧ parent n = up.
Proof.
  destruct t as [|l a k r]; simpl; [auto|].
  intros [-> H]. right.
  destruct (heap s !! a) as [n|] eqn:Hn; [|contradiction].
  destruct H as (_ & Hup & _). exists a, n. auto.
Qed.

Lemma getHeight_cached (t : tree) (s : state) (up p : ptr) :
  avl_linked s up p t →
  BinarySearchTree.getHeight p s = Ok (cached_height s p, s).
Proof.
  intros H. apply avl_linked_live in H as [-> | (a & n & -> & Hn & _)].
  - reflexivity.
  - unfold BinarySearchTree.getHeight, cached_height. cbn [not_null].
    rewrite (get_height_ok _ _ _ Hn), Hn. reflexivity.
Qed.

Lemma AVL_insertNode_present (t : tree) :
  ∀ (s : state) (up p up' : ptr) (k : Z) (fuel : nat),
    avl_linked s up p t → ordered t → k ∈ keys t → (depth t ≤ fuel)%nat →
    AVLTree.insertNode fuel p k up' s = Ok (p, s).
Proof.
  induction t as [|l IHl a ka r IHr]; intros s up p up' k fuel Ht Ho Hk Hf.
  { apply elem_of_nil in Hk. destruct Hk. }
  destruct fuel as [|fuel]; [simpl in Hf; lia|].
  destruct Ht as [-> Ht].
  destruct (heap s !! a) as [n|] eqn:Hn; [|contradiction].
  destruct Ht as (Hkey & Hup & Hh & Hb & Hl & Hr).
  destruct Ho as (Hlt & Hgt & Hol & Hor).
  simpl in Hf.
  assert (Hupd : BinarySearchTree.updateHeight (Some a) s = Ok (tt, s)).
  { unfold BinarySearchTree.updateHeight. cbn [is_null].
    mstep Hn. rewrite (bind_ok _ _ _ _ _ (getHeight_cached _ _ _ _ Hl)).
    mstep Hn. rewrite (bind_ok _ _ _ _ _ (getHeight_cached _ _ _ _ Hr)).
    apply (update_id _ _ _ _ Hn). destruct n; simpl in *.
    unfold with_height; simpl. f_equal. lia. }
  assert (Hbal : AVLTree.balance (Some a) k s = Ok (Some a, s)).
  { assert (HgB : BinarySearchTree.getBalance (Some a) s
                   = Ok (cached_height s (left n) - cached_height s (right n), s)).
    { unfold BinarySearchTree.getBalance. cbn [not_null].
      mstep Hn. rewrite (bind_ok _ _ _ _ _ (getHeight_cached _ _ _ _ Hl)).
      mstep Hn. rewrite (bind_ok _ _ _ _ _ (getHeight_cached _ _ _ _ Hr)).
      reflexivity. }
    unfold AVLTree.balance. rewrite (bind_ok _ _ _ _ _ HgB).
    rewrite (bool_decide_eq_false_2 (_ > 1)) by lia.
    rewrite (bool_decide_eq_false_2 (_ < -1)) by lia.
    cbn [and_then]. rewrite !(bind_ok _ _ _ _ _ (ret_eq false s)).
    reflexivity. }
  cbn [AVLTree.insertNode is_null].
  mstep Hn. rewrite Hkey.
  apply elem_of_app in Hk as [Hk | Hk]; [|apply elem_of_cons in Hk as [-> | Hk]].
  - pose proof (all_keys_elem _ _ _ Hlt Hk) as Hlt'. simpl in Hlt'.
    rewrite bool_decide_eq_true_2 by lia.
    mstep Hn.
    rewrite (bind_ok _ _ _ _ _
               (IHl s (Some a) (left n) (Some a) k fuel Hl Hol Hk ltac:(lia))).
    rewrite (bind_ok _ _ _ _ _ (update_id _ _ _ (with_left (left n)) Hn
                                  ltac:(by destruct n))).
    mstep Hn.
    destruct (avl_linked_live _ _ _ _ Hl) as [E | (la & nl & E & Hnl & Hpl)].
    { destruct l; [apply elem_of_nil in Hk; destruct Hk|].
      destruct Hl as [E' _]. congruence. }
    rewrite E.
    rewrite (bind_ok _ _ _ _ _ (update_id _ _ _ (with_parent (Some a)) Hnl
                                  ltac:(by destruct nl; simpl in *; subst))).
    rewrite (bind_ok _ _ _ _ _ Hupd). exact Hbal.
  - rewrite bool_decide_eq_false_2 by lia.
    mstep Hn. rewrite Hkey, bool_decide_eq_false_2 by lia. reflexivity.
  - pose proof (all_keys_elem _ _ _ Hgt Hk) as Hgt'. simpl in Hgt'.
    rewrite bool_decide_eq_false_2 by lia.
    mstep Hn. rewrite Hkey, bool_decide_eq_true_2 by lia.
    mstep Hn.
    rewrite (bind_ok _ _ _ _ _
               (IHr s (Some a) (right n) (Some a) k fuel Hr Hor Hk ltac:(lia))).
    rewrite (bind_ok _ _ _ _ _ (update_id _ _ _ (with_right (right n)) Hn
                                  ltac:(by destruct n))).
    mstep Hn.
    destruct (avl_linked_live _ _ _ _ Hr) as [E | (ra & nr & E & Hnr & Hpr)].
    { destruct r; [apply elem_of_nil in Hk; destruct Hk|].
      destruct Hr as [E' _]. congruence. }
    rewrite E.
    rewrite (bind_ok _ _ _ _ _ (update_id _ _ _ (with_parent (Some a)) Hnr
                                  ltac:(by destruct nr; simpl in *; subst))).
    rewrite (bind_ok _ _ _ _ _ Hupd). exact Hbal.
Qed.

(** [AVLTree::insert] of a key that a tree meeting the invariants holds
    leaves the state as it is. *)
Lemma AVL_insert_present_is_noop (s : state) (t : tree) (k : Z) (fuel : nat) :
  avl_linked s None (root s) t → ordered t → k ∈ keys t →
  (depth t ≤ fuel)%nat →
  AVLTree.insert fuel k s = Ok (tt, s).
Proof.
  intros Ht Ho Hk Hf. unfold AVLTree.insert.
  rewrite bind_eq. cbn [get_root].
  rewrite (bind_ok _ _ _ _ _
             (AVL_insertNode_present t s None (root s) None k fuel Ht Ho Hk Hf)).
  unfold set_root. rewrite state_eta. reflexivity.
Qed.

Lemma AVL_insert_present_is_noop_witness :
  avl_linked tree_20_10_30 None (root tree_20_10_30) shape_20_10_30
  ∧ ordered shape_20_10_30
  ∧ (30 ∈ keys shape_20_10_30)
  ∧ AVLTree.insert 2 30 tree_20_10_30 = Ok (tt, tree_20_10_30).
Proof.
  assert (Ht : avl_linked tree_20_10_30 None (root tree_20_10_30)
                 shape_20_10_30)
    by (vm_compute; repeat split; discriminate).
  assert (Ho : ordered shape_20_10_30) by (simpl; lia).
  assert (Hk : 30 ∈ keys shape_20_10_30).
  { simpl. rewrite !elem_of_cons. auto. }
  split; [exact Ht|]. split; [exact Ho|]. split; [exact Hk|].
  apply (AVL_insert_present_is_noop tree_20_10_30 shape_20_10_30 30 2 Ht Ho Hk).
  simpl. lia.
Defined.

(** After the rotation of C5 the parent link of node 20 names node 10,
    which is not above it; inserting 20 again rewrites that link. *)
Lemma AVL_duplicate_insert_after_rotation :
  (parent <$> heap lost_10 !! 3%positive) = Some (Some 1%positive)
  ∧ ∃ s', AVLTree.insert 2 20 lost_10 = Ok (tt, s')
          ∧ (parent <$> heap s' !! 3%positive) = Some (Some 2%positive).
Proof.
  split; [reflexivity|]. eexists. split; [vm_compute; reflexivity|].
  reflexivity.
Qed.

(** ** A remove that never returns

    On the chain 10 -> 20 -> 30 -> 40, [remove(40)] rebalances upwards
    and rotates at node 10; the rotation leaves 10 and 20 as each
    other's parent, and the loop alternates between them for ever. *)

Lemma chain_4_built (extra : nat) :
  run (AVL_apply (4 + extra)) [Insert 10; Insert 20; Insert 30; Insert 40]
    empty_state
  = Ok (tt, chain_10_20_30_40).
Proof. apply run_AVL_fuel. vm_compute. reflexivity. Qed.

Lemma deleteNode_loop_spin_step (fuel : nat) :
  AVLTree.deleteNode_loop (S fuel) (Some 1%positive) spin_10_20
  = AVLTree.deleteNode_loop fuel (Some 1%positive) spin_10_20.
Proof. reflexivity. Qed.

Lemma deleteNode_loop_spins (fuel : nat) :
  AVLTree.deleteNode_loop fuel (Some 1%positive) spin_10_20 = Timeout.
Proof.
  induction fuel as [|fuel IH]; [reflexivity|].
  rewrite deleteNode_loop_spin_step. exact IH.
Qed.

Lemma AVL_remove_reaches_spin (fuel : nat) :
  AVLTree.remove (4 + fuel) 40 chain_10_20_30_40
  = ((AVLTree.deleteNode_loop fuel (Some 1%positive);; get_root)
     ≫= λ _, mret tt) spin_10_20.
Proof. reflexivity. Qed.

Lemma run_app (ap : op → M unit) (l1 l2 : list op) (s : state) :
  run ap (l1 ++ l2) s = (run ap l1;; run ap l2) s.
Proof.
  revert s. induction l1 as [|o l1 IH]; intros s; simpl; [reflexivity|].
  rewrite !bind_eq.
  destruct (ap o s) as [[[] s']| |]; [apply IH | reflexivity..].
Qed.

Lemma AVL_remove_never_returns (fuel : nat) :
  run (AVL_apply fuel)
    [Insert 10; Insert 20; Insert 30; Insert 40; Remove 40] empty_state
  = Timeout.
Proof.
  assert (H : run (AVL_apply (4 + fuel))
                ([Insert 10; Insert 20; Insert 30; Insert 40] ++ [Remove 40])
                empty_state = Timeout).
  { rewrite run_app, (bind_ok _ _ _ _ _ (chain_4_built fuel)).
    cbn [run AVL_apply].
    rewrite bind_eq, AVL_remove_reaches_spin, !bind_eq.
    rewrite deleteNode_loop_spins. reflexivity. }
  destruct (run_mono (AVL_apply fuel) (AVL_apply (4 + fuel))
              [Insert 10; Insert 20; Insert 30; Insert 40; Remove 40]
              (λ o, AVL_apply_mono fuel (4 + fuel) o ltac:(lia)) empty_state)
    as [E | E]; [exact E|].
  rewrite E. exact H.
Qed.

(** ** search, minimum and maximum on a finite tree *)

Lemma searchNode_find (t : tree) :
  ∀ (s : state) (p : ptr) (k : Z) (fuel : nat),
    shape (heap s) p t → (depth t < fuel)%nat →
    BinarySearchTree.searchNode fuel p k s = Ok (find t k, s).
Proof.
  induction t as [|l IHl a k0 r IHr]; intros s p k fuel Hs Hf;
    (destruct fuel as [|fuel]; [lia|]); simpl in Hs.
  - subst p. reflexivity.
  - destruct Hs as [-> Hs].
    destruct (heap s !! a) as [n|] eqn:Hn; [|contradiction].
    destruct Hs as (Hkey & Hl & Hr). simpl in Hf.
    cbn [BinarySearchTree.searchNode is_null find].
    rewrite bind_eq. mstep Hn. rewrite ret_eq, Hkey.
    case_bool_decide; [reflexivity|].
    mstep Hn. rewrite Hkey.
    case_bool_decide; mstep Hn; [apply IHl | apply IHr]; (done || lia).
Qed.

Lemma keys_node (l r : tree) (a : positive) (k x : Z) :
  x ∈ keys (Node l a k r) ↔ x ∈ keys l ∨ x = k ∨ x ∈ keys r.
Proof. simpl. rewrite elem_of_app, elem_of_cons. reflexivity. Qed.

Lemma find_holds_key (t : tree) :
  ∀ (h : gmap positive BSTNode) (p : ptr) (k : Z) (a : positive),
    shape h p t → find t k = Some a →
    k ∈ keys t ∧ ∃ n, h !! a = Some n ∧ key n = k.
Proof.
  induction t as [|l IHl a0 k0 r IHr]; intros h p k a Hs Hfind;
    simpl in *; [discriminate|].
  destruct Hs as [-> Hs].
  destruct (h !! a0) as [n|] eqn:Hn; [|contradiction].
  destruct Hs as (Hkey & Hl & Hr).
  rewrite elem_of_app, elem_of_cons.
  case_bool_decide.
  - injection Hfind as <-. subst. split; [auto | eauto].
  - case_bool_decide.
    + destruct (IHl _ _ _ _ Hl Hfind) as [? ?]. split; [auto | done].
    + destruct (IHr _ _ _ _ Hr Hfind) as [? ?]. split; [auto | done].
Qed.

Lemma find_present (t : tree) (k : Z) :
  ordered_dup t → k ∈ keys t → is_Some (find t k).
Proof.
  induction t as [|l IHl a k0 r IHr]; simpl; intros Ho Hk.
  - apply elem_of_nil in Hk. destruct Hk.
  - destruct Ho as (Hlt & Hge & Hol & Hor).
    case_bool_decide; [eauto|].
    apply elem_of_app in Hk as [Hk | Hk];
      [|apply elem_of_cons in Hk as [-> | Hk]; [done|]].
    + pose proof (all_keys_elem _ _ _ Hlt Hk) as Hx. simpl in Hx.
      rewrite bool_decide_eq_true_2 by lia. auto.
    + pose proof (all_keys_elem _ _ _ Hge Hk) as Hx. simpl in Hx.
      rewrite bool_decide_eq_false_2 by lia. auto.
Qed.

Lemma ordered_ordered_dup (t : tree) : ordered t → ordered_dup t.
Proof.
  induction t as [|l IHl a k r IHr]; simpl; [done|].
  intros (Hlt & Hgt & Hol & Hor). repeat split; auto.
  clear -Hgt. induction r as [|rl IHrl ra rk rr IHrr]; simpl in *; [done|].
  destruct Hgt as (? & ? & ?). repeat split; auto. lia.
Qed.

Lemma minimumNode_leftmost (l : tree) :
  ∀ (r : tree) (a : positive) (k : Z) (s : state) (p : ptr) (fuel : nat),
    shape (heap s) p (Node l a k r) → (depth (Node l a k r) ≤ fuel)%nat →
    BinarySearchTree.minimumNode fuel p s = Ok (Some (min_addr a l), s)
    ∧ ∃ n, heap s !! min_addr a l = Some n ∧ key n = min_key k l
           ∧ left n = None.
Proof.
  induction l as [|ll IH la lk lr _]; intros r a k s p fuel Hs Hf;
    (destruct fuel as [|fuel]; [simpl in Hf; lia|]);
    destruct Hs as [-> Hs];
    (destruct (heap s !! a) as [n|] eqn:Hn; [|contradiction]);
    destruct Hs as (Hkey & Hl & Hr);
    cbn [BinarySearchTree.minimumNode]; mstep Hn.
  - simpl in Hl. rewrite Hl. cbn [not_null]. split; [reflexivity|].
    exists n. simpl. auto.
  - pose proof Hl as [E _]. rewrite E. cbn [not_null]. rewrite <- E.
    apply (IH lr la lk s (left n) fuel Hl). simpl in Hf |- *. lia.
Qed.

Lemma maximumNode_rightmost (r : tree) :
  ∀ (l : tree) (a : positive) (k : Z) (s : state) (p : ptr) (fuel : nat),
    shape (heap s) p (Node l a k r) → (depth (Node l a k r) ≤ fuel)%nat →
    BinarySearchTree.maximumNode fuel p s = Ok (Some (max_addr a r), s)
    ∧ ∃ n, heap s !! max_addr a r = Some n ∧ key n = max_key k r
           ∧ right n = None.
Proof.
  induction r as [|rl _ ra rk rr IH]; intros l a k s p fuel Hs Hf;
    (destruct fuel as [|fuel]; [simpl in Hf; lia|]);
    destruct Hs as [-> Hs];
    (destruct (heap s !! a) as [n|] eqn:Hn; [|contradiction]);
    destruct Hs as (Hkey & Hl & Hr);
    cbn [BinarySearchTree.maximumNode]; mstep Hn.
  - simpl in Hr. rewrite Hr. cbn [not_null]. split; [reflexivity|].
    exists n. simpl. auto.
  - pose proof Hr as [E _]. rewrite E. cbn [not_null]. rewrite <- E.
    apply (IH rl ra rk s (right n) fuel Hr). simpl in Hf |- *. lia.
Qed.

Lemma all_keys_weaken (P Q : Z → Prop) (t : tree) :
  (∀ x, P x → Q x) → all_keys P t → all_keys Q t.
Proof.
  intros HPQ. induction t as [|l IHl a k r IHr]; simpl; [done|].
  intros (? & ? & ?). auto.
Qed.

Lemma min_key_least (l : tree) :
  ∀ (r : tree) (a : positive) (k : Z),
    ordered_dup (Node l a k r) →
    min_key k l ≤ k ∧ all_keys (λ x, min_key k l ≤ x) (Node l a k r).
Proof.
  induction l as [|ll IH la lk lr _]; intros r a k (Hlt & Hge & Hol & Hor).
  - simpl. repeat split; [lia.. |]. done.
  - destruct (IH lr la lk Hol) as [Hle Hall].
    destruct Hlt as (_ & Hlk & _). simpl in Hlk.
    change (min_key k (Node ll la lk lr)) with (min_key lk ll).
    split; [lia|]. split; [exact Hall|]. split; [lia|].
    eapply all_keys_weaken; [|exact Hge]. simpl. intros x Hx. lia.
Qed.

Lemma max_key_greatest (r : tree) :
  ∀ (l : tree) (a : positive) (k : Z),
    ordered_dup (Node l a k r) →
    k ≤ max_key k r ∧ all_keys (λ x, x ≤ max_key k r) (Node l a k r).
Proof.
  induction r as [|rl _ ra rk rr IH]; intros l a k (Hlt & Hge & Hol & Hor).
  - simpl. repeat split; [lia| |lia].
    eapply all_keys_weaken; [|exact Hlt]. simpl. intros x Hx. lia.
  - destruct (IH rl ra rk Hor) as [Hle Hall].
    destruct Hge as (_ & Hrk & _). simpl in Hrk.
    change (max_key k (Node rl ra rk rr)) with (max_key rk rr).
    split; [lia|]. split; [|split; [lia | exact Hall]].
    eapply all_keys_weaken; [|exact Hlt]. simpl. intros x Hx. lia.
Qed.

Lemma min_key_elem (l r : tree) (a : positive) (k : Z) :
  min_key k l ∈ keys (Node l a k r).
Proof.
  revert r a k. induction l as [|ll IH la lk lr _]; intros r a k.
  - apply keys_node. auto.
  - apply keys_node. left. apply (IH lr la lk).
Qed.

Lemma max_key_elem (l r : tree) (a : positive) (k : Z) :
  max_key k r ∈ keys (Node l a k r).
Proof.
  revert l a k. induction r as [|rl _ ra rk rr IH]; intros l a k.
  - apply keys_node. auto.
  - apply keys_node. right. right. apply (IH rl ra rk).
Qed.

(** X1: on a finite tree in search-tree order (equal keys to the right
    allowed), [search(key)] of a key the tree holds returns a node that
    holds it, in both classes, and changes nothing. *)
Theorem search_finds_present_key (s : state) (t : tree) (k : Z) (fuel : nat) :
  shape (heap s) (root s) t → ordered_dup t → k ∈ keys t →
  (depth t < fuel)%nat →
  ∃ a n, BinarySearchTree.search fuel k s = Ok (Some a, s)
         ∧ AVLTree.search fuel k s = Ok (Some a, s)
         ∧ heap s !! a = Some n ∧ key n = k.
Proof.
  intros Hs Ho Hk Hf.
  destruct (find_present t k Ho Hk) as [a Ha].
  destruct (find_holds_key t _ _ _ _ Hs Ha) as (_ & n & Hn & Hkey).
  exists a, n.
  unfold BinarySearchTree.search, AVLTree.search.
  rewrite !bind_eq. cbn [get_root].
  rewrite (searchNode_find t s (root s) k fuel Hs Hf), Ha. auto.
Qed.

Lemma search_finds_present_key_witness :
  shape (heap tree_20_10_30) (root tree_20_10_30) shape_20_10_30
  ∧ ordered_dup shape_20_10_30
  ∧ (30 ∈ keys shape_20_10_30)
  ∧ ∃ a n, BinarySearchTree.search 3 30 tree_20_10_30
           = Ok (Some a, tree_20_10_30)
           ∧ AVLTree.search 3 30 tree_20_10_30 = Ok (Some a, tree_20_10_30)
           ∧ heap tree_20_10_30 !! a = Some n ∧ key n = 30.
Proof.
  assert (Hs : shape (heap tree_20_10_30) (root tree_20_10_30)
                 shape_20_10_30) by (vm_compute; tauto).
  assert (Ho : ordered_dup shape_20_10_30) by (simpl; lia).
  assert (Hk : 30 ∈ keys shape_20_10_30).
  { simpl. rewrite !elem_of_cons. auto. }
  split; [exact Hs|]. split; [exact Ho|]. split; [exact Hk|].
  apply (search_finds_present_key tree_20_10_30 shape_20_10_30 30 3 Hs Ho Hk).
  simpl. lia.
Defined.

(** X2: on every finite tree, ordered or not, [search(key)] returns
    without a fault and without changing anything, and what it returns is
    null or a node of the tree that holds the key. *)
Theorem search_returns_null_or_holder (s : state) (t : tree) (k : Z)
    (fuel : nat) :
  shape (heap s) (root s) t → (depth t < fuel)%nat →
  ∃ p, BinarySearchTree.search fuel k s = Ok (p, s)
       ∧ AVLTree.search fuel k s = Ok (p, s)
       ∧ match p with
         | None => True
         | Some a => k ∈ keys t ∧ ∃ n, heap s !! a = Some n ∧ key n = k
         end.
Proof.
  intros Hs Hf. exists (find t k).
  unfold BinarySearchTree.search, AVLTree.search.
  rewrite !bind_eq. cbn [get_root].
  rewrite (searchNode_find t s (root s) k fuel Hs Hf).
  repeat split. destruct (find t k) as [a|] eqn:Ha; [|exact I].
  exact (find_holds_key t _ _ _ _ Hs Ha).
Qed.

Lemma search_returns_null_or_holder_witness :
  shape (heap chain_10_20_30) (root chain_10_20_30)
    (Node Leaf 1 10 (Node Leaf 2 20 (Node Leaf 3 30 Leaf)))
  ∧ ∃ p, BinarySearchTree.search 4 20 chain_10_20_30 = Ok (p, chain_10_20_30)
         ∧ AVLTree.search 4 20 chain_10_20_30 = Ok (p, chain_10_20_30)
         ∧ match p with
           | None => True
           | Some a =>
               20 ∈ keys (Node Leaf 1 10 (Node Leaf 2 20 (Node Leaf 3 30 Leaf)))
               ∧ ∃ n, heap chain_10_20_30 !! a = Some n ∧ key n = 20
           end.
Proof.
  assert (Hs : shape (heap chain_10_20_30) (root chain_10_20_30)
                 (Node Leaf 1 10 (Node Leaf 2 20 (Node Leaf 3 30 Leaf))))
    by (vm_compute; tauto).
  split; [exact Hs|].
  apply (search_returns_null_or_holder chain_10_20_30 _ 20 4 Hs).
  simpl. lia.
Defined.

(** X3: on a non-empty finite tree [minimum()] returns the end of the
    left spine, a node without left child, and changes nothing; when the
    tree is in search-tree order that node holds the least key. *)
Theorem minimum_is_leftmost (s : state) (l r : tree) (a : positive) (k : Z)
    (fuel : nat) :
  shape (heap s) (root s) (Node l a k r) →
  (depth (Node l a k r) ≤ fuel)%nat →
  ∃ n, BinarySearchTree.minimum fuel s = Ok (Some (min_addr a l), s)
       ∧ heap s !! min_addr a l = Some n ∧ left n = None
       ∧ key n ∈ keys (Node l a k r)
       ∧ (ordered_dup (Node l a k r) →
          ∀ x, x ∈ keys (Node l a k r) → key n ≤ x).
Proof.
  intros Hs Hf.
  destruct (minimumNode_leftmost l r a k s (root s) fuel Hs Hf)
    as (Hmin & n & Hn & Hkey & Hleft).
  exists n. unfold BinarySearchTree.minimum.
  rewrite bind_eq. cbn [get_root]. rewrite Hmin, Hkey.
  repeat split; [done.. | apply min_key_elem |].
  intros Ho x Hx. destruct (min_key_least l r a k Ho) as [_ Hall].
  exact (all_keys_elem _ _ _ Hall Hx).
Qed.

Lemma minimum_is_leftmost_witness :
  shape (heap tree_20_10_30) (root tree_20_10_30) shape_20_10_30
  ∧ ∃ n, BinarySearchTree.minimum 2 tree_20_10_30
         = Ok (Some 2%positive, tree_20_10_30)
         ∧ heap tree_20_10_30 !! 2%positive = Some n ∧ left n = None
         ∧ key n ∈ keys shape_20_10_30
         ∧ (ordered_dup shape_20_10_30 →
            ∀ x, x ∈ keys shape_20_10_30 → key n ≤ x).
Proof.
  assert (Hs : shape (heap tree_20_10_30) (root tree_20_10_30)
                 shape_20_10_30) by (vm_compute; tauto).
  split; [exact Hs|].
  apply (minimum_is_leftmost tree_20_10_30 (Node Leaf 2 10 Leaf)
           (Node Leaf 3 30 Leaf) 1 20 2 Hs).
  simpl. lia.
Defined.

(** X4: on a non-empty finite tree [maximum()] returns the end of the
    right spine, a node without right child, and changes nothing; when
    the tree is in search-tree order that node holds the greatest key. *)
Theorem maximum_is_rightmost (s : state) (l r : tree) (a : positive) (k : Z)
    (fuel : nat) :
  shape (heap s) (root s) (Node l a k r) →
  (depth (Node l a k r) ≤ fuel)%nat →
  ∃ n, BinarySearchTree.maximum fuel s = Ok (Some (max_addr a r), s)
       ∧ heap s !! max_addr a r = Some n ∧ right n = None
       ∧ key n ∈ keys (Node l a k r)
       ∧ (ordered_dup (Node l a k r) →
          ∀ x, x ∈ keys (Node l a k r) → x ≤ key n).
Proof.
  intros Hs Hf.
  destruct (maximumNode_rightmost r l a k s (root s) fuel Hs Hf)
    as (Hmax & n & Hn & Hkey & Hright).
  exists n. unfold BinarySearchTree.maximum.
  rewrite bind_eq. cbn [get_root]. rewrite Hmax, Hkey.
  repeat split; [done.. | apply max_key_elem |].
  intros Ho x Hx. destruct (max_key_greatest r l a k Ho) as [_ Hall].
  exact (all_keys_elem _ _ _ Hall Hx).
Qed.

Lemma maximum_is_rightmost_witness :
  shape (heap tree_20_10_30) (root tree_20_10_30) shape_20_10_30
  ∧ ∃ n, BinarySearchTree.maximum 2 tree_20_10_30
         = Ok (Some 3%positive, tree_20_10_30)
         ∧ heap tree_20_10_30 !! 3%positive = Some n ∧ right n = None
         ∧ key n ∈ keys shape_20_10_30
         ∧ (ordered_dup shape_20_10_30 →
            ∀ x, x ∈ keys shape_20_10_30 → x ≤ key n).
Proof.
  assert (Hs : shape (heap tree_20_10_30) (root tree_20_10_30)
                 shape_20_10_30) by (vm_compute; tauto).
  split; [exact Hs|].
  apply (maximum_is_rightmost tree_20_10_30 (Node Leaf 2 10 Leaf)
           (Node Leaf 3 30 Leaf) 1 20 2 Hs).
  simpl. lia.
Defined.

(** ** successor on a linked, ordered tree *)

Lemma linked_root_key (t : tree) (h : gmap positive BSTNode) (up p : ptr) :
  linked h up p t →
  match t with
  | Leaf => p = None
  | Node _ a k _ => p = Some a ∧ ∃ n, h !! a = Some n ∧ key n = k
  end.
Proof.
  destruct t as [|l a k r]; simpl; [done|].
  intros [-> H]. split; [done|].
  destruct (h !! a) as [n|]; [|contradiction]. exists n. tauto.
Qed.

Lemma find_node (t : tree) :
  ∀ (h : gmap positive BSTNode) (up p : ptr) (k : Z),
    linked h up p t → ordered t → k ∈ keys t →
    ∃ x nx, find t k = Some x ∧ h !! x = Some nx ∧ key nx = k
            ∧ linked h (Some x) (right nx) (rsub t k).
Proof.
  induction t as [|l IHl a ka r IHr]; intros h up p k Hl Ho Hk.
  { apply elem_of_nil in Hk. destruct Hk. }
  destruct Hl as [-> Hl].
  destruct (h !! a) as [n|] eqn:Hn; [|contradiction].
  destruct Hl as (Hkey & Hup & Hll & Hlr).
  destruct Ho as (Hlt & Hgt & Hol & Hor).
  cbn [find rsub]. apply keys_node in Hk.
  case_bool_decide as E.
  - exists a, n. subst. auto.
  - case_bool_decide as E'.
    + destruct Hk as [Hk | [Hk | Hk]]; [|congruence|].
      * exact (IHl h (Some a) (left n) k Hll Hol Hk).
      * pose proof (all_keys_elem _ _ _ Hgt Hk) as Hx. simpl in Hx. lia.
    + destruct Hk as [Hk | [Hk | Hk]]; [|congruence|].
      * pose proof (all_keys_elem _ _ _ Hlt Hk) as Hx. simpl in Hx. lia.
      * exact (IHr h (Some a) (right n) k Hlr Hor Hk).
Qed.

Lemma climb_walk (t : tree) :
  ∀ (s : state) (up p : ptr) (k : Z) (x : positive) (nx : BSTNode),
    linked (heap s) up p t → ordered t →
    find t k = Some x → heap s !! x = Some nx →
    match climb t k with
    | (n, Some (u, ku)) =>
        (∃ nu, heap s !! u = Some nu ∧ key nu = ku)
        ∧ ∀ f, BinarySearchTree.successorNode_loop (n + S f)
                 (Some x) (parent nx) s = Ok (Some u, s)
    | (n, None) =>
        ∀ f, BinarySearchTree.successorNode_loop (n + f)
               (Some x) (parent nx) s
             = BinarySearchTree.successorNode_loop f p up s
    end.
Proof.
  induction t as [|l IHl a ka r IHr]; intros s up p k x nx Hl Ho Hfind Hx;
    [discriminate|].
  destruct Hl as [-> Hl].
  destruct (heap s !! a) as [n|] eqn:Hn; [|contradiction].
  destruct Hl as (Hkey & Hup & Hll & Hlr).
  destruct Ho as (Hlt & Hgt & Hol & Hor).
  cbn [find climb] in *.
  case_bool_decide as E.
  { injection Hfind as <-. rewrite Hn in Hx. injection Hx as <-.
    intros f. rewrite Hup. reflexivity. }
  case_bool_decide as E'.
  - specialize (IHl s (Some a) (left n) k x nx Hll Hol Hfind Hx).
    destruct (climb l k) as [m [[u ku]|]]; [exact IHl|].
    split; [eauto|]. intros f. rewrite IHl.
    destruct l as [|ll al kl lr]; [discriminate|].
    pose proof (linked_root_key _ _ _ _ Hll) as (El & nl & Hnl & Hkl).
    pose proof (linked_root_key _ _ _ _ Hlr) as Hroot.
    destruct Hlt as (_ & Hklt & _). simpl in Hklt.
    assert (Hne : right n ≠ left n).
    { rewrite El. destruct r as [|rl ar kr rr].
      - rewrite Hroot. done.
      - destruct Hroot as (Er & nr & Hnr & Hkr). rewrite Er.
        intros [= ->]. rewrite Hnl in Hnr. injection Hnr as <-.
        destruct Hgt as (_ & Hkgt & _). simpl in Hkgt. lia. }
    cbn [BinarySearchTree.successorNode_loop not_null and_then].
    rewrite bind_eq. mstep Hn. rewrite ret_eq.
    rewrite bool_decide_eq_false_2 by done. reflexivity.
  - specialize (IHr s (Some a) (right n) k x nx Hlr Hor Hfind Hx).
    destruct (climb r k) as [m [[u ku]|]]; [exact IHr|].
    intros f.
    replace (S m + f)%nat with (m + S f)%nat by lia.
    rewrite IHr.
    cbn [BinarySearchTree.successorNode_loop not_null and_then].
    rewrite bind_eq. mstep Hn. rewrite ret_eq.
    rewrite bool_decide_eq_true_2 by done.
    mstep Hn. rewrite Hup. reflexivity.
Qed.

Lemma climb_bound (t : tree) (k : Z) (x : positive) :
  find t k = Some x → ((climb t k).1 < depth t)%nat.
Proof.
  revert x. induction t as [|l IHl a ka r IHr]; intros x Hfind;
    [discriminate|].
  cbn [find climb depth] in *.
  case_bool_decide; [simpl; lia|].
  case_bool_decide.
  - specialize (IHl x Hfind).
    destruct (climb l k) as [m [u|]]; simpl in *; lia.
  - specialize (IHr x Hfind).
    destruct (climb r k) as [m [u|]]; simpl in *; lia.
Qed.

Lemma rsub_depth (t : tree) (k : Z) : (depth (rsub t k) ≤ depth t)%nat.
Proof.
  induction t as [|l IHl a ka r IHr]; cbn [rsub depth]; [lia|].
  repeat case_bool_decide; lia.
Qed.

Lemma succ_node_Node (l r : tree) (a : positive) (ka k : Z) :
  succ_node (Node l a ka r) k =
  if bool_decide (ka = k) then
    match r with
    | Node rl ra rk _ => Some (min_addr ra rl, min_key rk rl)
    | Leaf => None
    end
  else if bool_decide (k < ka) then
    match succ_node l k with
    | Some u => Some u
    | None => Some (a, ka)
    end
  else succ_node r k.
Proof.
  unfold succ_node. cbn [rsub climb].
  case_bool_decide; [by destruct r|].
  case_bool_decide.
  - destruct (rsub l k); [|reflexivity].
    by destruct (climb l k) as [m [u|]].
  - destruct (rsub r k); [|reflexivity].
    by destruct (climb r k) as [m [u|]].
Qed.

Lemma succ_node_least (t : tree) (k : Z) :
  ordered t → k ∈ keys t →
  match succ_node t k with
  | Some (_, z) => k < z ∧ z ∈ keys t ∧ ∀ x, x ∈ keys t → k < x → z ≤ x
  | None => ∀ x, x ∈ keys t → x ≤ k
  end.
Proof.
  induction t as [|l IHl a ka r IHr]; intros Ho Hk.
  { apply elem_of_nil in Hk. destruct Hk. }
  destruct Ho as (Hlt & Hgt & Hol & Hor).
  pose proof (λ x, all_keys_elem _ _ x Hlt) as Hl'.
  pose proof (λ x, all_keys_elem _ _ x Hgt) as Hr'. simpl in Hl', Hr'.
  rewrite succ_node_Node. apply keys_node in Hk.
  case_bool_decide as E.
  - subst ka. destruct r as [|rl ra rk rr].
    + intros x Hx. apply keys_node in Hx as [Hx | [-> | Hx]];
        [apply Hl' in Hx; lia | lia | apply elem_of_nil in Hx; destruct Hx].
    + pose proof (min_key_elem rl rr ra rk) as Hm.
      destruct (min_key_least rl rr ra rk (ordered_ordered_dup _ Hor))
        as [_ Hall].
      split; [apply Hr' in Hm; lia|].
      split; [apply keys_node; auto|].
      intros x Hx Hkx. apply keys_node in Hx as [Hx | [-> | Hx]];
        [apply Hl' in Hx; lia | lia |].
      exact (all_keys_elem _ _ _ Hall Hx).
  - case_bool_decide as E'.
    + destruct Hk as [Hk | [Hk | Hk]];
        [|congruence | apply Hr' in Hk; lia].
      specialize (IHl Hol Hk).
      destruct (succ_node l k) as [[u z]|].
      * destruct IHl as (Hkz & Hz & Hleast).
        split; [done|]. split; [apply keys_node; auto|].
        intros x Hx Hkx. apply keys_node in Hx as [Hx | [-> | Hx]];
          [auto | apply Hl' in Hz; lia
          | apply Hl' in Hz; apply Hr' in Hx; lia].
      * split; [done|]. split; [apply keys_node; auto|].
        intros x Hx Hkx. apply keys_node in Hx as [Hx | [-> | Hx]];
          [apply IHl in Hx; lia | lia | apply Hr' in Hx; lia].
    + destruct Hk as [Hk | [Hk | Hk]];
        [apply Hl' in Hk; lia | congruence |].
      specialize (IHr Hor Hk).
      destruct (succ_node r k) as [[u z]|].
      * destruct IHr as (Hkz & Hz & Hleast).
        split; [done|]. split; [apply keys_node; auto|].
        intros x Hx Hkx. apply keys_node in Hx as [Hx | [-> | Hx]];
          [apply Hl' in Hx; lia | lia | auto].
      * intros x Hx. apply keys_node in Hx as [Hx | [-> | Hx]];
          [apply Hl' in Hx; lia | lia | auto].
Qed.

Lemma successor_succ_node (s : state) (t : tree) (k : Z) (fuel : nat) :
  linked (heap s) None (root s) t → ordered t → k ∈ keys t →
  (depth t < fuel)%nat →
  ∃ x nx, find t k = Some x ∧ heap s !! x = Some nx ∧ key nx = k ∧
    match succ_node t k with
    | Some (u, z) =>
        BinarySearchTree.successor fuel k s = Ok (Some u, s)
        ∧ ∃ nu, heap s !! u = Some nu ∧ key nu = z
    | None => BinarySearchTree.successor fuel k s = Ok (Some x, s)
    end.
Proof.
  intros Hl Ho Hk Hf.
  destruct (find_node t _ _ _ k Hl Ho Hk) as (x & nx & Hfind & Hx & Hkx & Hr).
  exists x, nx. repeat split; [done..|].
  pose proof (climb_walk t s None (root s) k x nx Hl Ho Hfind Hx) as Hc.
  pose proof (climb_bound t k x Hfind) as Hb.
  pose proof (rsub_depth t k) as Hd.
  assert (Hsearch : BinarySearchTree.search fuel k s = Ok (Some x, s)).
  { unfold BinarySearchTree.search. rewrite bind_eq. cbn [get_root].
    rewrite (searchNode_find t s (root s) k fuel (linked_shape _ _ _ _ Hl) Hf).
    by rewrite Hfind. }
  unfold BinarySearchTree.successor. rewrite (bind_ok _ _ _ _ _ Hsearch).
  unfold BinarySearchTree.successorNode. cbn [is_null]. mstep Hx.
  unfold succ_node.
  destruct (rsub t k) as [|rl ra rk rr] eqn:Er.
  - simpl in Hr. rewrite Hr. cbn [not_null]. mstep Hx.
    destruct (climb t k) as [m [[u ku]|]]; simpl in Hb |- *.
    + destruct Hc as [Hu Hloop]. split; [|exact Hu].
      replace fuel with (m + S (fuel - m - 1))%nat by lia.
      rewrite bind_eq, Hloop. reflexivity.
    + replace fuel with (m + S (fuel - m - 1))%nat by lia.
      rewrite bind_eq, Hc. reflexivity.
  - pose proof Hr as [E _]. rewrite E. cbn [not_null]. mstep Hx.
    destruct (minimumNode_leftmost rl rr ra rk s (right nx) fuel
                (linked_shape _ _ _ _ Hr) ltac:(lia))
      as (Hmin & nu & Hnu & Hku & _).
    split; [exact Hmin | eauto].
Qed.

(** X5: in a tree with consistent child and parent links and keys in
    search-tree order, [successor(key)] of a key the tree holds returns,
    without changing anything, the node with the least key greater than
    [key]; for the greatest key it returns the node of that key itself. *)
Theorem successor_is_next_key (s : state) (t : tree) (k : Z) (fuel : nat) :
  linked (heap s) None (root s) t → ordered t → k ∈ keys t →
  (depth t < fuel)%nat →
  ∃ a n, BinarySearchTree.successor fuel k s = Ok (Some a, s)
         ∧ heap s !! a = Some n
         ∧ ((key n = k ∧ ∀ x, x ∈ keys t → x ≤ k)
            ∨ (k < key n ∧ key n ∈ keys t
               ∧ ∀ x, x ∈ keys t → k < x → key n ≤ x)).
Proof.
  intros Hl Ho Hk Hf.
  destruct (successor_succ_node s t k fuel Hl Ho Hk Hf)
    as (x & nx & _ & Hx & Hkx & Hs).
  pose proof (succ_node_least t k Ho Hk) as Hleast.
  destruct (succ_node t k) as [[u z]|].
  - destruct Hs as (Hs & nu & Hnu & Hku).
    exists u, nu. rewrite Hku. auto.
  - exists x, nx. rewrite Hkx. auto.
Qed.

Lemma successor_is_next_key_witness :
  linked (heap tree_20_10_30) None (root tree_20_10_30) shape_20_10_30
  ∧ ordered shape_20_10_30
  ∧ (10 ∈ keys shape_20_10_30)
  ∧ ∃ a n, BinarySearchTree.successor 3 10 tree_20_10_30
           = Ok (Some a, tree_20_10_30)
           ∧ heap tree_20_10_30 !! a = Some n
           ∧ ((key n = 10 ∧ ∀ x, x ∈ keys shape_20_10_30 → x ≤ 10)
              ∨ (10 < key n ∧ key n ∈ keys shape_20_10_30
                 ∧ ∀ x, x ∈ keys shape_20_10_30 → 10 < x → key n ≤ x)).
Proof.
  assert (Hl : linked (heap tree_20_10_30) None (root tree_20_10_30)
                 shape_20_10_30) by (vm_compute; tauto).
  assert (Ho : ordered shape_20_10_30) by (simpl; lia).
  assert (Hk : 10 ∈ keys shape_20_10_30).
  { simpl. rewrite !elem_of_cons. auto. }
  split; [exact Hl|]. split; [exact Ho|]. split; [exact Hk|].
  apply (successor_is_next_key tree_20_10_30 shape_20_10_30 10 3 Hl Ho Hk).
  simpl. lia.
Defined.

(** ** BinarySearchTree::insert on a well-formed tree *)

Lemma update_ok (s : state) (a : positive) (n : BSTNode)
    (f : BSTNode → BSTNode) :
  heap s !! a = Some n →
  update (Some a) f s
  = Ok (tt, mkState (<[a := f n]> (heap s)) (root s) (next s)).
Proof. intros Hn. unfold update. rewrite Hn. reflexivity. Qed.

Lemma linked_frame (t : tree) :
  ∀ (h h' : gmap positive BSTNode) (up p : ptr),
    linked h up p t → (∀ a, a ∈ addrs t → h' !! a = h !! a) →
    linked h' up p t.
Proof.
  induction t as [|l IHl a k r IHr]; intros h h' up p Hl Hfr; [exact Hl|].
  destruct Hl as [-> Hl]. split; [done|].
  rewrite (Hfr a) by (simpl; rewrite elem_of_app, elem_of_cons; auto).
  destruct (h !! a) as [n|]; [|done].
  destruct Hl as (Hk & Hup & Hll & Hlr). repeat split; [done..| |].
  - apply (IHl h); [done|]. intros b Hb. apply Hfr.
    simpl. rewrite elem_of_app. auto.
  - apply (IHr h); [done|]. intros b Hb. apply Hfr.
    simpl. rewrite elem_of_app, elem_of_cons. auto.
Qed.

Lemma addrs_BST_ins (t : tree) (k : Z) (a' : positive) :
  addrs (BST_ins t k a') ≡ₚ a' :: addrs t.
Proof.
  induction t as [|l IHl a ka r IHr]; simpl; [done|].
  case_bool_decide; simpl.
  - by rewrite IHl.
  - rewrite IHr. rewrite <- !Permutation_middle. apply perm_swap.
Qed.

Lemma keys_BST_ins (t : tree) (k : Z) (a' : positive) :
  keys (BST_ins t k a') ≡ₚ k :: keys t.
Proof.
  induction t as [|l IHl a ka r IHr]; simpl; [done|].
  case_bool_decide; simpl.
  - by rewrite IHl.
  - rewrite IHr. rewrite <- !Permutation_middle. apply perm_swap.
Qed.

Lemma all_keys_BST_ins (P : Z → Prop) (t : tree) (k : Z) (a' : positive) :
  P k → all_keys P t → all_keys P (BST_ins t k a').
Proof.
  intros Hk. induction t as [|l IHl a ka r IHr]; simpl; [done|].
  intros (? & ? & ?). case_bool_decide; simpl; auto.
Qed.

Lemma ordered_dup_BST_ins (t : tree) (k : Z) (a' : positive) :
  ordered_dup t → ordered_dup (BST_ins t k a').
Proof.
  induction t as [|l IHl a ka r IHr]; simpl; [done|].
  intros (Hlt & Hge & Hol & Hor). case_bool_decide; simpl.
  - repeat split; auto. by apply all_keys_BST_ins.
  - repeat split; auto. apply all_keys_BST_ins; [lia | done].
Qed.

Lemma ordered_BST_ins (t : tree) (k : Z) (a' : positive) :
  ordered t → k ∉ keys t → ordered (BST_ins t k a').
Proof.
  induction t as [|l IHl a ka r IHr]; simpl; [done|].
  intros (Hlt & Hgt & Hol & Hor) Hk.
  rewrite elem_of_app, elem_of_cons in Hk.
  case_bool_decide; simpl.
  - split; [by apply all_keys_BST_ins|]. split; [done|].
    split; [apply IHl; tauto | done].
  - split; [done|]. split; [|split; [done | apply IHr; tauto]].
    apply all_keys_BST_ins; [|done].
    assert (k ≠ ka) by (intros ->; tauto). lia.
Qed.

Lemma depth_BST_ins (t : tree) (k : Z) (a' : positive) :
  (depth (BST_ins t k a') ≤ S (depth t))%nat.
Proof.
  induction t as [|l IHl a ka r IHr]; simpl; [lia|].
  case_bool_decide; simpl; lia.
Qed.

Lemma root_ptr_BST_ins (t : tree) (k : Z) (a' : positive) :
  root_ptr (BST_ins t k a')
  = match t with Leaf => Some a' | Node _ a _ _ => Some a end.
Proof. destruct t; simpl; [done|]. by case_bool_decide. Qed.

Lemma linked_root_ptr (t : tree) (h : gmap positive BSTNode) (up p : ptr) :
  linked h up p t → p = root_ptr t.
Proof. destruct t; simpl; [done|]. by intros [-> _]. Qed.

Lemma BST_insertNode_effect (t : tree) :
  ∀ (s : state) (up p : ptr) (k : Z) (fuel : nat),
    linked (heap s) up p t → NoDup (addrs t) →
    Forall (λ a, (a < next s)%positive) (addrs t) →
    root s ≠ None → (depth t < fuel)%nat →
    ∃ s', BinarySearchTree.insertNode fuel p k up s
          = Ok (root_ptr (BST_ins t k (next s)), s')
          ∧ linked (heap s') up (root_ptr (BST_ins t k (next s)))
              (BST_ins t k (next s))
          ∧ root s' = root s ∧ next s' = Pos.succ (next s)
          ∧ ∀ b, b ∉ addrs t → b ≠ next s → heap s' !! b = heap s !! b.
Proof.
  induction t as [|l IHl a ka r IHr]; intros s up p k fuel Hl Hnd Hfr Hroot Hf;
    (destruct fuel as [|fuel]; [lia|]).
  - simpl in Hl. subst p.
    destruct (root s) as [rt|] eqn:Ert; [|done].
    eexists. split.
    { cbn [BinarySearchTree.insertNode is_null].
      unfold new_BSTNode. run_heap. rewrite Ert. run_heap. reflexivity. }
    cbn [heap root next BST_ins root_ptr linked].
    rewrite lookup_insert_eq. repeat split.
    intros b _ Hb. by rewrite !lookup_insert_ne.
  - destruct Hl as [-> Hl].
    destruct (heap s !! a) as [n|] eqn:Hn; [|contradiction].
    destruct Hl as (Hkey & Hup & Hll & Hlr).
    simpl in Hnd, Hfr, Hf.
    apply NoDup_app in Hnd as (Hndl & Hdisj & Hndr).
    apply NoDup_cons in Hndr as [Har Hndr].
    apply Forall_app in Hfr as [Hfrl Hfrr].
    apply Forall_cons in Hfrr as [Hfra Hfrr].
    assert (Hal : a ∉ addrs l).
    { intros Hin. apply (Hdisj a Hin). apply list_elem_of_here. }
    cbn [BinarySearchTree.insertNode is_null BST_ins].
    mstep Hn. rewrite Hkey.
    case_bool_decide as Hlt.
    + destruct (IHl s (Some a) (left n) k fuel Hll Hndl Hfrl Hroot ltac:(lia))
        as (s1 & Hins & Hl1 & Hroot1 & Hnext1 & Hframe1).
      assert (Hn1 : heap s1 !! a = Some n).
      { rewrite Hframe1; [done | done | lia]. }
      set (s2 := mkState (<[a := with_left (root_ptr (BST_ins l k (next s))) n]>
                            (heap s1)) (root s1) (next s1)).
      assert (Hn2 : heap s2 !! a
                    = Some (with_left (root_ptr (BST_ins l k (next s))) n))
        by apply lookup_insert_eq.
      assert (Ha' : a ∉ addrs (BST_ins l k (next s))).
      { rewrite addrs_BST_ins, not_elem_of_cons. split; [lia | done]. }
      assert (Hl2 : linked (heap s2) (Some a) (root_ptr (BST_ins l k (next s)))
                      (BST_ins l k (next s))).
      { apply (linked_frame _ (heap s1)); [done|].
        intros b Hb. apply lookup_insert_ne. intros ->. done. }
      assert (Hrun : ∃ al' nl', root_ptr (BST_ins l k (next s)) = Some al'
                       ∧ heap s2 !! al' = Some nl' ∧ parent nl' = Some a).
      { destruct (BST_ins l k (next s)) as [|l' al' kl' r'] eqn:El';
          [by destruct l; simpl in El'; try case_bool_decide|].
        pose proof (linked_root_key _ _ _ _ Hl2) as (_ & nl' & Hnl' & _).
        exists al', nl'. repeat split; [done|].
        destruct Hl2 as [_ Hl2]. rewrite Hnl' in Hl2. tauto. }
      destruct Hrun as (al' & nl' & Eroot & Hnl' & Hpl').
      exists s2. split.
      { rewrite bind_eq. mstep Hn. rewrite (bind_ok _ _ _ _ _ Hins).
        unfold set_left. rewrite (bind_ok _ _ _ _ _ (update_ok _ _ _ _ Hn1)).
        fold s2. mstep Hn2. cbn [with_left left]. rewrite Eroot.
        unfold set_parent.
        rewrite (update_id _ _ _ (with_parent (Some a)) Hnl'
                   ltac:(by destruct nl'; simpl in *; subst)).
        reflexivity. }
      split; [|split; [done|split; [done|]]].
      * split; [done|]. rewrite Hn2. cbn [with_left key parent left right].
        repeat split; [done..|].
        apply (linked_frame _ (heap s)); [done|].
        intros b Hb. unfold s2. cbn [heap].
        rewrite lookup_insert_ne by (intros ->; done).
        apply Hframe1.
        -- intros Hbl. apply (Hdisj b Hbl). by apply list_elem_of_further.
        -- rewrite Forall_forall in Hfrr. specialize (Hfrr b Hb). lia.
      * intros b Hb Hbn. unfold s2. cbn [heap].
        simpl in Hb. rewrite elem_of_app, elem_of_cons in Hb.
        rewrite lookup_insert_ne by (intros ->; tauto).
        apply Hframe1; [tauto | done].
    + destruct (IHr s (Some a) (right n) k fuel Hlr Hndr Hfrr Hroot ltac:(lia))
        as (s1 & Hins & Hl1 & Hroot1 & Hnext1 & Hframe1).
      assert (Hn1 : heap s1 !! a = Some n).
      { rewrite Hframe1; [done | done | lia]. }
      set (s2 := mkState (<[a := with_right (root_ptr (BST_ins r k (next s))) n]>
                            (heap s1)) (root s1) (next s1)).
      assert (Hn2 : heap s2 !! a
                    = Some (with_right (root_ptr (BST_ins r k (next s))) n))
        by apply lookup_insert_eq.
      assert (Ha' : a ∉ addrs (BST_ins r k (next s))).
      { rewrite addrs_BST_ins, not_elem_of_cons. split; [lia | done]. }
      assert (Hl2 : linked (heap s2) (Some a) (root_ptr (BST_ins r k (next s)))
                      (BST_ins r k (next s))).
      { apply (linked_frame _ (heap s1)); [done|].
        intros b Hb. apply lookup_insert_ne. intros ->. done. }
      assert (Hrun : ∃ ar' nr', root_ptr (BST_ins r k (next s)) = Some ar'
                       ∧ heap s2 !! ar' = Some nr' ∧ parent nr' = Some a).
      { destruct (BST_ins r k (next s)) as [|l' ar' kl' r'] eqn:Er';
          [by destruct r; simpl in Er'; try case_bool_decide|].
        pose proof (linked_root_key _ _ _ _ Hl2) as (_ & nr' & Hnl' & _).
        exists ar', nr'. repeat split; [done|].
        destruct Hl2 as [_ Hl2]. rewrite Hnl' in Hl2. tauto. }
      destruct Hrun as (ar' & nr' & Eroot & Hnl' & Hpr').
      exists s2. split.
      { rewrite bind_eq. mstep Hn. rewrite (bind_ok _ _ _ _ _ Hins).
        unfold set_right. rewrite (bind_ok _ _ _ _ _ (update_ok _ _ _ _ Hn1)).
        fold s2. mstep Hn2. cbn [with_right right]. rewrite Eroot.
        unfold set_parent.
        rewrite (update_id _ _ _ (with_parent (Some a)) Hnl'
                   ltac:(by destruct nr'; simpl in *; subst)).
        reflexivity. }
      split; [|split; [done|split; [done|]]].
      * split; [done|]. rewrite Hn2. cbn [with_right key parent left right].
        repeat split; [done..| |done].
        apply (linked_frame _ (heap s)); [done|].
        intros b Hb. unfold s2. cbn [heap].
        rewrite lookup_insert_ne by (intros ->; done).
        apply Hframe1.
        -- intros Hbr. apply (Hdisj b Hb). by apply list_elem_of_further.
        -- rewrite Forall_forall in Hfrl. specialize (Hfrl b Hb). lia.
      * intros b Hb Hbn. unfold s2. cbn [heap].
        simpl in Hb. rewrite elem_of_app, elem_of_cons in Hb.
        rewrite lookup_insert_ne by (intros ->; tauto).
        apply Hframe1; [tauto | done].
Qed.

Lemma tree_at_BST_ins (s s' : state) (t : tree) (k : Z) :
  tree_at s t →
  linked (heap s') None (root s') (BST_ins t k (next s)) →
  next s' = Pos.succ (next s) →
  tree_at s' (BST_ins t k (next s)).
Proof.
  intros (_ & Hnd & Hfr) Hl Hnext. split; [exact Hl|].
  rewrite Forall_forall in Hfr.
  rewrite addrs_BST_ins, Hnext. split.
  - apply NoDup_cons. split; [|done].
    intros Hin. specialize (Hfr _ Hin). lia.
  - apply Forall_cons. split; [lia|].
    apply Forall_forall. intros a Ha. specialize (Hfr a Ha). lia.
Qed.

Lemma BST_insert_effect (s : state) (t : tree) (k : Z) (fuel : nat) :
  tree_at s t → (depth t < fuel)%nat →
  ∃ s', BinarySearchTree.insert fuel k s = Ok (tt, s')
        ∧ tree_at s' (BST_ins t k (next s))
        ∧ next s' = Pos.succ (next s)
        ∧ ∀ b, b ∉ addrs t → b ≠ next s → heap s' !! b = heap s !! b.
Proof.
  intros Ht Hf. pose proof Ht as (Hl & Hnd & Hfr).
  unfold BinarySearchTree.insert. rewrite bind_eq. cbn [get_root].
  destruct t as [|l a ka r].
  - simpl in Hl. destruct fuel as [|fuel]; [lia|].
    eexists. split.
    { cbn [BinarySearchTree.insertNode]. rewrite Hl. cbn [is_null].
      unfold new_BSTNode. run_heap. rewrite Hl. run_heap. reflexivity. }
    split; [|split; [reflexivity|]].
    + apply (tree_at_BST_ins s); [done | | reflexivity].
      cbn [heap root BST_ins linked]. rewrite lookup_insert_eq. done.
    + intros b _ Hb. cbn [heap]. by rewrite !lookup_insert_ne.
  - pose proof Hl as [Eroot _].
    assert (Hroot : root s ≠ None) by (rewrite Eroot; done).
    destruct (BST_insertNode_effect _ s None (root s) k fuel Hl Hnd Hfr Hroot Hf)
      as (s1 & Hins & Hl1 & Hroot1 & Hnext1 & Hframe1).
    rewrite (bind_ok _ _ _ _ _ Hins).
    eexists. split; [reflexivity|].
    split; [|split; [exact Hnext1 | exact Hframe1]].
    apply (tree_at_BST_ins s); [done | exact Hl1 | exact Hnext1].
Qed.

Lemma search_in_tree_at (s : state) (t : tree) (fuel : nat) (k : Z) :
  tree_at s t → ordered_dup t → (depth t < fuel)%nat →
  (k ∈ keys t →
   ∃ a n, BinarySearchTree.search fuel k s = Ok (Some a, s)
          ∧ heap s !! a = Some n ∧ key n = k)
  ∧ (k ∉ keys t → BinarySearchTree.search fuel k s = Ok (None, s)).
Proof.
  intros (Hl & _ & _) Ho Hf.
  pose proof (linked_shape _ _ _ _ Hl) as Hs.
  assert (Hsearch : BinarySearchTree.search fuel k s = Ok (find t k, s)).
  { unfold BinarySearchTree.search. rewrite bind_eq. cbn [get_root].
    exact (searchNode_find t s (root s) k fuel Hs Hf). }
  rewrite Hsearch. split.
  - intros Hk. destruct (find_present t k Ho Hk) as [a Ha].
    destruct (find_holds_key t _ _ _ _ Hs Ha) as (_ & n & Hn & Hkey).
    exists a, n. rewrite Ha. auto.
  - intros Hk. destruct (find t k) as [a|] eqn:Ha; [|done].
    destruct (find_holds_key t _ _ _ _ Hs Ha) as (Hin & _). done.
Qed.

(** X6: [BinarySearchTree::insert] on a well-formed tree returns with a
    well-formed tree again: one node more, links consistent, the keys
    are the old ones and [key] once more, equal keys sit to the right,
    strict order is kept when [key] is new, the depth grows by at most
    one and no node outside the tree is touched. *)
Theorem BST_insert_keeps_tree (s : state) (t : tree) (k : Z) (fuel : nat) :
  tree_at s t → (depth t < fuel)%nat →
  ∃ s' t', BinarySearchTree.insert fuel k s = Ok (tt, s')
           ∧ tree_at s' t'
           ∧ keys t' ≡ₚ k :: keys t
           ∧ addrs t' ≡ₚ next s :: addrs t
           ∧ (depth t' ≤ S (depth t))%nat
           ∧ (ordered_dup t → ordered_dup t')
           ∧ (ordered t → k ∉ keys t → ordered t')
           ∧ ∀ b, b ∉ addrs t → b ≠ next s → heap s' !! b = heap s !! b.
Proof.
  intros Ht Hf.
  destruct (BST_insert_effect s t k fuel Ht Hf) as (s' & Hins & Ht' & _ & Hfr).
  exists s', (BST_ins t k (next s)).
  split; [exact Hins|]. split; [exact Ht'|].
  split; [apply keys_BST_ins|]. split; [apply addrs_BST_ins|].
  split; [apply depth_BST_ins|]. split; [apply ordered_dup_BST_ins|].
  split; [apply ordered_BST_ins | exact Hfr].
Qed.

(** X7: after [BinarySearchTree::insert(key)] on a well-formed tree in
    search-tree order, [search] finds [key] and every key the tree held
    before, and reports every other key absent. *)
Theorem BST_search_after_insert (s : state) (t : tree) (k : Z) (fuel : nat) :
  tree_at s t → ordered_dup t → (S (depth t) < fuel)%nat →
  ∃ s', BinarySearchTree.insert fuel k s = Ok (tt, s')
        ∧ ∀ k',
            (k' = k ∨ k' ∈ keys t →
             ∃ a n, BinarySearchTree.search fuel k' s' = Ok (Some a, s')
                    ∧ heap s' !! a = Some n ∧ key n = k')
            ∧ (k' ≠ k → k' ∉ keys t →
               BinarySearchTree.search fuel k' s' = Ok (None, s')).
Proof.
  intros Ht Ho Hf.
  destruct (BST_insert_effect s t k fuel Ht ltac:(lia))
    as (s' & Hins & Ht' & _ & _).
  exists s'. split; [exact Hins|]. intros k'.
  pose proof (depth_BST_ins t k (next s)) as Hd.
  destruct (search_in_tree_at s' _ fuel k' Ht'
              (ordered_dup_BST_ins t k (next s) Ho) ltac:(lia))
    as [Hin Hout].
  split.
  - intros Hk. apply Hin. rewrite keys_BST_ins, elem_of_cons. exact Hk.
  - intros Hne Hk. apply Hout. rewrite keys_BST_ins, elem_of_cons. tauto.
Qed.

Lemma BST_run_inserts (list : list Z) :
  ∀ (s : state) (t : tree) (fuel : nat),
    tree_at s t → ordered_dup t → (depth t + length list < fuel)%nat →
    ∃ s' t', run (BST_apply fuel) (Insert <$> list) s = Ok (tt, s')
             ∧ tree_at s' t' ∧ ordered_dup t'
             ∧ keys t' ≡ₚ keys t ++ list
             ∧ (depth t' ≤ depth t + length list)%nat.
Proof.
  induction list as [|k list IH]; intros s t fuel Ht Ho Hf.
  - exists s, t. rewrite app_nil_r. simpl.
    split; [reflexivity|]. split; [exact Ht|]. split; [exact Ho|].
    split; [done | lia].
  - simpl in Hf.
    destruct (BST_insert_effect s t k fuel Ht ltac:(lia))
      as (s1 & Hins & Ht1 & _ & _).
    pose proof (depth_BST_ins t k (next s)) as Hd.
    destruct (IH s1 _ fuel Ht1 (ordered_dup_BST_ins t k (next s) Ho)
                ltac:(lia)) as (s' & t' & Hrun & Ht' & Ho' & Hkeys & Hd').
    exists s', t'. cbn [fmap list_fmap run BST_apply].
    rewrite (bind_ok _ _ _ _ _ Hins). split; [exact Hrun|].
    split; [exact Ht'|]. split; [exact Ho'|]. split; [|simpl; lia].
    rewrite Hkeys, keys_BST_ins. by rewrite <- Permutation_middle.
Qed.

(** X8: the constructor from a list of keys builds a well-formed tree in
    search-tree order whose keys are exactly the listed ones, repeats
    included; [search] then finds every listed key and no other. *)
Theorem BST_ctor_holds_the_list (s : state) (list : list Z) (fuel : nat) :
  (S (length list) < fuel)%nat →
  ∃ s' t, BinarySearchTree_ctor fuel list s = Ok (tt, s')
          ∧ tree_at s' t ∧ ordered_dup t ∧ keys t ≡ₚ list
          ∧ ∀ k,
              (k ∈ list →
               ∃ a n, BinarySearchTree.search fuel k s' = Ok (Some a, s')
                      ∧ heap s' !! a = Some n ∧ key n = k)
              ∧ (k ∉ list → BinarySearchTree.search fuel k s' = Ok (None, s')).
Proof.
  intros Hf. unfold BinarySearchTree_ctor. rewrite bind_eq.
  cbn [set_root].
  assert (Ht0 : tree_at (mkState (heap s) None (next s)) Leaf).
  { split; [reflexivity|]. split; [apply NoDup_nil_2 | apply Forall_nil_2]. }
  destruct (BST_run_inserts list _ Leaf fuel Ht0 I ltac:(simpl; lia))
    as (s' & t & Hrun & Ht & Ho & Hkeys & Hd).
  exists s', t. split; [exact Hrun|]. simpl in Hkeys, Hd.
  split; [exact Ht|]. split; [exact Ho|]. split; [exact Hkeys|].
  intros k.
  destruct (search_in_tree_at s' t fuel k Ht Ho ltac:(lia)) as [Hin Hout].
  rewrite <- Hkeys. auto.
Qed.

(** X9: assignment from a list of keys does not empty the tree first:
    it inserts the listed keys into the tree as it is, so the result
    holds the old keys and the listed ones. *)
Theorem BST_assign_keeps_old_keys (s : state) (t : tree) (list : list Z)
    (fuel : nat) :
  tree_at s t → ordered_dup t → (depth t + length list < fuel)%nat →
  ∃ s' t', BinarySearchTree_assign fuel list s = Ok (tt, s')
           ∧ tree_at s' t' ∧ ordered_dup t'
           ∧ keys t' ≡ₚ keys t ++ list.
Proof.
  intros Ht Ho Hf.
  destruct (BST_run_inserts list s t fuel Ht Ho Hf)
    as (s' & t' & Hrun & Ht' & Ho' & Hkeys & _).
  exists s', t'. auto.
Qed.

Lemma tree_at_20_10_30 : tree_at tree_20_10_30 shape_20_10_30.
Proof.
  split; [vm_compute; tauto|]. split.
  - simpl. repeat (apply NoDup_cons; split;
                   [rewrite ?elem_of_cons, elem_of_nil; intuition discriminate|]).
    apply NoDup_nil_2.
  - simpl. repeat (apply Forall_cons; split; [reflexivity|]).
    apply Forall_nil_2.
Qed.

Lemma ordered_dup_20_10_30 : ordered_dup shape_20_10_30.
Proof. simpl. lia. Qed.

Lemma BST_insert_keeps_tree_witness :
  tree_at tree_20_10_30 shape_20_10_30
  ∧ ∃ s' t', BinarySearchTree.insert 3 25 tree_20_10_30 = Ok (tt, s')
             ∧ tree_at s' t'
             ∧ keys t' ≡ₚ 25 :: keys shape_20_10_30
             ∧ addrs t' ≡ₚ next tree_20_10_30 :: addrs shape_20_10_30
             ∧ (depth t' ≤ S (depth shape_20_10_30))%nat
             ∧ (ordered_dup shape_20_10_30 → ordered_dup t')
             ∧ (ordered shape_20_10_30 → 25 ∉ keys shape_20_10_30 → ordered t')
             ∧ ∀ b, b ∉ addrs shape_20_10_30 → b ≠ next tree_20_10_30 →
                    heap s' !! b = heap tree_20_10_30 !! b.
Proof.
  split; [exact tree_at_20_10_30|].
  apply (BST_insert_keeps_tree tree_20_10_30 shape_20_10_30 25 3
           tree_at_20_10_30).
  simpl. lia.
Defined.

Lemma BST_search_after_insert_witness :
  tree_at tree_20_10_30 shape_20_10_30
  ∧ ordered_dup shape_20_10_30
  ∧ ∃ s', BinarySearchTree.insert 4 25 tree_20_10_30 = Ok (tt, s')
          ∧ ∀ k',
              (k' = 25 ∨ k' ∈ keys shape_20_10_30 →
               ∃ a n, BinarySearchTree.search 4 k' s' = Ok (Some a, s')
                      ∧ heap s' !! a = Some n ∧ key n = k')
              ∧ (k' ≠ 25 → k' ∉ keys shape_20_10_30 →
                 BinarySearchTree.search 4 k' s' = Ok (None, s')).
Proof.
  split; [exact tree_at_20_10_30|]. split; [exact ordered_dup_20_10_30|].
  apply (BST_search_after_insert tree_20_10_30 shape_20_10_30 25 4
           tree_at_20_10_30 ordered_dup_20_10_30).
  simpl. lia.
Defined.

Lemma BST_ctor_holds_the_list_witness :
  (S (length [20; 10; 30; 10]) < 6)%nat
  ∧ ∃ s' t, BinarySearchTree_ctor 6 [20; 10; 30; 10] chain_10_20_30
            = Ok (tt, s')
            ∧ tree_at s' t ∧ ordered_dup t ∧ keys t ≡ₚ [20; 10; 30; 10]
            ∧ ∀ k,
                (k ∈ [20; 10; 30; 10] →
                 ∃ a n, BinarySearchTree.search 6 k s' = Ok (Some a, s')
                        ∧ heap s' !! a = Some n ∧ key n = k)
                ∧ (k ∉ [20; 10; 30; 10] →
                   BinarySearchTree.search 6 k s' = Ok (None, s')).
Proof.
  split; [simpl; lia|].
  apply (BST_ctor_holds_the_list chain_10_20_30 [20; 10; 30; 10] 6).
  simpl. lia.
Defined.

Lemma BST_assign_keeps_old_keys_witness :
  tree_at tree_20_10_30 shape_20_10_30
  ∧ ordered_dup shape_20_10_30
  ∧ ∃ s' t', BinarySearchTree_assign 5 [5; 40] tree_20_10_30 = Ok (tt, s')
             ∧ tree_at s' t' ∧ ordered_dup t'
             ∧ keys t' ≡ₚ keys shape_20_10_30 ++ [5; 40].
Proof.
  split; [exact tree_at_20_10_30|]. split; [exact ordered_dup_20_10_30|].
  apply (BST_assign_keeps_old_keys tree_20_10_30 shape_20_10_30 [5; 40] 5
           tree_at_20_10_30 ordered_dup_20_10_30).
  simpl. lia.
Defined.

(** ** balance, remove of a missing key, the rotations *)

Lemma balance_within_one (s : state) (node : ptr) (k b : Z) :
  BinarySearchTree.getBalance node s = Ok (b, s) → -1 ≤ b ≤ 1 →
  AVLTree.balance node k s = Ok (node, s).
Proof.
  intros Hb Hle. unfold AVLTree.balance. rewrite (bind_ok _ _ _ _ _ Hb).
  rewrite (bool_decide_eq_false_2 (b > 1)) by lia.
  rewrite (bool_decide_eq_false_2 (b < -1)) by lia.
  cbn [and_then]. rewrite !(bind_ok _ _ _ _ _ (ret_eq false s)).
  reflexivity.
Qed.

Lemma getHeight_live (s : state) (p : ptr) :
  p = None ∨ (∃ a n, p = Some a ∧ heap s !! a = Some n) →
  BinarySearchTree.getHeight p s = Ok (cached_height s p, s).
Proof.
  intros [-> | (a & n & -> & Hn)]; [reflexivity|].
  unfold BinarySearchTree.getHeight, cached_height. cbn [not_null].
  rewrite (get_height_ok _ _ _ Hn), Hn. reflexivity.
Qed.

(** X10: at a node whose children are null or live and whose cached
    child heights differ by at most one, [balance(node, key)] returns
    the node and changes nothing, whatever the key. *)
Theorem balance_leaves_balanced_node (s : state) (a : positive) (n : BSTNode)
    (k : Z) :
  heap s !! a = Some n →
  (left n = None ∨ ∃ b m, left n = Some b ∧ heap s !! b = Some m) →
  (right n = None ∨ ∃ b m, right n = Some b ∧ heap s !! b = Some m) →
  Z.abs (cached_height s (left n) - cached_height s (right n)) ≤ 1 →
  AVLTree.balance (Some a) k s = Ok (Some a, s).
Proof.
  intros Hn Hl Hr Hb.
  apply (balance_within_one s (Some a) k
           (cached_height s (left n) - cached_height s (right n))); [|lia].
  unfold BinarySearchTree.getBalance. cbn [not_null].
  mstep Hn. rewrite (bind_ok _ _ _ _ _ (getHeight_live s _ Hl)).
  mstep Hn. rewrite (bind_ok _ _ _ _ _ (getHeight_live s _ Hr)).
  reflexivity.
Qed.

Lemma balance_leaves_balanced_node_witness :
  heap tree_20_10_30 !! 1%positive
  = Some (mkNode 20 2 (Some 2%positive) (Some 3%positive) None)
  ∧ AVLTree.balance (Some 1%positive) 99 tree_20_10_30
    = Ok (Some 1%positive, tree_20_10_30).
Proof.
  split; [reflexivity|].
  apply (balance_leaves_balanced_node tree_20_10_30 1%positive
           (mkNode 20 2 (Some 2%positive) (Some 3%positive) None) 99).
  - reflexivity.
  - right. exists 2%positive, (mkNode 10 1 None None (Some 1%positive)).
    split; reflexivity.
  - right. exists 3%positive, (mkNode 30 1 None None (Some 1%positive)).
    split; reflexivity.
  - vm_compute. discriminate.
Defined.

(** X11: on every finite tree that does not hold [key],
    [AVLTree::remove(key)] returns without a fault and changes nothing. *)
Theorem AVL_remove_of_missing_key (s : state) (t : tree) (k : Z) (fuel : nat) :
  shape (heap s) (root s) t → k ∉ keys t → (depth t < fuel)%nat →
  AVLTree.remove fuel k s = Ok (tt, s).
Proof.
  intros Hs Hk Hf. apply AVL_remove_missing_is_noop.
  exact (searchNode_absent t s (root s) k fuel Hs Hk Hf).
Qed.

Lemma AVL_remove_of_missing_key_witness :
  shape (heap tree_20_10_30) (root tree_20_10_30) shape_20_10_30
  ∧ (15 ∉ keys shape_20_10_30)
  ∧ AVLTree.remove 3 15 tree_20_10_30 = Ok (tt, tree_20_10_30).
Proof.
  assert (Hs : shape (heap tree_20_10_30) (root tree_20_10_30)
                 shape_20_10_30) by (vm_compute; tauto).
  assert (Hk : 15 ∉ keys shape_20_10_30).
  { simpl. rewrite !elem_of_cons, elem_of_nil. lia. }
  split; [exact Hs|]. split; [exact Hk|].
  apply (AVL_remove_of_missing_key tree_20_10_30 shape_20_10_30 15 3 Hs Hk).
  simpl. lia.
Defined.

Lemma rotateLeft_keeps_pivot_links_witness :
  heap zigzag_10_30_20 !! 1%positive
  = Some (mkNode 10 3 None (Some 2%positive) None)
  ∧ heap zigzag_10_30_20 !! 2%positive
    = Some (mkNode 30 2 (Some 3%positive) None (Some 1%positive))
  ∧ ∃ s', BinarySearchTree.rotateLeft (Some 1%positive) zigzag_10_30_20
          = Ok (Some 2%positive, s')
          ∧ root s' = root zigzag_10_30_20
          ∧ heap s' !! 2%positive
            = Some (mkNode 30
                      (Z.max (cached_height zigzag_10_30_20 (Some 3%positive))
                             (cached_height zigzag_10_30_20 None) + 1)
                      (Some 3%positive) None (Some 1%positive))
          ∧ heap s' !! 1%positive
            = Some (mkNode 10
                      (Z.max (cached_height zigzag_10_30_20 None) 2 + 1)
                      None (Some 2%positive) (Some 2%positive)).
Proof.
  split; [reflexivity|]. split; [reflexivity|].
  apply (rotateLeft_keeps_pivot_links zigzag_10_30_20 1%positive 2%positive
           (mkNode 10 3 None (Some 2%positive) None)
           (mkNode 30 2 (Some 3%positive) None (Some 1%positive))).
  - reflexivity.
  - reflexivity.
  - reflexivity.
  - reflexivity.
  - discriminate.
  - exact I.
  - simpl. repeat split; [discriminate.. | eexists; reflexivity].
  - exact I.
  - intros _. simpl. split; discriminate.
Defined.

Lemma rotateRight_keeps_pivot_links_witness :
  heap left_chain_30_20_10 !! 1%positive
  = Some (mkNode 30 3 (Some 2%positive) None None)
  ∧ heap left_chain_30_20_10 !! 2%positive
    = Some (mkNode 20 2 (Some 3%positive) None (Some 1%positive))
  ∧ ∃ s', BinarySearchTree.rotateRight (Some 1%positive) left_chain_30_20_10
          = Ok (Some 2%positive, s')
          ∧ root s' = root left_chain_30_20_10
          ∧ heap s' !! 2%positive
            = Some (mkNode 20
                      (Z.max (cached_height left_chain_30_20_10 (Some 3%positive))
                             (cached_height left_chain_30_20_10 None) + 1)
                      (Some 3%positive) None (Some 1%positive))
          ∧ heap s' !! 1%positive
            = Some (mkNode 30
                      (Z.max (cached_height left_chain_30_20_10 None) 2 + 1)
                      None (Some 2%positive) (Some 2%positive)).
Proof.
  split; [reflexivity|]. split; [reflexivity|].
  apply (rotateRight_keeps_pivot_links left_chain_30_20_10 1%positive 2%positive
           (mkNode 30 3 (Some 2%positive) None None)
           (mkNode 20 2 (Some 3%positive) None (Some 1%positive))).
  - reflexivity.
  - reflexivity.
  - reflexivity.
  - reflexivity.
  - discriminate.
  - simpl. repeat split; [discriminate.. | eexists; reflexivity].
  - exact I.
  - intros H. destruct H. reflexivity.
Defined.

(** ** AVLTree::insert where no rotation is due *)

Lemma heights_frame (t : tree) :
  ∀ (h h' : gmap positive BSTNode),
    heights h t → (∀ a, a ∈ addrs t → h' !! a = h !! a) → heights h' t.
Proof.
  induction t as [|l IHl a k r IHr]; intros h h' Hh Hfr; [exact I|].
  destruct Hh as (Ha & Hl & Hr). split; [|split].
  - rewrite (Hfr a) by (simpl; rewrite elem_of_app, elem_of_cons; auto).
    exact Ha.
  - apply (IHl h); [done|]. intros b Hb. apply Hfr.
    simpl. rewrite elem_of_app. auto.
  - apply (IHr h); [done|]. intros b Hb. apply Hfr.
    simpl. rewrite elem_of_app, elem_of_cons. auto.
Qed.

Lemma getHeight_depth (t : tree) (s : state) (up p : ptr) :
  linked (heap s) up p t → heights (heap s) t →
  BinarySearchTree.getHeight p s = Ok (Z.of_nat (depth t), s).
Proof.
  destruct t as [|l a k r]; intros Hl Hh.
  - simpl in Hl. subst p. reflexivity.
  - destruct Hl as [-> Hl]. destruct Hh as (Ha & _).
    destruct (heap s !! a) as [n|] eqn:Hn; [|contradiction].
    unfold BinarySearchTree.getHeight. cbn [not_null].
    rewrite (get_height_ok _ _ _ Hn), Ha. reflexivity.
Qed.

(** The tail of [AVLTree::insertNode] at a node below which everything
    is in place: [updateHeight(node)] stores the depth, and [balance]
    finds nothing to do. *)
Lemma updateHeight_balance_tail (s : state) (a : positive) (n : BSTNode)
    (tl tr : tree) (ka k : Z) :
  heap s !! a = Some n →
  linked (heap s) (Some a) (left n) tl → linked (heap s) (Some a) (right n) tr →
  heights (heap s) tl → heights (heap s) tr →
  a ∉ addrs tl → a ∉ addrs tr →
  Z.abs (Z.of_nat (depth tl) - Z.of_nat (depth tr)) ≤ 1 →
  (BinarySearchTree.updateHeight (Some a);; AVLTree.balance (Some a) k) s
  = Ok (Some a,
        mkState (<[a := with_height (Z.of_nat (depth (Node tl a ka tr))) n]>
                   (heap s)) (root s) (next s)).
Proof.
  intros Hn Hl Hr Hhl Hhr Hal Har Hb.
  set (s' := mkState (<[a := with_height (Z.of_nat (depth (Node tl a ka tr))) n]>
                        (heap s)) (root s) (next s)).
  assert (Hupd : BinarySearchTree.updateHeight (Some a) s = Ok (tt, s')).
  { unfold BinarySearchTree.updateHeight. cbn [is_null].
    mstep Hn. rewrite (bind_ok _ _ _ _ _ (getHeight_depth _ _ _ _ Hl Hhl)).
    mstep Hn. rewrite (bind_ok _ _ _ _ _ (getHeight_depth _ _ _ _ Hr Hhr)).
    unfold set_height. rewrite (update_ok _ _ _ _ Hn).
    unfold s'. do 5 f_equal. cbn [depth]. lia. }
  rewrite (bind_ok _ _ _ _ _ Hupd).
  assert (Hn' : heap s' !! a
                = Some (with_height (Z.of_nat (depth (Node tl a ka tr))) n))
    by apply lookup_insert_eq.
  assert (Hfr : ∀ b, b ≠ a → heap s' !! b = heap s !! b).
  { intros b Hb'. unfold s'. cbn [heap]. by rewrite lookup_insert_ne. }
  assert (Hl' : linked (heap s') (Some a) (left n) tl).
  { apply (linked_frame _ (heap s)); [done|].
    intros b Hin. apply Hfr. intros ->. done. }
  assert (Hr' : linked (heap s') (Some a) (right n) tr).
  { apply (linked_frame _ (heap s)); [done|].
    intros b Hin. apply Hfr. intros ->. done. }
  assert (Hhl' : heights (heap s') tl).
  { apply (heights_frame _ (heap s)); [done|].
    intros b Hin. apply Hfr. intros ->. done. }
  assert (Hhr' : heights (heap s') tr).
  { apply (heights_frame _ (heap s)); [done|].
    intros b Hin. apply Hfr. intros ->. done. }
  apply (balance_within_one s' (Some a) k
           (Z.of_nat (depth tl) - Z.of_nat (depth tr))); [|lia].
  unfold BinarySearchTree.getBalance. cbn [not_null].
  mstep Hn'. cbn [with_height left].
  rewrite (bind_ok _ _ _ _ _ (getHeight_depth _ _ _ _ Hl' Hhl')).
  mstep Hn'. cbn [with_height right].
  rewrite (bind_ok _ _ _ _ _ (getHeight_depth _ _ _ _ Hr' Hhr')).
  reflexivity.
Qed.

Lemma AVL_insertNode_effect (t : tree) :
  ∀ (s : state) (up p : ptr) (k : Z) (fuel : nat),
    linked (heap s) up p t → heights (heap s) t → NoDup (addrs t) →
    Forall (λ a, (a < next s)%positive) (addrs t) →
    root s ≠ None → ordered t → k ∉ keys t →
    balanced (BST_ins t k (next s)) → (depth t < fuel)%nat →
    ∃ s', AVLTree.insertNode fuel p k up s
          = Ok (root_ptr (BST_ins t k (next s)), s')
          ∧ linked (heap s') up (root_ptr (BST_ins t k (next s)))
              (BST_ins t k (next s))
          ∧ heights (heap s') (BST_ins t k (next s))
          ∧ root s' = root s ∧ next s' = Pos.succ (next s)
          ∧ ∀ b, b ∉ addrs t → b ≠ next s → heap s' !! b = heap s !! b.
Proof.
  induction t as [|l IHl a ka r IHr];
    intros s up p k fuel Hl Hh Hnd Hfr Hroot Ho Hk Hbal Hf;
    (destruct fuel as [|fuel]; [lia|]).
  - simpl in Hl. subst p.
    destruct (root s) as [rt|] eqn:Ert; [|done].
    eexists. split.
    { cbn [AVLTree.insertNode is_null].
      unfold new_BSTNode. run_heap. rewrite Ert. run_heap. reflexivity. }
    cbn [heap root next BST_ins root_ptr linked heights].
    rewrite lookup_insert_eq. repeat split.
    intros b _ Hb. by rewrite !lookup_insert_ne.
  - destruct Hl as [-> Hl].
    destruct (heap s !! a) as [n|] eqn:Hn; [|contradiction].
    destruct Hl as (Hkey & Hup & Hll & Hlr).
    destruct Hh as (_ & Hhl & Hhr).
    destruct Ho as (Hlt & Hgt & Hol & Hor).
    simpl in Hnd, Hfr, Hf. rewrite keys_node in Hk.
    apply NoDup_app in Hnd as (Hndl & Hdisj & Hndr).
    apply NoDup_cons in Hndr as [Har Hndr].
    apply Forall_app in Hfr as [Hfrl Hfrr].
    apply Forall_cons in Hfrr as [Hfra Hfrr].
    assert (Hal : a ∉ addrs l).
    { intros Hin. apply (Hdisj a Hin). apply list_elem_of_here. }
    assert (Hne : k ≠ ka) by (intros ->; tauto).
    cbn [AVLTree.insertNode is_null BST_ins root_ptr] in *.
    mstep Hn. rewrite Hkey.
    destruct (decide (k < ka)) as [Hlt'|Hge];
      [rewrite (bool_decide_eq_true_2 (k < ka)) in Hbal |- * by done
      |rewrite (bool_decide_eq_false_2 (k < ka)) in Hbal |- * by done];
      cbn [root_ptr].
    + destruct Hbal as (Hbnode & Hbsub & Hbo).
      destruct (IHl s (Some a) (left n) k fuel Hll Hhl Hndl Hfrl Hroot
                  Hol ltac:(tauto) Hbsub ltac:(lia))
        as (s1 & Hins & Hl1 & Hh1 & Hroot1 & Hnext1 & Hframe1).
      set (t' := BST_ins l k (next s)) in *.
      assert (Hn1 : heap s1 !! a = Some n).
      { rewrite Hframe1; [done | done | lia]. }
      set (n2 := with_left (root_ptr t') n).
      set (s2 := mkState (<[a := n2]> (heap s1)) (root s1) (next s1)).
      assert (Hn2 : heap s2 !! a = Some n2) by apply lookup_insert_eq.
      assert (Ha' : a ∉ addrs t').
      { unfold t'. rewrite addrs_BST_ins, not_elem_of_cons. split; [lia | done]. }
      assert (Hfr2 : ∀ b, b ≠ a → heap s2 !! b = heap s1 !! b).
      { intros b Hb. unfold s2. cbn [heap]. by rewrite lookup_insert_ne. }
      assert (Hl2 : linked (heap s2) (Some a) (root_ptr t') t').
      { apply (linked_frame _ (heap s1)); [done|].
        intros b Hb. apply Hfr2. intros ->. done. }
      assert (Hh2 : heights (heap s2) t').
      { apply (heights_frame _ (heap s1)); [done|].
        intros b Hb. apply Hfr2. intros ->. done. }
      assert (Hfro : ∀ b, b ∈ addrs r → heap s2 !! b = heap s !! b).
      { intros b Hb. rewrite Hfr2 by (intros ->; done).
        apply Hframe1.
        - intros Hb'. apply (Hdisj b Hb'). by apply list_elem_of_further.
        - rewrite Forall_forall in Hfrr. specialize (Hfrr b Hb). lia. }
      assert (Hlo2 : linked (heap s2) (Some a) (right n) r).
      { apply (linked_frame _ (heap s)); done. }
      assert (Hho2 : heights (heap s2) r).
      { apply (heights_frame _ (heap s)); done. }
      assert (Hrun : ∃ c nc, root_ptr t' = Some c
                       ∧ heap s2 !! c = Some nc ∧ parent nc = Some a).
      { destruct t' as [|l' c kc r'] eqn:Et';
          [by unfold t' in Et'; destruct l; simpl in Et';
              try case_bool_decide|].
        pose proof (linked_root_key _ _ _ _ Hl2) as (_ & nc & Hnc & _).
        exists c, nc. repeat split; [done|].
        destruct Hl2 as [_ Hl2]. rewrite Hnc in Hl2. tauto. }
      destruct Hrun as (c & nc & Eroot & Hnc & Hpc).
      pose proof (updateHeight_balance_tail s2 a n2 t' r ka k Hn2
                    Hl2 Hlo2 Hh2 Hho2 Ha' Har ) as Htail.
      eexists. split.
      {         mstep Hn. rewrite (bind_ok _ _ _ _ _ Hins).
        unfold set_left. rewrite (bind_ok _ _ _ _ _ (update_ok _ _ _ _ Hn1)).
        fold n2. fold s2. mstep Hn2. unfold n2 at 1. cbn [with_left left].
        rewrite Eroot. unfold set_parent.
        rewrite (bind_ok _ _ _ _ _
                   (update_id _ _ _ (with_parent (Some a)) Hnc
                      ltac:(by destruct nc; simpl in *; subst))).
        apply Htail. exact Hbnode. }
      cbn [heap root next root_ptr].
      assert (Hfr3 : ∀ b, b ≠ a →
                <[a := with_height (Z.of_nat (depth (Node t' a ka r))) n2]>
                  (heap s2) !! b = heap s2 !! b).
      { intros b Hb. by rewrite lookup_insert_ne. }
      split; [|split; [|split; [done|split; [done|]]]].
      * split; [done|]. rewrite lookup_insert_eq.
        unfold n2. cbn [with_height with_left key parent left right].
        split; [done|]. split; [done|]. split.
        -- apply (linked_frame _ (heap s2)); [done|].
           intros b Hb. apply Hfr3. intros ->. done.
        -- apply (linked_frame _ (heap s2)); [done|].
           intros b Hb. apply Hfr3. intros ->. done.
      * split; [by rewrite lookup_insert_eq|]. split.
        -- apply (heights_frame _ (heap s2)); [done|].
           intros b Hb. apply Hfr3. intros ->. done.
        -- apply (heights_frame _ (heap s2)); [done|].
           intros b Hb. apply Hfr3. intros ->. done.
      * intros b Hb Hbn. simpl in Hb.
        rewrite elem_of_app, elem_of_cons in Hb.
        rewrite Hfr3 by (intros ->; tauto).
        rewrite Hfr2 by (intros ->; tauto).
        apply Hframe1; [tauto | done].
    + destruct Hbal as (Hbnode & Hbo & Hbsub).
      destruct (IHr s (Some a) (right n) k fuel Hlr Hhr Hndr Hfrr Hroot
                  Hor ltac:(tauto) Hbsub ltac:(lia))
        as (s1 & Hins & Hl1 & Hh1 & Hroot1 & Hnext1 & Hframe1).
      set (t' := BST_ins r k (next s)) in *.
      assert (Hn1 : heap s1 !! a = Some n).
      { rewrite Hframe1; [done | done | lia]. }
      set (n2 := with_right (root_ptr t') n).
      set (s2 := mkState (<[a := n2]> (heap s1)) (root s1) (next s1)).
      assert (Hn2 : heap s2 !! a = Some n2) by apply lookup_insert_eq.
      assert (Ha' : a ∉ addrs t').
      { unfold t'. rewrite addrs_BST_ins, not_elem_of_cons. split; [lia | done]. }
      assert (Hfr2 : ∀ b, b ≠ a → heap s2 !! b = heap s1 !! b).
      { intros b Hb. unfold s2. cbn [heap]. by rewrite lookup_insert_ne. }
      assert (Hl2 : linked (heap s2) (Some a) (root_ptr t') t').
      { apply (linked_frame _ (heap s1)); [done|].
        intros b Hb. apply Hfr2. intros ->. done. }
      assert (Hh2 : heights (heap s2) t').
      { apply (heights_frame _ (heap s1)); [done|].
        intros b Hb. apply Hfr2. intros ->. done. }
      assert (Hfro : ∀ b, b ∈ addrs l → heap s2 !! b = heap s !! b).
      { intros b Hb. rewrite Hfr2 by (intros ->; done).
        apply Hframe1.
        - intros Hb'. apply (Hdisj b Hb). by apply list_elem_of_further.
        - rewrite Forall_forall in Hfrl. specialize (Hfrl b Hb). lia. }
      assert (Hlo2 : linked (heap s2) (Some a) (left n) l).
      { apply (linked_frame _ (heap s)); done. }
      assert (Hho2 : heights (heap s2) l).
      { apply (heights_frame _ (heap s)); done. }
      assert (Hrun : ∃ c nc, root_ptr t' = Some c
                       ∧ heap s2 !! c = Some nc ∧ parent nc = Some a).
      { destruct t' as [|l' c kc r'] eqn:Et';
          [by unfold t' in Et'; destruct r; simpl in Et';
              try case_bool_decide|].
        pose proof (linked_root_key _ _ _ _ Hl2) as (_ & nc & Hnc & _).
        exists c, nc. repeat split; [done|].
        destruct Hl2 as [_ Hl2]. rewrite Hnc in Hl2. tauto. }
      destruct Hrun as (c & nc & Eroot & Hnc & Hpc).
      pose proof (updateHeight_balance_tail s2 a n2 l t' ka k Hn2
                    Hlo2 Hl2 Hho2 Hh2 Hal Ha' ) as Htail.
      eexists. split.
      { mstep Hn. rewrite Hkey.
        rewrite bool_decide_eq_true_2 by lia.
        mstep Hn. rewrite (bind_ok _ _ _ _ _ Hins).
        unfold set_right. rewrite (bind_ok _ _ _ _ _ (update_ok _ _ _ _ Hn1)).
        fold n2. fold s2. mstep Hn2. unfold n2 at 1. cbn [with_right right].
        rewrite Eroot. unfold set_parent.
        rewrite (bind_ok _ _ _ _ _
                   (update_id _ _ _ (with_parent (Some a)) Hnc
                      ltac:(by destruct nc; simpl in *; subst))).
        apply Htail. exact Hbnode. }
      cbn [heap root next root_ptr].
      assert (Hfr3 : ∀ b, b ≠ a →
                <[a := with_height (Z.of_nat (depth (Node l a ka t'))) n2]>
                  (heap s2) !! b = heap s2 !! b).
      { intros b Hb. by rewrite lookup_insert_ne. }
      split; [|split; [|split; [done|split; [done|]]]].
      * split; [done|]. rewrite lookup_insert_eq.
        unfold n2. cbn [with_height with_right key parent left right].
        split; [done|]. split; [done|]. split.
        -- apply (linked_frame _ (heap s2)); [done|].
           intros b Hb. apply Hfr3. intros ->. done.
        -- apply (linked_frame _ (heap s2)); [done|].
           intros b Hb. apply Hfr3. intros ->. done.
      * split; [by rewrite lookup_insert_eq|]. split.
        -- apply (heights_frame _ (heap s2)); [done|].
           intros b Hb. apply Hfr3. intros ->. done.
        -- apply (heights_frame _ (heap s2)); [done|].
           intros b Hb. apply Hfr3. intros ->. done.
      * intros b Hb Hbn. simpl in Hb.
        rewrite elem_of_app, elem_of_cons in Hb.
        rewrite Hfr3 by (intros ->; tauto).
        rewrite Hfr2 by (intros ->; tauto).
        apply Hframe1; [tauto | done].
Qed.

Lemma AVL_insert_effect (s : state) (t : tree) (k : Z) (fuel : nat) :
  tree_at s t → heights (heap s) t → ordered t → k ∉ keys t →
  balanced (BST_ins t k (next s)) → (depth t < fuel)%nat →
  ∃ s', AVLTree.insert fuel k s = Ok (tt, s')
        ∧ tree_at s' (BST_ins t k (next s))
        ∧ heights (heap s') (BST_ins t k (next s))
        ∧ next s' = Pos.succ (next s)
        ∧ ∀ b, b ∉ addrs t → b ≠ next s → heap s' !! b = heap s !! b.
Proof.
  intros Ht Hh Ho Hk Hbal Hf. pose proof Ht as (Hl & Hnd & Hfr).
  assert (Hgoal : ∃ s', AVLTree.insert fuel k s = Ok (tt, s')
            ∧ linked (heap s') None (root s') (BST_ins t k (next s))
            ∧ heights (heap s') (BST_ins t k (next s))
            ∧ next s' = Pos.succ (next s)
            ∧ ∀ b, b ∉ addrs t → b ≠ next s → heap s' !! b = heap s !! b).
  { unfold AVLTree.insert. rewrite bind_eq. cbn [get_root].
    destruct t as [|l a ka r].
    - simpl in Hl. destruct fuel as [|fuel]; [lia|].
      eexists. split.
      { cbn [AVLTree.insertNode]. rewrite Hl. cbn [is_null].
        unfold new_BSTNode. run_heap. rewrite Hl. run_heap. reflexivity. }
      cbn [heap root next BST_ins linked heights].
      rewrite lookup_insert_eq. repeat split.
      intros b _ Hb. by rewrite !lookup_insert_ne.
    - pose proof Hl as [Eroot _].
      assert (Hroot : root s ≠ None) by (rewrite Eroot; done).
      destruct (AVL_insertNode_effect _ s None (root s) k fuel
                  Hl Hh Hnd Hfr Hroot Ho Hk Hbal Hf)
        as (s1 & Hins & Hl1 & Hh1 & Hroot1 & Hnext1 & Hframe1).
      rewrite (bind_ok _ _ _ _ _ Hins).
      eexists. split; [reflexivity|]. cbn [heap root next]. auto. }
  destruct Hgoal as (s' & Hins & Hl' & Hh' & Hnext & Hframe).
  exists s'. split; [exact Hins|].
  split; [exact (tree_at_BST_ins s s' t k Ht Hl' Hnext)|]. auto.
Qed.

(** X15: where putting [key] at its leaf position leaves every node
    within balance, [AVLTree::insert] of a new key into a well-formed
    tree with correct cached heights does just that: one new leaf, the
    cached heights on the path refreshed, links and order intact, no
    rotation and no node outside the tree touched. *)
Theorem AVL_insert_without_rotation (s : state) (t : tree) (k : Z)
    (fuel : nat) :
  tree_at s t → heights (heap s) t → ordered t → k ∉ keys t →
  balanced (BST_ins t k (next s)) → (depth t < fuel)%nat →
  ∃ s' t', AVLTree.insert fuel k s = Ok (tt, s')
           ∧ t' = BST_ins t k (next s)
           ∧ tree_at s' t' ∧ heights (heap s') t'
           ∧ ordered t' ∧ balanced t'
           ∧ keys t' ≡ₚ k :: keys t
           ∧ ∀ b, b ∉ addrs t → b ≠ next s → heap s' !! b = heap s !! b.
Proof.
  intros Ht Hh Ho Hk Hbal Hf.
  destruct (AVL_insert_effect s t k fuel Ht Hh Ho Hk Hbal Hf)
    as (s' & Hins & Ht' & Hh' & _ & Hframe).
  exists s', (BST_ins t k (next s)).
  split; [exact Hins|]. split; [reflexivity|].
  split; [exact Ht'|].
  split; [exact Hh'|]. split; [exact (ordered_BST_ins t k _ Ho Hk)|].
  split; [exact Hbal|]. split; [apply keys_BST_ins | exact Hframe].
Qed.

Lemma AVL_insert_without_rotation_witness :
  tree_at tree_20_10_30 shape_20_10_30
  ∧ heights (heap tree_20_10_30) shape_20_10_30
  ∧ ordered shape_20_10_30
  ∧ (25 ∉ keys shape_20_10_30)
  ∧ balanced (BST_ins shape_20_10_30 25 (next tree_20_10_30))
  ∧ ∃ s' t', AVLTree.insert 3 25 tree_20_10_30 = Ok (tt, s')
             ∧ t' = BST_ins shape_20_10_30 25 (next tree_20_10_30)
             ∧ tree_at s' t' ∧ heights (heap s') t'
             ∧ ordered t' ∧ balanced t'
             ∧ keys t' ≡ₚ 25 :: keys shape_20_10_30
             ∧ ∀ b, b ∉ addrs shape_20_10_30 → b ≠ next tree_20_10_30 →
                    heap s' !! b = heap tree_20_10_30 !! b.
Proof.
  assert (Hh : heights (heap tree_20_10_30) shape_20_10_30)
    by (vm_compute; tauto).
  assert (Ho : ordered shape_20_10_30) by (simpl; lia).
  assert (Hk : 25 ∉ keys shape_20_10_30).
  { simpl. rewrite !elem_of_cons, elem_of_nil. lia. }
  assert (Hb : balanced (BST_ins shape_20_10_30 25 (next tree_20_10_30)))
    by (vm_compute; repeat split; discriminate).
  split; [exact tree_at_20_10_30|]. split; [exact Hh|]. split; [exact Ho|].
  split; [exact Hk|]. split; [exact Hb|].
  apply (AVL_insert_without_rotation tree_20_10_30 shape_20_10_30 25 3
           tree_at_20_10_30 Hh Ho Hk Hb).
  simpl. lia.
Defined.

(** ** BinarySearchTree::remove of a key the tree holds *)

Lemma transplant_effect (s : state) (x : positive) (nx : BSTNode) (v : ptr) :
  heap s !! x = Some nx →
  slot s (parent nx) (Some x) →
  Some x ≠ parent nx →
  (∀ c, v = Some c → c ≠ x ∧ Some c ≠ parent nx ∧ is_Some (heap s !! c)) →
  ∃ s', BinarySearchTree.transplant (Some x) v s = Ok (tt, s')
        ∧ next s' = next s
        ∧ match parent nx with
          | None => root s' = v
          | Some u =>
              root s' = root s
              ∧ ∃ nu, heap s !! u = Some nu
                      ∧ heap s' !! u = Some (set_child nu (Some x) v)
          end
        ∧ (∀ c nv, v = Some c → heap s !! c = Some nv →
                   heap s' !! c = Some (with_parent (parent nx) nv))
        ∧ (∀ b, Some b ≠ parent nx → Some b ≠ v → heap s' !! b = heap s !! b).
Proof.
  intros Hx Hslot Hself Hv.
  unfold BinarySearchTree.transplant, set_child. mstep Hx.
  destruct (parent nx) as [u|] eqn:Eup; cbn [is_null].
  - unfold slot in Hslot.
    destruct (heap s !! u) as [nu|] eqn:Hu; [|contradiction].
    assert (Hxu : x ≠ u) by congruence.
    rewrite bind_eq. mstep Hx. rewrite Eup. mstep Hu.
    destruct v as [c|].
    + destruct (Hv c eq_refl) as (Hcx & Hcu & [nc Hc]).
      assert (Hcu' : c ≠ u) by congruence.
      destruct (decide (Some x = left nu)) as [Hd|Hd].
      *
        rewrite !(bool_decide_eq_true_2 (Some x = left nu)) by done.
        mstep Hx. rewrite Eup.
        eexists. split.
        { unfold set_left. rewrite (update_ok _ _ _ _ Hu).
          cbn [when not_null]. run_heap. reflexivity. }
        cbn [heap root next]. split; [done|]. split.
        { split; [done|]. exists nu. split; [done|].
          rewrite (bool_decide_eq_true_2 _ Hd).
          rewrite lookup_insert_ne by done.
          rewrite lookup_insert_eq. reflexivity. }
        split.
        { intros c' nv [= <-] Hnv. rewrite Hc in Hnv. injection Hnv as <-.
          rewrite lookup_insert_eq. reflexivity. }
        intros b Hbu Hbc. rewrite !lookup_insert_ne by congruence. done.
      *
        rewrite !(bool_decide_eq_false_2 (Some x = left nu)) by done.
        mstep Hx. rewrite Eup.
        eexists. split.
        { unfold set_right. rewrite (update_ok _ _ _ _ Hu).
          cbn [when not_null]. run_heap. reflexivity. }
        cbn [heap root next]. split; [done|]. split.
        { split; [done|]. exists nu. split; [done|].
          rewrite (bool_decide_eq_false_2 _ Hd).
          rewrite lookup_insert_ne by done.
          rewrite lookup_insert_eq. reflexivity. }
        split.
        { intros c' nv [= <-] Hnv. rewrite Hc in Hnv. injection Hnv as <-.
          rewrite lookup_insert_eq. reflexivity. }
        intros b Hbu Hbc. rewrite !lookup_insert_ne by congruence. done.
    + destruct (decide (Some x = left nu)) as [Hd|Hd].
      *
        rewrite !(bool_decide_eq_true_2 (Some x = left nu)) by done.
        mstep Hx. rewrite Eup.
        eexists. split.
        { unfold set_left. rewrite (update_ok _ _ _ _ Hu). reflexivity. }
        cbn [heap root next]. split; [done|]. split.
        { split; [done|]. exists nu. split; [done|].
          rewrite (bool_decide_eq_true_2 _ Hd).
          rewrite lookup_insert_eq. reflexivity. }
        split; [intros c' nv [=]|].
        intros b Hbu Hbc. rewrite !lookup_insert_ne by congruence. done.
      *
        rewrite !(bool_decide_eq_false_2 (Some x = left nu)) by done.
        mstep Hx. rewrite Eup.
        eexists. split.
        { unfold set_right. rewrite (update_ok _ _ _ _ Hu). reflexivity. }
        cbn [heap root next]. split; [done|]. split.
        { split; [done|]. exists nu. split; [done|].
          rewrite (bool_decide_eq_false_2 _ Hd).
          rewrite lookup_insert_eq. reflexivity. }
        split; [intros c' nv [=]|].
        intros b Hbu Hbc. rewrite !lookup_insert_ne by congruence. done.
  - destruct v as [c|].
    + destruct (Hv c eq_refl) as (Hcx & _ & [nc Hc]).
      eexists. split.
      { unfold set_root. rewrite bind_eq. cbn [when not_null].
        run_heap. reflexivity. }
      cbn [heap root next]. split; [done|]. split; [done|]. split.
      * intros c' nv [= <-] Hnv. rewrite Hc in Hnv. injection Hnv as <-.
        rewrite lookup_insert_eq. reflexivity.
      * intros b _ Hbc. rewrite lookup_insert_ne by congruence. done.
    + eexists. split; [reflexivity|].
      cbn [heap root next]. split; [done|]. split; [done|].
      split; [intros c' nv [=] | done].
Qed.

Lemma addrs_drop_min (l r : tree) (a : positive) (k : Z) :
  addrs (Node l a k r) = min_addr a l :: addrs (drop_min (Node l a k r)).
Proof.
  revert r a k. induction l as [|ll IH la lk lr _]; intros r a k; [done|].
  cbn [drop_min min_addr]. change (addrs (Node (Node ll la lk lr) a k r))
    with (addrs (Node ll la lk lr) ++ a :: addrs r).
  rewrite (IH lr la lk). reflexivity.
Qed.

Lemma keys_drop_min (l r : tree) (a : positive) (k : Z) :
  keys (Node l a k r) = min_key k l :: keys (drop_min (Node l a k r)).
Proof.
  revert r a k. induction l as [|ll IH la lk lr _]; intros r a k; [done|].
  cbn [drop_min min_key]. change (keys (Node (Node ll la lk lr) a k r))
    with (keys (Node ll la lk lr) ++ k :: keys r).
  rewrite (IH lr la lk). reflexivity.
Qed.

Lemma linked_addr_live (t : tree) (h : gmap positive BSTNode) (up p : ptr) :
  linked h up p t → ∀ b, b ∈ addrs t → is_Some (h !! b).
Proof.
  revert up p. induction t as [|l IHl a k r IHr]; intros up p Hl b Hb.
  { apply elem_of_nil in Hb. destruct Hb. }
  destruct Hl as [-> Hl].
  destruct (h !! a) as [n|] eqn:Hn; [|contradiction].
  destruct Hl as (_ & _ & Hll & Hlr).
  simpl in Hb. rewrite elem_of_app, elem_of_cons in Hb.
  destruct Hb as [Hb | [-> | Hb]]; [eauto | by rewrite Hn | eauto].
Qed.

Lemma root_ptr_addr (t : tree) (c : positive) :
  root_ptr t = Some c → c ∈ addrs t.
Proof.
  destruct t as [|l a k r]; [discriminate|]. intros [= ->].
  simpl. rewrite elem_of_app, elem_of_cons. auto.
Qed.

Lemma linked_reparent (t : tree) (h h' : gmap positive BSTNode)
    (up up' p : ptr) :
  linked h up p t → NoDup (addrs t) →
  (∀ c nc, p = Some c → h !! c = Some nc →
           h' !! c = Some (with_parent up' nc)) →
  (∀ b, b ∈ addrs t → Some b ≠ p → h' !! b = h !! b) →
  linked h' up' p t.
Proof.
  destruct t as [|l a k r]; intros Hl Hnd Hroot Hfr; [exact Hl|].
  destruct Hl as [-> Hl].
  destruct (h !! a) as [n|] eqn:Hn; [|contradiction].
  destruct Hl as (Hk & Hup & Hll & Hlr).
  simpl in Hnd. apply NoDup_app in Hnd as (Hndl & Hdisj & Hndr).
  apply NoDup_cons in Hndr as [Har Hndr].
  split; [done|]. rewrite (Hroot a n eq_refl Hn).
  cbn [with_parent key parent left right].
  split; [done|]. split; [done|]. split.
  - apply (linked_frame _ h); [done|]. intros b Hb. apply Hfr.
    + simpl. rewrite elem_of_app. auto.
    + intros [= ->]. apply (Hdisj a Hb). apply list_elem_of_here.
  - apply (linked_frame _ h); [done|]. intros b Hb. apply Hfr.
    + simpl. rewrite elem_of_app, elem_of_cons. auto.
    + intros [= ->]. done.
Qed.

(** [transplant(x, v)] where [v] is a child subtree of [x] (or null): the
    subtree takes the place of the tree [t] rooted at [x]. *)
Lemma transplant_subtree (s : state) (x : positive) (nx : BSTNode) (v : ptr)
    (t tv : tree) :
  heap s !! x = Some nx → slot s (parent nx) (Some x) →
  (∀ u, parent nx = Some u → u ∉ addrs t) → x ∈ addrs t →
  NoDup (addrs tv) → linked (heap s) (Some x) v tv →
  (∀ b, b ∈ addrs tv → b ∈ addrs t ∧ b ≠ x) →
  ∃ s', BinarySearchTree.transplant (Some x) v s = Ok (tt, s')
        ∧ replaced s s' (parent nx) (Some x) t tv
        ∧ heap s' !! x = Some nx.
Proof.
  intros Hx Hslot Hup Hxt Hnd Hl Hsub.
  pose proof (linked_root_ptr _ _ _ _ Hl) as Ev.
  assert (Hself : Some x ≠ parent nx).
  { intros E. symmetry in E. exact (Hup x E Hxt). }
  assert (Hv : ∀ c, v = Some c →
             c ≠ x ∧ Some c ≠ parent nx ∧ is_Some (heap s !! c)).
  { intros c Ec. rewrite Ev in Ec. apply root_ptr_addr in Ec.
    destruct (Hsub c Ec) as [Hct Hcx].
    split; [done|]. split.
    - intros E. symmetry in E. exact (Hup c E Hct).
    - exact (linked_addr_live _ _ _ _ Hl c Ec). }
  destruct (transplant_effect s x nx v Hx Hslot Hself Hv)
    as (s' & Hrun & Hnext & Hpar & Hvpar & Hfr).
  exists s'. split; [exact Hrun|].
  split; [|rewrite <- Hx; apply Hfr; [done|];
           intros E; symmetry in E; destruct (Hv x E) as [? _]; done].
  split; [|split; [exact Hnext|split]].
  - rewrite <- Ev. apply (linked_reparent _ (heap s) _ (Some x)); [done..| |].
    + exact Hvpar.
    + intros b Hb Hbv. apply Hfr; [|done].
      intros E. symmetry in E. destruct (Hsub b Hb) as [Hbt _].
      exact (Hup b E Hbt).
  - rewrite <- Ev. exact Hpar.
  - intros b Hb Hbup. apply Hfr; [done|].
    intros E. symmetry in E. rewrite Ev in E. apply root_ptr_addr in E.
    destruct (Hsub b E) as [Hbt _]. done.
Qed.

(** [transplant(sec, sec->right)] for the minimum [sec] of a subtree
    whose root has a left child: the subtree loses its leftmost node,
    and [sec] itself is not written. *)
Lemma transplant_min (rl : tree) :
  ∀ (rr : tree) (ra : positive) (rk : Z) (s : state) (up p : ptr),
    rl ≠ Leaf →
    linked (heap s) up p (Node rl ra rk rr) →
    NoDup (addrs (Node rl ra rk rr)) →
    ∃ nsec s' ps,
      heap s !! min_addr ra rl = Some nsec
      ∧ parent nsec = Some ps ∧ ps ∈ addrs (Node rl ra rk rr)
      ∧ BinarySearchTree.transplant (Some (min_addr ra rl)) (right nsec) s
        = Ok (tt, s')
      ∧ linked (heap s') up p (drop_min (Node rl ra rk rr))
      ∧ next s' = next s ∧ root s' = root s
      ∧ heap s' !! min_addr ra rl = Some nsec
      ∧ ∀ b, b ∉ addrs (Node rl ra rk rr) → heap s' !! b = heap s !! b.
Proof.
  induction rl as [|rll IH rla rlk rlr _]; intros rr ra rk s up p Hne Hl Hnd;
    [done|].
  destruct Hl as [-> Hl].
  destruct (heap s !! ra) as [nra|] eqn:Hra; [|contradiction].
  destruct Hl as (Hkey & Hup & Hll & Hlr).
  change (addrs (Node (Node rll rla rlk rlr) ra rk rr))
    with (addrs (Node rll rla rlk rlr) ++ ra :: addrs rr) in *.
  apply NoDup_app in Hnd as (Hndl & Hdisj & Hndr).
  apply NoDup_cons in Hndr as [Har Hndr].
  assert (Hral : ra ∉ addrs (Node rll rla rlk rlr)).
  { intros Hin. apply (Hdisj ra Hin). apply list_elem_of_here. }
  destruct rll as [|rlll rlla rllk rllr].
  - (* the minimum is the left child of the root *)
    pose proof Hll as [Eleft Hll'].
    destruct (heap s !! rla) as [nsec|] eqn:Hsec; [|contradiction].
    destruct Hll' as (Hkl & Hpl & Hlleaf & Hlrr).
    simpl in Hlleaf.
    assert (Hndlr : NoDup (addrs rlr)).
    { simpl in Hndl. by apply NoDup_cons in Hndl as [_ ?]. }
    assert (Hslot : slot s (parent nsec) (Some rla)).
    { rewrite Hpl. unfold slot. rewrite Hra. auto. }
    destruct (transplant_subtree s rla nsec (right nsec)
                (Node Leaf rla rlk rlr) rlr Hsec Hslot) as (s' & Hrun & Hrep & Hsec').
    { rewrite Hpl. intros u [= <-]. exact Hral. }
    { simpl. apply list_elem_of_here. }
    { exact Hndlr. }
    { exact Hlrr. }
    { intros b Hb. split; [simpl; by apply list_elem_of_further|].
      intros ->. simpl in Hndl. apply NoDup_cons in Hndl as [Hn _]. done. }
    destruct Hrep as (Hl' & Hnext & Hpar & Hfr). rewrite Hpl in Hpar, Hfr.
    destruct Hpar as (Hroot & nu & Hu & Hu'). rewrite Hra in Hu.
    injection Hu as <-.
    unfold set_child in Hu'.
    rewrite bool_decide_eq_true_2 in Hu' by done.
    exists nsec, s', ra. cbn [min_addr].
    split; [done|]. split; [done|].
    split; [rewrite elem_of_app, elem_of_cons; auto|].
    split; [done|]. split; [|split; [done|split; [done|split; [done|]]]].
    + cbn [drop_min]. split; [done|]. rewrite Hu'.
      cbn [with_left key parent left right].
      split; [done|]. split; [done|]. split.
      * rewrite Hpl in Hl'. exact Hl'.
      * apply (linked_frame _ (heap s)); [done|]. intros b Hb. apply Hfr.
        -- intros Hb'. apply (Hdisj b Hb'). by apply list_elem_of_further.
        -- intros [= ->]. done.
    + intros b Hb. rewrite elem_of_app, elem_of_cons in Hb.
      apply Hfr; [tauto|]. intros [= ->]. tauto.
  - (* the minimum is deeper: go down the left spine *)
    destruct (IH rlr rla rlk s (Some ra) (left nra) ltac:(done) Hll Hndl)
      as (nsec & s' & ps & Hsec & Hps & Hpsin & Hrun & Hl' & Hnext & Hroot
          & Hsec' & Hfr).
    exists nsec, s', ps.
    change (min_addr ra (Node (Node rlll rlla rllk rllr) rla rlk rlr))
      with (min_addr rla (Node rlll rlla rllk rllr)).
    split; [done|]. split; [done|].
    split; [rewrite elem_of_app; auto|].
    split; [done|]. split; [|split; [done|split; [done|split; [done|]]]].
    + change (drop_min (Node (Node (Node rlll rlla rllk rllr) rla rlk rlr)
                          ra rk rr))
        with (Node (drop_min (Node (Node rlll rlla rllk rllr) rla rlk rlr))
                ra rk rr).
      split; [done|]. rewrite (Hfr ra Hral), Hra.
      split; [done|]. split; [done|]. split; [exact Hl'|].
      apply (linked_frame _ (heap s)); [done|]. intros b Hb. apply Hfr.
      intros Hb'. apply (Hdisj b Hb'). by apply list_elem_of_further.
    + intros b Hb. rewrite elem_of_app, elem_of_cons in Hb.
      apply Hfr. tauto.
Qed.

Lemma addrs_node (l r : tree) (a : positive) (k : Z) (x : positive) :
  x ∈ addrs (Node l a k r) ↔ x ∈ addrs l ∨ x = a ∨ x ∈ addrs r.
Proof. simpl. rewrite elem_of_app, elem_of_cons. reflexivity. Qed.

(** The last statements of the two-children case of [deleteNode], once
    the successor [sec] carries what remains of the right subtree:
    [transplant(node, sec); sec->left = node->left;
     sec->left->parent = sec;]. *)
Lemma deleteNode_tail (s sC : state) (a sec : positive) (n nsec : BSTNode)
    (l r tr : tree) (ka : Z) :
  heap s !! a = Some n → linked (heap s) (Some a) (left n) l → l ≠ Leaf →
  NoDup (addrs (Node l a ka r)) → slot s (parent n) (Some a) →
  (∀ u, parent n = Some u → u ∉ addrs (Node l a ka r)) →
  (∀ b, b ∉ addrs r → heap sC !! b = heap s !! b) →
  root sC = root s → next sC = next s →
  heap sC !! sec = Some nsec → sec ∈ addrs r →
  linked (heap sC) (Some sec) (right nsec) tr →
  (∀ b, b ∈ addrs tr → b ∈ addrs r ∧ b ≠ sec) →
  ∃ s', (BinarySearchTree.transplant (Some a) (Some sec);;
         nl ← get_left (Some a);
         set_left (Some sec) nl;;
         sl ← get_left (Some sec);
         set_parent sl (Some sec)) sC = Ok (tt, s')
        ∧ replaced s s' (parent n) (Some a) (Node l a ka r)
            (Node l sec (key nsec) tr)
        ∧ heap s' !! a = Some n.
Proof.
  intros Hn Hl Hlne Hnd Hslot Hup HfrC HrootC HnextC Hsec Hsecr Hltr Htr.
  change (addrs (Node l a ka r)) with (addrs l ++ a :: addrs r) in *.
  apply NoDup_app in Hnd as (Hndl & Hdisj & Hndr).
  apply NoDup_cons in Hndr as [Har Hndr].
  assert (Hal : a ∉ addrs l).
  { intros Hin. apply (Hdisj a Hin). apply list_elem_of_here. }
  assert (Hlr : ∀ b, b ∈ addrs l → b ∉ addrs r).
  { intros b Hb Hb'. apply (Hdisj b Hb). by apply list_elem_of_further. }
  assert (Hseca : sec ≠ a) by (intros ->; done).
  assert (Hsecl : sec ∉ addrs l) by (intros Hin; exact (Hlr _ Hin Hsecr)).
  assert (Hupt : ∀ b, Some b = parent n →
                 (b ∉ addrs l) ∧ b ≠ a ∧ (b ∉ addrs r)).
  { intros b E. symmetry in E. specialize (Hup b E).
    rewrite elem_of_app, elem_of_cons in Hup. tauto. }
  destruct l as [|ll al kl lr]; [done|].
  pose proof (linked_root_key _ _ _ _ Hl) as (Eleft & nal & Hnal & _).
  assert (Hall : al ∈ addrs (Node ll al kl lr)).
  { simpl. rewrite elem_of_app, elem_of_cons. auto. }
  assert (HnC : heap sC !! a = Some n) by (rewrite HfrC; done).
  assert (HslotC : slot sC (parent n) (Some a)).
  { unfold slot in *. destruct (parent n) as [u|] eqn:Eu; [|congruence].
    destruct (Hupt u eq_refl) as (_ & _ & Hur). by rewrite (HfrC u Hur). }
  destruct (transplant_effect sC a n (Some sec) HnC HslotC) as
    (s4 & Hrun4 & Hnext4 & Hpar4 & Hv4 & Hfr4).
  { intros E. destruct (Hupt a E) as (_ & ? & _). done. }
  { intros c [= <-]. split; [done|]. split; [|by rewrite Hsec].
    intros E. destruct (Hupt sec E) as (_ & _ & ?). done. }
  specialize (Hv4 sec nsec eq_refl Hsec).
  assert (Hn4 : heap s4 !! a = Some n).
  { rewrite Hfr4; [done| |congruence].
    intros E. destruct (Hupt a E) as (_ & ? & _). done. }
  set (nsec5 := with_left (Some al) (with_parent (parent n) nsec)).
  set (s5 := mkState (<[sec := nsec5]> (heap s4)) (root s4) (next s4)).
  assert (Hal4 : heap s4 !! al = Some nal).
  { rewrite Hfr4; [|intros E; destruct (Hupt al E) as (? & _); done|congruence].
    rewrite HfrC; [done | by apply Hlr]. }
  assert (Hal5 : heap s5 !! al = Some nal).
  { unfold s5. cbn [heap]. rewrite lookup_insert_ne by congruence. done. }
  set (s6 := mkState (<[al := with_parent (Some sec) nal]> (heap s5))
               (root s5) (next s5)).
  exists s6. split.
  { rewrite (bind_ok _ _ _ _ _ Hrun4). mstep Hn4. rewrite Eleft.
    unfold set_left. rewrite (bind_ok _ _ _ _ _ (update_ok _ _ _ _ Hv4)).
    fold nsec5. fold s5.
    assert (Hsec5 : heap s5 !! sec = Some nsec5) by apply lookup_insert_eq.
    mstep Hsec5. unfold nsec5 at 1. cbn [with_left left].
    unfold set_parent. rewrite (update_ok _ _ _ _ Hal5). reflexivity. }
  assert (Hfr6 : ∀ b, b ≠ al → b ≠ sec → Some b ≠ parent n →
                 heap s6 !! b = heap sC !! b).
  { intros b Hb1 Hb2 Hb3. unfold s6, s5. cbn [heap].
    rewrite !lookup_insert_ne by congruence. apply Hfr4; congruence. }
  assert (Hsec6 : heap s6 !! sec = Some nsec5).
  { unfold s6, s5. cbn [heap]. rewrite lookup_insert_ne by congruence.
    apply lookup_insert_eq. }
  split; [|unfold s6, s5; cbn [heap];
           rewrite !lookup_insert_ne by congruence; exact Hn4].
  split; [|split; [|split]].
  - cbn [root_ptr]. split; [done|]. rewrite Hsec6.
    unfold nsec5. cbn [with_left with_parent key parent left right].
    split; [done|]. split; [done|]. split.
    + apply (linked_reparent _ (heap s) _ (Some a)); [by rewrite <- Eleft|done| |].
      * intros c nc [= <-] Hc. rewrite Hnal in Hc. injection Hc as <-.
        unfold s6. cbn [heap]. apply lookup_insert_eq.
      * intros b Hb Hbal. rewrite Hfr6.
        -- apply HfrC. by apply Hlr.
        -- congruence.
        -- intros ->. done.
        -- intros E. destruct (Hupt b E) as (? & _). done.
    + apply (linked_frame _ (heap sC)); [done|].
      intros b Hb. destruct (Htr b Hb) as [Hbr Hbsec]. apply Hfr6.
      * intros ->. exact (Hlr _ Hall Hbr).
      * done.
      * intros E. destruct (Hupt b E) as (_ & _ & ?). done.
  - unfold s6, s5. cbn [next]. congruence.
  - destruct (parent n) as [u|] eqn:Eu.
    + destruct Hpar4 as (Hroot4 & nu & Hu & Hu4).
      destruct (Hupt u eq_refl) as (Hul & Hua & Hur).
      split; [unfold s6, s5; cbn [root]; congruence|].
      exists nu. split; [by rewrite <- (HfrC u Hur)|].
      unfold s6, s5. cbn [heap root_ptr].
      rewrite !lookup_insert_ne; [exact Hu4 | |].
      * intros ->. done.
      * intros ->. done.
    + unfold s6, s5. cbn [root root_ptr]. exact Hpar4.
  - intros b Hb Hbup. rewrite addrs_node in Hb.
    rewrite Hfr6; [apply HfrC; tauto | | | done].
    + intros ->. tauto.
    + intros ->. tauto.
Qed.

Lemma min_parent_link (rl : tree) :
  ∀ (rr : tree) (ra : positive) (rk : Z) (h : gmap positive BSTNode)
    (up p : ptr),
    rl ≠ Leaf → linked h up p (Node rl ra rk rr) →
    ∃ nsec, h !! min_addr ra rl = Some nsec
            ∧ parent nsec = Some (min_parent ra rl).
Proof.
  induction rl as [|rll IH rla rlk rlr _]; intros rr ra rk h up p Hne Hl;
    [done|].
  destruct Hl as [_ Hl].
  destruct (h !! ra) as [nra|] eqn:Hra; [|contradiction].
  destruct Hl as (_ & _ & Hll & _).
  destruct rll as [|rlll rlla rllk rllr].
  - destruct Hll as [_ Hll]. cbn [min_addr min_parent].
    destruct (h !! rla) as [nsec|]; [|contradiction].
    exists nsec. split; [done|]. tauto.
  - change (min_addr ra (Node (Node rlll rlla rllk rllr) rla rlk rlr))
      with (min_addr rla (Node rlll rlla rllk rllr)).
    change (min_parent ra (Node (Node rlll rlla rllk rllr) rla rlk rlr))
      with (min_parent rla (Node rlll rlla rllk rllr)).
    apply (IH rlr rla rlk h (Some ra) (left nra)); done.
Qed.

(** The first statements of the two-children case of [deleteNode]: when
    the successor [sec] is not the right child of [node], it gives way
    to its own right child and takes over the right subtree of [node]. *)
Lemma detach_successor (s : state) (a : positive) (n nsec : BSTNode)
    (rl rr : tree) (ra : positive) (rk : Z) :
  heap s !! a = Some n →
  linked (heap s) (Some a) (right n) (Node rl ra rk rr) →
  NoDup (addrs (Node rl ra rk rr)) → a ∉ addrs (Node rl ra rk rr) →
  heap s !! min_addr ra rl = Some nsec →
  parent nsec
  = Some (match rl with Leaf => a | Node _ _ _ _ => min_parent ra rl end)
  ∧ ∃ sC nsecC,
      (when (bool_decide (parent nsec ≠ Some a))
         (sr ← get_right (Some (min_addr ra rl));
          BinarySearchTree.transplant (Some (min_addr ra rl)) sr;;
          nr ← get_right (Some a);
          set_right (Some (min_addr ra rl)) nr;;
          sr ← get_right (Some (min_addr ra rl));
          set_parent sr (Some (min_addr ra rl)))) s = Ok (tt, sC)
      ∧ (∀ b, b ∉ addrs (Node rl ra rk rr) → heap sC !! b = heap s !! b)
      ∧ root sC = root s ∧ next sC = next s
      ∧ heap sC !! min_addr ra rl = Some nsecC ∧ key nsecC = key nsec
      ∧ linked (heap sC) (Some (min_addr ra rl)) (right nsecC)
          (drop_min (Node rl ra rk rr)).
Proof.
  intros Hn Hlr Hndr Har Hsec.
  pose proof (linked_root_ptr _ _ _ _ Hlr) as Er. cbn [root_ptr] in Er.
  set (sec := min_addr ra rl) in *.
  assert (Hsecr : sec ∈ addrs (Node rl ra rk rr)).
  { rewrite addrs_drop_min. apply list_elem_of_here. }
  pose proof Hndr as Hndr'. rewrite addrs_drop_min in Hndr'.
  fold sec in Hndr'. apply NoDup_cons in Hndr' as [Hsecd Hndd].
  assert (Htr : ∀ b, b ∈ addrs (drop_min (Node rl ra rk rr)) →
                b ∈ addrs (Node rl ra rk rr) ∧ b ≠ sec).
  { intros b Hb. split; [|by intros ->].
    rewrite addrs_drop_min. by apply list_elem_of_further. }
  destruct rl as [|rll rla rlk rlr].
  - (* the successor is the right child *)
    pose proof Hlr as [_ Hlr'].
    unfold sec in *. cbn [min_addr] in *. rewrite Hsec in Hlr'.
    destruct Hlr' as (_ & Hpsec & _ & Hlrr).
    split; [exact Hpsec|]. exists s, nsec.
    rewrite Hpsec, bool_decide_eq_false_2 by (intros H; by apply H).
    split; [reflexivity|]. repeat split; [done..|exact Hlrr].
  - (* the successor is deeper in the right subtree *)
    destruct (transplant_min (Node rll rla rlk rlr) rr ra rk s (Some a)
                (right n) ltac:(done) Hlr Hndr)
      as (nsec' & s1 & ps & Hsec1 & Hps & Hpsin & Hrun1 & Hl1 & Hnext1
          & Hroot1 & Hsec1' & Hfr1).
    fold sec in Hsec1, Hrun1, Hsec1'.
    rewrite Hsec in Hsec1. injection Hsec1 as <-.
    destruct (min_parent_link (Node rll rla rlk rlr) rr ra rk (heap s) (Some a)
                (right n) ltac:(done) Hlr) as (nsec' & Hsec' & Hmp).
    fold sec in Hsec'. rewrite Hsec in Hsec'. injection Hsec' as <-.
    split; [exact Hmp|].
    assert (Hpsa : ps ≠ a) by (intros ->; done).
    rewrite Hps, bool_decide_eq_true_2 by congruence.
    cbn [when]. mstep Hsec. rewrite (bind_ok _ _ _ _ _ Hrun1).
    assert (Hn1 : heap s1 !! a = Some n) by (rewrite Hfr1; done).
    mstep Hn1. rewrite Er.
    unfold set_right.
    rewrite (bind_ok _ _ _ _ _ (update_ok _ _ _ _ Hsec1')).
    set (nsec2 := with_right (Some ra) nsec).
    set (s2 := mkState (<[sec := nsec2]> (heap s1)) (root s1) (next s1)).
    assert (Hsec2 : heap s2 !! sec = Some nsec2) by apply lookup_insert_eq.
    mstep Hsec2. unfold nsec2 at 1. cbn [with_right right].
    assert (Hrasec : ra ≠ sec).
    { intros E. apply Hsecd. rewrite <- E.
      cbn [drop_min]. apply addrs_node. auto. }
    pose proof Hl1 as Hl1'. rewrite Er in Hl1'.
    pose proof (linked_root_key _ _ _ _ Hl1') as Hrk.
    cbn [drop_min] in Hrk. destruct Hrk as (_ & nra1 & Hra1 & _).
    assert (Hra2 : heap s2 !! ra = Some nra1).
    { unfold s2. cbn [heap]. by rewrite lookup_insert_ne. }
    unfold set_parent. rewrite (update_ok _ _ _ _ Hra2).
    eexists _, nsec2. split; [reflexivity|].
    unfold s2. cbn [heap root next].
    split; [|split; [done|split; [done|split; [|split; [done|]]]]].
    + intros b Hb. rewrite !lookup_insert_ne.
      * by apply Hfr1.
      * intros ->. done.
      * intros ->. apply Hb. apply addrs_node. auto.
    + rewrite lookup_insert_ne by done. apply lookup_insert_eq.
    + unfold nsec2. cbn [with_right right].
      apply (linked_reparent _ (heap s1) _ (Some a)); [done|done| |].
      * intros c nc [= <-] Hc. rewrite Hra1 in Hc. injection Hc as <-.
        apply lookup_insert_eq.
      * intros b Hb Hbra. rewrite !lookup_insert_ne; [done| |congruence].
        intros ->. destruct (Htr _ Hb) as [_ ?]. done.
Qed.

(** [deleteNode(root, node)] at the root [a] of a subtree: the three
    cases of the source. *)
Lemma deleteNode_here (s : state) (l r : tree) (a : positive) (ka : Z)
    (up rt : ptr) (fuel : nat) :
  linked (heap s) up (Some a) (Node l a ka r) →
  NoDup (addrs (Node l a ka r)) →
  slot s up (Some a) → (∀ u, up = Some u → u ∉ addrs (Node l a ka r)) →
  rt ≠ None → (depth r ≤ fuel)%nat →
  ∃ s', (BinarySearchTree.deleteNode fuel rt (Some a) s = Ok (rt, s')
         ∧ heap s' !! a = heap s !! a)
        ∧ replaced s s' up (Some a) (Node l a ka r) (del_root l r).
Proof.
  intros Hl Hnd Hslot Hup Hrt Hf.
  pose proof Hl as [_ Hl'].
  destruct (heap s !! a) as [n|] eqn:Hn; [|contradiction].
  destruct Hl' as (Hkey & Hpar & Hll & Hlr). subst up.
  pose proof Hnd as Hnd'.
  change (addrs (Node l a ka r)) with (addrs l ++ a :: addrs r) in Hnd'.
  apply NoDup_app in Hnd' as (Hndl & Hdisj & Hndr).
  apply NoDup_cons in Hndr as [Har Hndr].
  assert (Hal : a ∉ addrs l).
  { intros Hin. apply (Hdisj a Hin). apply list_elem_of_here. }
  assert (Hat : a ∈ addrs (Node l a ka r)) by (apply addrs_node; auto).
  destruct rt as [rt0|]; [|done].
  unfold BinarySearchTree.deleteNode. cbn [is_null].
  mstep Hn.
  destruct l as [|ll al kl lr].
  - (* no left child *)
    simpl in Hll. rewrite Hll. cbn [is_null]. rewrite bind_eq. mstep Hn.
    destruct (transplant_subtree s a n (right n) (Node Leaf a ka r) r
                Hn Hslot Hup Hat Hndr Hlr) as (s' & Hrun & Hrep & Hn').
    { intros b Hb. split; [apply addrs_node; auto | by intros ->]. }
    exists s'. rewrite Hrun. split; [by rewrite Hn' | exact Hrep].
  - pose proof (linked_root_ptr _ _ _ _ Hll) as El. cbn [root_ptr] in El.
    assert (Enl : is_null (left n) = false) by (by rewrite El).
    rewrite Enl. rewrite bind_eq. mstep Hn.
    destruct r as [|rl ra rk rr].
    + (* no right child *)
      simpl in Hlr.
      assert (Enr : is_null (right n) = true) by (by rewrite Hlr).
      rewrite Enr. mstep Hn.
      destruct (transplant_subtree s a n (left n)
                  (Node (Node ll al kl lr) a ka Leaf) (Node ll al kl lr)
                  Hn Hslot Hup Hat Hndl Hll) as (s' & Hrun & Hrep & Hn').
      { intros b Hb. split; [apply addrs_node; auto | by intros ->]. }
      exists s'. rewrite Hrun. split; [by rewrite Hn' | exact Hrep].
    + (* two children *)
      pose proof (linked_root_ptr _ _ _ _ Hlr) as Er. cbn [root_ptr] in Er.
      assert (Enr : is_null (right n) = false) by (by rewrite Er).
      rewrite Enr. mstep Hn.
      destruct (minimumNode_leftmost rl rr ra rk s (right n) fuel
                  (linked_shape _ _ _ _ Hlr) Hf)
        as (Hmin & nsec & Hsec & Hksec & Hlsec).
      rewrite (bind_ok _ _ _ _ _ Hmin). mstep Hsec.
      set (sec := min_addr ra rl) in *.
      assert (Hsecr : sec ∈ addrs (Node rl ra rk rr)).
      { rewrite addrs_drop_min. apply list_elem_of_here. }
      pose proof Hndr as Hndr'. rewrite addrs_drop_min in Hndr'.
      fold sec in Hndr'. apply NoDup_cons in Hndr' as [Hsecd Hndd].
      assert (Htr : ∀ b, b ∈ addrs (drop_min (Node rl ra rk rr)) →
                    b ∈ addrs (Node rl ra rk rr) ∧ b ≠ sec).
      { intros b Hb. split; [|by intros ->].
        rewrite addrs_drop_min. by apply list_elem_of_further. }
      destruct (detach_successor s a n nsec rl rr ra rk Hn Hlr Hndr Har Hsec)
        as (_ & HC).
      fold sec in HC.
      destruct HC as (sC & nsecC & HrunC & HfrC & HrootC & HnextC & HsecC
                      & HkC & HlC).
      rewrite (bind_ok _ _ _ _ _ HrunC).
      destruct (deleteNode_tail s sC a sec n nsecC (Node ll al kl lr)
                  (Node rl ra rk rr) (drop_min (Node rl ra rk rr)) ka
                  Hn Hll ltac:(done) Hnd Hslot Hup HfrC HrootC HnextC HsecC
                  Hsecr HlC Htr) as (s' & Hrun & Hrep & Hn').
      exists s'. rewrite Hrun. split; [by rewrite Hn'|].
      unfold del_root. rewrite HkC, Hksec in Hrep. exact Hrep.
Qed.

Lemma set_child_same (nu : BSTNode) (p : ptr) :
  left nu = p ∨ (left nu ≠ p ∧ right nu = p) → set_child nu p p = nu.
Proof.
  intros H. unfold set_child, with_left, with_right.
  destruct nu as [k h l r pa]. simpl in *.
  case_bool_decide; f_equal; destruct H as [|[]]; congruence.
Qed.

Lemma find_addr (t : tree) (k : Z) (a : positive) :
  find t k = Some a → a ∈ addrs t.
Proof.
  induction t as [|l IHl a0 ka r IHr]; simpl; [done|].
  rewrite elem_of_app, elem_of_cons.
  repeat case_bool_decide; [intros [= ->]; auto | auto | auto].
Qed.

(** A change made at the node where the search for [k] stops, seen from
    a subtree [t] around that node: when the subtree below the node is
    rebuilt as [del_root] says, [t] is rebuilt as [BST_del] says. *)
Lemma replaced_at_find (s : state) (k : Z) (a : positive) (d : nat)
    (Q : ptr → state → Prop) :
  (∀ (l r : tree) (ka : Z) (up : ptr),
     linked (heap s) up (Some a) (Node l a ka r) →
     NoDup (addrs (Node l a ka r)) → slot s up (Some a) →
     (∀ u, up = Some u → u ∉ addrs (Node l a ka r)) →
     (depth (Node l a ka r) ≤ d)%nat →
     ∃ s', Q (del_start up l r) s'
           ∧ replaced s s' up (Some a) (Node l a ka r) (del_root l r)) →
  ∀ (t : tree) (up : ptr),
    linked (heap s) up (root_ptr t) t → NoDup (addrs t) →
    slot s up (root_ptr t) → (∀ u, up = Some u → u ∉ addrs t) →
    find t k = Some a → (depth t ≤ d)%nat →
    ∃ s', Q (BST_del_start up t k) s'
          ∧ replaced s s' up (root_ptr t) t (BST_del t k).
Proof.
  intros Hhere.
  induction t as [|l IHl a0 ka r IHr];
    intros up Hl Hnd Hslot Hup Hfind Hf; [discriminate|].
  cbn [find BST_del BST_del_start root_ptr] in *.
  case_bool_decide as Hk.
  { injection Hfind as <-. by apply Hhere. }
  pose proof Hl as [_ Hl'].
  destruct (heap s !! a0) as [n|] eqn:Hn; [|contradiction].
  destruct Hl' as (Hkey & Hpar & Hll & Hlr).
  pose proof Hnd as Hnd'.
  change (addrs (Node l a0 ka r)) with (addrs l ++ a0 :: addrs r) in Hnd'.
  apply NoDup_app in Hnd' as (Hndl & Hdisj & Hndr).
  apply NoDup_cons in Hndr as [Har Hndr].
  assert (Hal : a0 ∉ addrs l).
  { intros Hin. apply (Hdisj a0 Hin). apply list_elem_of_here. }
  assert (Hlr' : ∀ b, b ∈ addrs l → b ∉ addrs r).
  { intros b Hb Hb'. apply (Hdisj b Hb). by apply list_elem_of_further. }
  pose proof (linked_root_ptr _ _ _ _ Hll) as El.
  pose proof (linked_root_ptr _ _ _ _ Hlr) as Er.
  assert (Hupt : ∀ u, up = Some u →
                 (u ∉ addrs l) ∧ u ≠ a0 ∧ (u ∉ addrs r)).
  { intros u E. specialize (Hup u E). rewrite addrs_node in Hup. tauto. }
  assert (Hupper : match up with
                   | None => root s = Some a0
                   | Some u => ∃ nu, heap s !! u = Some nu
                                 ∧ set_child nu (Some a0) (Some a0) = nu
                   end).
  { destruct up as [u|]; [|exact Hslot]. unfold slot in Hslot.
    destruct (heap s !! u) as [nu|]; [|done].
    exists nu. split; [done|]. by apply set_child_same. }
  simpl in Hf.
  case_bool_decide as Hlt.
  - destruct (IHl (Some a0)) as (s' & Hrun & Hrep); try done.
    + by rewrite <- El.
    + unfold slot. rewrite Hn. by left.
    + intros u [= <-]. done.
    + lia.
    + exists s'. split; [exact Hrun|].
      destruct Hrep as (Hl' & Hnext & (Hroot & nu & Hu & Hu') & Hfr).
      rewrite Hn in Hu. injection Hu as <-.
      unfold set_child in Hu'.
      rewrite bool_decide_eq_true_2 in Hu' by (by rewrite El).
      split; [|split; [done|split]].
      * cbn [root_ptr]. split; [done|]. rewrite Hu'.
        cbn [with_left key parent left right].
        split; [done|]. split; [done|]. split; [exact Hl'|].
        apply (linked_frame _ (heap s)); [done|]. intros b Hb. apply Hfr.
        -- intros Hb'. exact (Hlr' _ Hb' Hb).
        -- intros [= ->]. done.
      * cbn [root_ptr]. destruct up as [u|].
        -- destruct (Hupt u eq_refl) as (Hul & Hua & Hur).
           destruct Hupper as (nu & Hu & Esame).
           split; [done|]. exists nu. split; [done|]. rewrite Esame.
           rewrite Hfr; [done|done|congruence].
        -- congruence.
      * intros b Hb Hbup. rewrite addrs_node in Hb.
        apply Hfr; [tauto|]. intros [= ->]. tauto.
  - assert (Hrne : root_ptr r ≠ left n).
    { rewrite El. destruct r as [|rl ra rk rr]; [discriminate|].
      cbn [root_ptr]. intros E. symmetry in E. apply root_ptr_addr in E.
      apply (Hlr' _ E). apply addrs_node. auto. }
    destruct (IHr (Some a0)) as (s' & Hrun & Hrep); try done.
    + by rewrite <- Er.
    + unfold slot. rewrite Hn. right. split; [congruence | done].
    + intros u [= <-]. done.
    + lia.
    + exists s'. split; [exact Hrun|].
      destruct Hrep as (Hl' & Hnext & (Hroot & nu & Hu & Hu') & Hfr).
      rewrite Hn in Hu. injection Hu as <-.
      unfold set_child in Hu'.
      rewrite bool_decide_eq_false_2 in Hu' by done.
      split; [|split; [done|split]].
      * cbn [root_ptr]. split; [done|]. rewrite Hu'.
        cbn [with_right key parent left right].
        split; [done|]. split; [done|]. split; [|exact Hl'].
        apply (linked_frame _ (heap s)); [done|]. intros b Hb. apply Hfr.
        -- intros Hb'. exact (Hlr' _ Hb Hb').
        -- intros [= ->]. done.
      * cbn [root_ptr]. destruct up as [u|].
        -- destruct (Hupt u eq_refl) as (Hul & Hua & Hur).
           destruct Hupper as (nu & Hu & Esame).
           split; [done|]. exists nu. split; [done|]. rewrite Esame.
           rewrite Hfr; [done|done|congruence].
        -- congruence.
      * intros b Hb Hbup. rewrite addrs_node in Hb.
        apply Hfr; [tauto|]. intros [= ->]. tauto.
Qed.

(** [deleteNode(root, node)] for the node at which the search for [k]
    stops, anywhere in the tree [t]: the subtree below that node is
    rebuilt as [del_root] says and the rest of [t] stays as it is. *)
Lemma deleteNode_effect (t : tree) :
  ∀ (s : state) (up rt : ptr) (k : Z) (a : positive) (fuel : nat),
    linked (heap s) up (root_ptr t) t → NoDup (addrs t) →
    slot s up (root_ptr t) → (∀ u, up = Some u → u ∉ addrs t) →
    find t k = Some a → rt ≠ None → (depth t ≤ fuel)%nat →
    ∃ s', (BinarySearchTree.deleteNode fuel rt (Some a) s = Ok (rt, s')
           ∧ heap s' !! a = heap s !! a)
          ∧ replaced s s' up (root_ptr t) t (BST_del t k).
Proof.
  intros s up rt k a fuel Hl Hnd Hslot Hup Hfind Hrt Hf.
  apply (replaced_at_find s k a fuel
           (λ _ s', BinarySearchTree.deleteNode fuel rt (Some a) s
                    = Ok (rt, s')
                    ∧ heap s' !! a = heap s !! a)); try done.
  intros l r ka up' Hl' Hnd' Hslot' Hup' Hf'.
  apply deleteNode_here; try done. simpl in Hf'. lia.
Qed.

(** *** The shape after a removal *)

Lemma keys_del_root (l r : tree) : keys (del_root l r) = keys l ++ keys r.
Proof.
  destruct l as [|ll al kl lr]; [done|].
  destruct r as [|rl ra rk rr]; [by rewrite app_nil_r|].
  unfold del_root. cbn [keys]. by rewrite <- keys_drop_min.
Qed.

Lemma addrs_del_root (l r : tree) : addrs (del_root l r) = addrs l ++ addrs r.
Proof.
  destruct l as [|ll al kl lr]; [done|].
  destruct r as [|rl ra rk rr]; [by rewrite app_nil_r|].
  unfold del_root. cbn [addrs]. by rewrite <- addrs_drop_min.
Qed.

Lemma keys_BST_del (t : tree) (k : Z) (a : positive) :
  find t k = Some a → keys t ≡ₚ k :: keys (BST_del t k).
Proof.
  induction t as [|l IHl a0 ka r IHr]; [discriminate|].
  cbn [find BST_del keys]. repeat case_bool_decide; intros Hfind.
  - subst ka. rewrite keys_del_root. symmetry. apply Permutation_middle.
  - cbn [keys]. by rewrite (IHl Hfind).
  - cbn [keys]. rewrite (IHr Hfind).
    rewrite <- !Permutation_middle. apply perm_swap.
Qed.

Lemma addrs_BST_del (t : tree) (k : Z) (a : positive) :
  find t k = Some a → addrs t ≡ₚ a :: addrs (BST_del t k).
Proof.
  induction t as [|l IHl a0 ka r IHr]; [discriminate|].
  cbn [find BST_del addrs]. repeat case_bool_decide; intros Hfind.
  - injection Hfind as <-. rewrite addrs_del_root. symmetry.
    apply Permutation_middle.
  - cbn [addrs]. by rewrite (IHl Hfind).
  - cbn [addrs]. rewrite (IHr Hfind).
    rewrite <- !Permutation_middle. apply perm_swap.
Qed.

Lemma all_keys_Forall (P : Z → Prop) (t : tree) :
  all_keys P t ↔ Forall P (keys t).
Proof.
  induction t as [|l IHl a k r IHr]; simpl.
  - split; [intros _; apply Forall_nil_2 | done].
  - rewrite Forall_app, Forall_cons, IHl, IHr. reflexivity.
Qed.

Lemma all_keys_drop_min (P : Z → Prop) (l r : tree) (a : positive) (k : Z) :
  all_keys P (Node l a k r) → all_keys P (drop_min (Node l a k r)).
Proof.
  rewrite !all_keys_Forall, keys_drop_min, Forall_cons. tauto.
Qed.

Lemma all_keys_del_root (P : Z → Prop) (l r : tree) :
  all_keys P l → all_keys P r → all_keys P (del_root l r).
Proof.
  rewrite !all_keys_Forall, keys_del_root, Forall_app. tauto.
Qed.

Lemma all_keys_BST_del (P : Z → Prop) (t : tree) (k : Z) :
  all_keys P t → all_keys P (BST_del t k).
Proof.
  induction t as [|l IHl a ka r IHr]; [done|].
  cbn [BST_del]. intros (Hl & Hk & Hr).
  repeat case_bool_decide; [by apply all_keys_del_root | |]; simpl; auto.
Qed.

Lemma ordered_dup_drop_min (l : tree) :
  ∀ (r : tree) (a : positive) (k : Z),
    ordered_dup (Node l a k r) → ordered_dup (drop_min (Node l a k r)).
Proof.
  induction l as [|ll IH la lk lr _]; intros r a k (Hlt & Hge & Hol & Hor);
    [exact Hor|].
  change (drop_min (Node (Node ll la lk lr) a k r))
    with (Node (drop_min (Node ll la lk lr)) a k r).
  split; [by apply all_keys_drop_min|]. split; [done|].
  split; [by apply IH | done].
Qed.

Lemma ordered_drop_min (l : tree) :
  ∀ (r : tree) (a : positive) (k : Z),
    ordered (Node l a k r) →
    ordered (drop_min (Node l a k r))
    ∧ all_keys (λ x, min_key k l < x) (drop_min (Node l a k r)).
Proof.
  induction l as [|ll IH la lk lr _]; intros r a k (Hlt & Hgt & Hol & Hor);
    [done|].
  change (drop_min (Node (Node ll la lk lr) a k r))
    with (Node (drop_min (Node ll la lk lr)) a k r).
  change (min_key k (Node ll la lk lr)) with (min_key lk ll).
  destruct (IH lr la lk Hol) as [Hod Hmin].
  assert (Hmk : min_key lk ll < k).
  { exact (all_keys_elem _ _ _ Hlt (min_key_elem ll lr la lk)). }
  split.
  - split; [by apply all_keys_drop_min|]. done.
  - split; [exact Hmin|]. split; [exact Hmk|].
    eapply all_keys_weaken; [|exact Hgt]. simpl. intros x Hx. lia.
Qed.

Lemma ordered_dup_BST_del (t : tree) (k : Z) :
  ordered_dup t → ordered_dup (BST_del t k).
Proof.
  induction t as [|l IHl a ka r IHr]; [done|].
  cbn [BST_del]. intros (Hlt & Hge & Hol & Hor).
  repeat case_bool_decide.
  - destruct l as [|ll al kl lr]; [exact Hor|].
    destruct r as [|rl ra rk rr]; [exact Hol|].
    unfold del_root.
    destruct (min_key_least rl rr ra rk Hor) as [_ Hleast].
    assert (Hmk : ka ≤ min_key rk rl).
    { exact (all_keys_elem _ _ _ Hge (min_key_elem rl rr ra rk)). }
    split; [|split; [|split]].
    + eapply all_keys_weaken; [|exact Hlt]. simpl. intros x Hx. lia.
    + by apply all_keys_drop_min.
    + done.
    + by apply ordered_dup_drop_min.
  - split; [by apply all_keys_BST_del|]. split; [done|]. auto.
  - split; [done|]. split; [by apply all_keys_BST_del|]. auto.
Qed.

Lemma ordered_BST_del (t : tree) (k : Z) :
  ordered t → ordered (BST_del t k).
Proof.
  induction t as [|l IHl a ka r IHr]; [done|].
  cbn [BST_del]. intros (Hlt & Hgt & Hol & Hor).
  repeat case_bool_decide.
  - destruct l as [|ll al kl lr]; [exact Hor|].
    destruct r as [|rl ra rk rr]; [exact Hol|].
    unfold del_root.
    destruct (ordered_drop_min rl rr ra rk Hor) as [Hod Hmin].
    assert (Hmk : ka < min_key rk rl).
    { exact (all_keys_elem _ _ _ Hgt (min_key_elem rl rr ra rk)). }
    split; [|split; [|split]]; [|done..].
    eapply all_keys_weaken; [|exact Hlt]. simpl. intros x Hx. lia.
  - split; [by apply all_keys_BST_del|]. split; [done|]. auto.
  - split; [done|]. split; [by apply all_keys_BST_del|]. auto.
Qed.

Lemma BST_del_drops_key (t : tree) (k : Z) :
  ordered t → k ∉ keys (BST_del t k).
Proof.
  induction t as [|l IHl a ka r IHr]; [intros _; apply not_elem_of_nil|].
  cbn [BST_del]. intros (Hlt & Hgt & Hol & Hor).
  repeat case_bool_decide.
  - subst ka. rewrite keys_del_root, elem_of_app. intros [Hin | Hin].
    + pose proof (all_keys_elem _ _ _ Hlt Hin) as Hx. simpl in Hx. lia.
    + pose proof (all_keys_elem _ _ _ Hgt Hin) as Hx. simpl in Hx. lia.
  - rewrite keys_node. intros [Hin | [-> | Hin]]; [by apply IHl | done |].
    pose proof (all_keys_elem _ _ _ Hgt Hin) as Hx. simpl in Hx. lia.
  - rewrite keys_node. intros [Hin | [-> | Hin]]; [| done | by apply IHr].
    pose proof (all_keys_elem _ _ _ Hlt Hin) as Hx. simpl in Hx. lia.
Qed.

Lemma depth_drop_min (t : tree) : (depth (drop_min t) ≤ depth t)%nat.
Proof.
  induction t as [|l IHl a k r _]; [done|].
  destruct l as [|ll la lk lr]; [simpl; lia|].
  change (drop_min (Node (Node ll la lk lr) a k r))
    with (Node (drop_min (Node ll la lk lr)) a k r).
  cbn [depth] in *. lia.
Qed.

Lemma depth_BST_del (t : tree) (k : Z) : (depth (BST_del t k) ≤ depth t)%nat.
Proof.
  induction t as [|l IHl a ka r IHr]; [done|].
  cbn [BST_del]. repeat case_bool_decide; [|cbn [depth]; lia..].
  destruct l as [|ll al kl lr]; [simpl; lia|].
  destruct r as [|rl ra rk rr]; [simpl; lia|].
  unfold del_root. pose proof (depth_drop_min (Node rl ra rk rr)).
  cbn [depth] in *. lia.
Qed.

Lemma BST_del_BST_ins (t : tree) (k : Z) (a' : positive) :
  k ∉ keys t → BST_del (BST_ins t k a') k = t.
Proof.
  induction t as [|l IHl a ka r IHr]; intros Hk.
  - simpl. by rewrite bool_decide_eq_true_2.
  - rewrite keys_node in Hk. cbn [BST_ins].
    case_bool_decide as Hlt; cbn [BST_del].
    + rewrite bool_decide_eq_false_2 by (intros ->; tauto).
      rewrite bool_decide_eq_true_2 by done. rewrite IHl; tauto.
    + rewrite bool_decide_eq_false_2 by (intros ->; tauto).
      rewrite bool_decide_eq_false_2 by done. rewrite IHr; tauto.
Qed.

Lemma find_BST_ins (t : tree) (k : Z) (a' : positive) :
  k ∉ keys t → find (BST_ins t k a') k = Some a'.
Proof.
  induction t as [|l IHl a ka r IHr]; intros Hk.
  - simpl. by rewrite bool_decide_eq_true_2.
  - rewrite keys_node in Hk. cbn [BST_ins].
    case_bool_decide as Hlt; cbn [find].
    + rewrite bool_decide_eq_false_2 by (intros ->; tauto).
      rewrite bool_decide_eq_true_2 by done. apply IHl; tauto.
    + rewrite bool_decide_eq_false_2 by (intros ->; tauto).
      rewrite bool_decide_eq_false_2 by done. apply IHr; tauto.
Qed.

(** [remove(key)] where the search stops at a node: the tree is rebuilt
    as [BST_del] says, and no node outside it is written. *)
Lemma BST_remove_effect (s : state) (t : tree) (k : Z) (a : positive)
    (fuel : nat) :
  tree_at s t → find t k = Some a → (depth t < fuel)%nat →
  ∃ s', BinarySearchTree.remove fuel k s = Ok (tt, s')
        ∧ tree_at s' (BST_del t k) ∧ next s' = next s
        ∧ (∀ b, b ∉ addrs t → heap s' !! b = heap s !! b)
        ∧ heap s' !! a = heap s !! a.
Proof.
  intros (Hl & Hnd & Hfr) Hfind Hf.
  pose proof (linked_root_ptr _ _ _ _ Hl) as Eroot.
  assert (Hrt : root s ≠ None).
  { rewrite Eroot. destruct t; [discriminate | done]. }
  destruct (deleteNode_effect t s None (root s) k a fuel)
    as (s' & (Hrun & Hkeep) & Hrep); try done.
  { by rewrite <- Eroot. }
  { lia. }
  destruct Hrep as (Hl' & Hnext & Hroot' & Hframe).
  exists s'. split.
  { unfold BinarySearchTree.remove. rewrite bind_eq. cbn [get_root].
    rewrite (bind_ok _ _ _ _ _
               (searchNode_find t s (root s) k fuel (linked_shape _ _ _ _ Hl) Hf)).
    rewrite Hfind, (bind_ok _ _ _ _ _ Hrun). reflexivity. }
  pose proof (addrs_BST_del t k a Hfind) as Hperm.
  split; [|split; [done|split; [|done]]].
  - split; [by rewrite Hroot'|].
    rewrite Hperm in Hnd, Hfr.
    apply NoDup_cons in Hnd as [_ Hnd]. apply Forall_cons in Hfr as [_ Hfr].
    split; [done|]. by rewrite Hnext.
  - intros b Hb. by apply Hframe.
Qed.

(** X16: [BinarySearchTree::remove(key)] of a key the tree holds, on a
    well-formed tree in search-tree order, returns with a well-formed
    tree again: exactly one node and one occurrence of [key] less, the
    order kept, no deeper than before, no new address handed out and no
    node outside the tree written.  When the keys are distinct, [key] is
    gone. *)
Theorem BST_remove_present_key (s : state) (t : tree) (k : Z) (fuel : nat) :
  tree_at s t → ordered_dup t → k ∈ keys t → (depth t < fuel)%nat →
  ∃ s' t', BinarySearchTree.remove fuel k s = Ok (tt, s')
           ∧ tree_at s' t'
           ∧ keys t ≡ₚ k :: keys t'
           ∧ (∃ a, addrs t ≡ₚ a :: addrs t')
           ∧ (depth t' ≤ depth t)%nat
           ∧ ordered_dup t'
           ∧ (ordered t → ordered t' ∧ k ∉ keys t')
           ∧ next s' = next s
           ∧ ∀ b, b ∉ addrs t → heap s' !! b = heap s !! b.
Proof.
  intros Ht Ho Hk Hf.
  destruct (find_present t k Ho Hk) as [a Ha].
  destruct (BST_remove_effect s t k a fuel Ht Ha Hf)
    as (s' & Hrun & Ht' & Hnext & Hfr & _).
  exists s', (BST_del t k).
  split; [exact Hrun|]. split; [exact Ht'|].
  split; [exact (keys_BST_del t k a Ha)|].
  split; [exists a; exact (addrs_BST_del t k a Ha)|].
  split; [apply depth_BST_del|]. split; [by apply ordered_dup_BST_del|].
  split; [|split; [exact Hnext | exact Hfr]].
  intros Hs. split; [by apply ordered_BST_del | by apply BST_del_drops_key].
Qed.

(** X17: after [BinarySearchTree::remove(key)] on a well-formed tree
    with distinct keys in search-tree order, [search(key)] returns null
    and every other key of the tree is still found. *)
Theorem BST_search_after_remove (s : state) (t : tree) (k : Z) (fuel : nat) :
  tree_at s t → ordered t → k ∈ keys t → (depth t < fuel)%nat →
  ∃ s', BinarySearchTree.remove fuel k s = Ok (tt, s')
        ∧ BinarySearchTree.search fuel k s' = Ok (None, s')
        ∧ ∀ k', k' ∈ keys t → k' ≠ k →
            ∃ a n, BinarySearchTree.search fuel k' s' = Ok (Some a, s')
                   ∧ heap s' !! a = Some n ∧ key n = k'.
Proof.
  intros Ht Hs Hk Hf.
  pose proof (ordered_ordered_dup t Hs) as Ho.
  destruct (find_present t k Ho Hk) as [a Ha].
  destruct (BST_remove_effect s t k a fuel Ht Ha Hf)
    as (s' & Hrun & Ht' & _ & _).
  exists s'. split; [exact Hrun|].
  pose proof (depth_BST_del t k) as Hd.
  pose proof (ordered_dup_BST_del t k Ho) as Ho'.
  split.
  - apply (search_in_tree_at s' (BST_del t k) fuel k Ht' Ho' ltac:(lia)).
    by apply BST_del_drops_key.
  - intros k' Hk' Hne.
    apply (search_in_tree_at s' (BST_del t k) fuel k' Ht' Ho' ltac:(lia)).
    rewrite (keys_BST_del t k a Ha), elem_of_cons in Hk'.
    destruct Hk' as [-> | Hk']; [done | exact Hk'].
Qed.

(** X18: [insert(key)] of a key the tree does not hold, followed by
    [remove(key)], gives back the tree as it was: the same nodes at the
    same addresses with the same links; the nodes outside the tree other
    than the new one are not written. *)
Theorem BST_remove_undoes_insert (s : state) (t : tree) (k : Z) (fuel : nat) :
  tree_at s t → k ∉ keys t → (S (depth t) < fuel)%nat →
  ∃ s1 s2, BinarySearchTree.insert fuel k s = Ok (tt, s1)
           ∧ BinarySearchTree.remove fuel k s1 = Ok (tt, s2)
           ∧ tree_at s2 t
           ∧ ∀ b, b ∉ addrs t → b ≠ next s → heap s2 !! b = heap s !! b.
Proof.
  intros Ht Hk Hf.
  destruct (BST_insert_effect s t k fuel Ht ltac:(lia))
    as (s1 & Hins & Ht1 & Hnext1 & Hfr1).
  pose proof (depth_BST_ins t k (next s)) as Hd.
  destruct (BST_remove_effect s1 _ k (next s) fuel Ht1
              (find_BST_ins t k (next s) Hk) ltac:(lia))
    as (s2 & Hrem & Ht2 & Hnext2 & Hfr2 & _).
  rewrite BST_del_BST_ins in Ht2 by done.
  exists s1, s2. split; [exact Hins|]. split; [exact Hrem|].
  split; [exact Ht2|].
  intros b Hb Hbn. rewrite Hfr2; [by apply Hfr1|].
  rewrite addrs_BST_ins, not_elem_of_cons. done.
Qed.

Lemma ordered_20_10_30 : ordered shape_20_10_30.
Proof. simpl. lia. Qed.

Lemma key_20_in_20_10_30 : 20 ∈ keys shape_20_10_30.
Proof. apply keys_node. right. by left. Qed.

Lemma key_25_not_in_20_10_30 : 25 ∉ keys shape_20_10_30.
Proof.
  simpl. rewrite !not_elem_of_cons. repeat split; [lia..|].
  apply not_elem_of_nil.
Qed.

Lemma BST_remove_present_key_witness :
  tree_at tree_20_10_30 shape_20_10_30
  ∧ ordered_dup shape_20_10_30
  ∧ 20 ∈ keys shape_20_10_30
  ∧ ∃ s' t', BinarySearchTree.remove 3 20 tree_20_10_30 = Ok (tt, s')
             ∧ tree_at s' t'
             ∧ keys shape_20_10_30 ≡ₚ 20 :: keys t'
             ∧ (∃ a, addrs shape_20_10_30 ≡ₚ a :: addrs t')
             ∧ (depth t' ≤ depth shape_20_10_30)%nat
             ∧ ordered_dup t'
             ∧ (ordered shape_20_10_30 → ordered t' ∧ 20 ∉ keys t')
             ∧ next s' = next tree_20_10_30
             ∧ ∀ b, b ∉ addrs shape_20_10_30 →
                    heap s' !! b = heap tree_20_10_30 !! b.
Proof.
  split; [exact tree_at_20_10_30|]. split; [exact ordered_dup_20_10_30|].
  split; [exact key_20_in_20_10_30|].
  apply (BST_remove_present_key tree_20_10_30 shape_20_10_30 20 3
           tree_at_20_10_30 ordered_dup_20_10_30 key_20_in_20_10_30).
  simpl. lia.
Defined.

Lemma BST_search_after_remove_witness :
  tree_at tree_20_10_30 shape_20_10_30
  ∧ ordered shape_20_10_30
  ∧ 20 ∈ keys shape_20_10_30
  ∧ ∃ s', BinarySearchTree.remove 3 20 tree_20_10_30 = Ok (tt, s')
          ∧ BinarySearchTree.search 3 20 s' = Ok (None, s')
          ∧ ∀ k', k' ∈ keys shape_20_10_30 → k' ≠ 20 →
              ∃ a n, BinarySearchTree.search 3 k' s' = Ok (Some a, s')
                     ∧ heap s' !! a = Some n ∧ key n = k'.
Proof.
  split; [exact tree_at_20_10_30|]. split; [exact ordered_20_10_30|].
  split; [exact key_20_in_20_10_30|].
  apply (BST_search_after_remove tree_20_10_30 shape_20_10_30 20 3
           tree_at_20_10_30 ordered_20_10_30 key_20_in_20_10_30).
  simpl. lia.
Defined.

Lemma BST_remove_undoes_insert_witness :
  tree_at tree_20_10_30 shape_20_10_30
  ∧ (25 ∉ keys shape_20_10_30)
  ∧ ∃ s1 s2, BinarySearchTree.insert 4 25 tree_20_10_30 = Ok (tt, s1)
             ∧ BinarySearchTree.remove 4 25 s1 = Ok (tt, s2)
             ∧ tree_at s2 shape_20_10_30
             ∧ ∀ b, b ∉ addrs shape_20_10_30 → b ≠ next tree_20_10_30 →
                    heap s2 !! b = heap tree_20_10_30 !! b.
Proof.
  split; [exact tree_at_20_10_30|]. split; [exact key_25_not_in_20_10_30|].
  apply (BST_remove_undoes_insert tree_20_10_30 shape_20_10_30 25 4
           tree_at_20_10_30 key_25_not_in_20_10_30).
  simpl. lia.
Defined.

(** ** AVLTree::remove where no rotation is due *)

Lemma AVL_deleteNode_cases (fuel : nat) (rt : ptr) (a : positive) :
  AVLTree.deleteNode fuel rt (Some a)
  = (parent ← get_parent (Some a);
     nl ← get_left (Some a);
     childless ← and_then (is_null nl)
                   (nr ← get_right (Some a); mret (is_null nr));
     rebalanceStart ← unlink_cases fuel (Some a) childless;
     AVLTree.deleteNode_loop fuel
       (if not_null rebalanceStart then rebalanceStart else parent);;
     get_root).
Proof. reflexivity. Qed.

Lemma bind_inv {A B} (m : M A) (f : A → M B) (s s' : state) (b : B) :
  (m ≫= f) s = Ok (b, s') → ∃ a s1, m s = Ok (a, s1) ∧ f a s1 = Ok (b, s').
Proof.
  rewrite bind_eq. destruct (m s) as [[a s1]| |]; [eauto | done..].
Qed.

Lemma load_inv (p : ptr) (s s' : state) (n : BSTNode) :
  load p s = Ok (n, s') → s' = s.
Proof.
  unfold load. destruct p as [a|]; [|done].
  destruct (heap s !! a); [|done]. by intros [= _ <-].
Qed.

(** *** What the unlinking never writes: a cached height *)

Lemma kh_ret {A} (a : A) : keeps_heights (mret (M := M) a).
Proof. intros s s' y [= _ <-] b _. reflexivity. Qed.

Lemma kh_bind {A B} (m : M A) (f : A → M B) :
  keeps_heights m → (∀ a, keeps_heights (f a)) → keeps_heights (m ≫= f).
Proof.
  intros Hm Hf s s' y H b Hb.
  apply bind_inv in H as (x & s1 & E & H).
  pose proof (Hf x s1 s' y H b Hb) as E1. rewrite E1.
  apply (Hm s s1 x E).
  destruct Hb as [nb Hnb]. rewrite Hnb in E1.
  destruct (heap s1 !! b); [eauto | discriminate].
Qed.

Lemma kh_load (p : ptr) : keeps_heights (load p).
Proof. intros s s' n H b _. by rewrite (load_inv _ _ _ _ H). Qed.

Lemma kh_update (p : ptr) (f : BSTNode → BSTNode) :
  (∀ n, height (f n) = height n) → keeps_heights (update p f).
Proof.
  intros Hf s s' y H b _. unfold update in H.
  destruct p as [x|]; [|done].
  destruct (heap s !! x) as [n|] eqn:Hn; [|done].
  injection H as _ <-. cbn [heap].
  destruct (decide (b = x)) as [->|Hne].
  - rewrite lookup_insert_eq, Hn. simpl. by rewrite Hf.
  - by rewrite lookup_insert_ne.
Qed.

Lemma kh_set_root (p : ptr) : keeps_heights (set_root p).
Proof. intros s s' y [= _ <-] b _. reflexivity. Qed.

Lemma kh_delete_node (p : ptr) : keeps_heights (delete_node p).
Proof.
  intros s s' y H b Hb. unfold delete_node in H.
  destruct p as [x|]; [|by injection H as _ <-].
  destruct (heap s !! x) as [n|]; [|done].
  injection H as _ <-. cbn [heap] in *.
  destruct (decide (b = x)) as [->|Hne].
  - rewrite lookup_delete_eq in Hb. by destruct Hb.
  - by rewrite lookup_delete_ne.
Qed.

Ltac kh :=
  repeat first
    [ apply kh_ret | apply kh_load | apply kh_set_root | apply kh_delete_node
    | apply kh_update; intros []; reflexivity
    | apply kh_bind; [|intros ?]
    | match goal with
      | |- keeps_heights (if ?c then _ else _) => destruct c
      | |- keeps_heights (when ?c _) => destruct c; cbn [when]
      | |- keeps_heights (and_then ?c _) => destruct c; cbn [and_then]
      end ].

Lemma kh_transplant (u v : ptr) :
  keeps_heights (BinarySearchTree.transplant u v).
Proof.
  unfold BinarySearchTree.transplant, get_parent, get_left, set_left,
    set_right, set_parent, when. kh.
Qed.

Lemma kh_minimumNode (fuel : nat) :
  ∀ p, keeps_heights (BinarySearchTree.minimumNode fuel p).
Proof.
  induction fuel as [|fuel IH]; intros p; [by intros s s' y H|].
  cbn [BinarySearchTree.minimumNode]. unfold get_left.
  kh. apply IH.
Qed.

Lemma kh_unlink_cases (fuel : nat) (node : ptr) (childless : bool) :
  keeps_heights (unlink_cases fuel node childless).
Proof.
  unfold unlink_cases, get_parent, get_left, get_right, set_left, set_right,
    set_parent.
  kh; first [apply kh_transplant | apply kh_minimumNode].
Qed.

Lemma heights_keep (t : tree) :
  ∀ (h h' : gmap positive BSTNode),
    heights h t →
    (∀ b, b ∈ addrs t → height <$> (h' !! b) = height <$> (h !! b)) →
    heights h' t.
Proof.
  induction t as [|l IHl a k r IHr]; intros h h' Hh Hfr; [exact I|].
  destruct Hh as (Ha & Hl & Hr). split; [|split].
  - pose proof (Hfr a ltac:(apply addrs_node; auto)) as E.
    destruct (h !! a) as [n|]; [|done].
    destruct (h' !! a) as [n'|]; [|done].
    simpl in E. injection E as E. by rewrite E.
  - apply (IHl h); [done|]. intros b Hb. apply Hfr. apply addrs_node. auto.
  - apply (IHr h); [done|]. intros b Hb. apply Hfr. apply addrs_node. auto.
Qed.

Lemma heights_off_keep (t : tree) :
  ∀ (h h' : gmap positive BSTNode) (c : positive),
    heights_off h c t →
    (∀ b, b ∈ addrs t → height <$> (h' !! b) = height <$> (h !! b)) →
    heights_off h' c t.
Proof.
  induction t as [|l IHl a k r IHr]; intros h h' c Hh Hfr; [exact Hh|].
  assert (Hfl : ∀ b, b ∈ addrs l → height <$> (h' !! b) = height <$> (h !! b)).
  { intros b Hb. apply Hfr. apply addrs_node. auto. }
  assert (Hfr' : ∀ b, b ∈ addrs r →
                 height <$> (h' !! b) = height <$> (h !! b)).
  { intros b Hb. apply Hfr. apply addrs_node. auto. }
  destruct Hh as [(Ha & Hl & Hr) | [(Hl & Hr) | (Hl & Hr)]].
  - left. split; [done|]. split; by eapply heights_keep.
  - right. left. split; [by eapply IHl | by eapply heights_keep].
  - right. right. split; [by eapply heights_keep | by eapply IHr].
Qed.

Lemma heights_off_addr (t : tree) (h : gmap positive BSTNode) (c : positive) :
  heights_off h c t → c ∈ addrs t.
Proof.
  induction t as [|l IHl a k r IHr]; [done|].
  intros [(-> & _) | [(Hl & _) | (_ & Hr)]]; apply addrs_node; auto.
Qed.

Lemma heights_off_drop_min (rl : tree) :
  ∀ (rr : tree) (ra : positive) (rk : Z) (h : gmap positive BSTNode),
    rl ≠ Leaf → heights h (Node rl ra rk rr) →
    heights_off h (min_parent ra rl) (drop_min (Node rl ra rk rr)).
Proof.
  induction rl as [|rll IH rla rlk rlr _]; intros rr ra rk h Hne Hh; [done|].
  destruct Hh as (_ & Hhl & Hhr).
  destruct rll as [|rlll rlla rllk rllr].
  - cbn [drop_min min_parent]. left. destruct Hhl as (_ & _ & Hhlr). done.
  - change (min_parent ra (Node (Node rlll rlla rllk rllr) rla rlk rlr))
      with (min_parent rla (Node rlll rlla rllk rllr)).
    change (drop_min (Node (Node (Node rlll rlla rllk rllr) rla rlk rlr)
                        ra rk rr))
      with (Node (drop_min (Node (Node rlll rlla rllk rllr) rla rlk rlr))
              ra rk rr).
    right. left. split; [|done]. by apply IH.
Qed.

Lemma heights_del_root (h : gmap positive BSTNode) (up : ptr) (l r : tree)
    (a : positive) (ka : Z) :
  heights h (Node l a ka r) →
  (del_start up l r = up ∧ heights h (del_root l r))
  ∨ (∃ c, del_start up l r = Some c ∧ heights_off h c (del_root l r)).
Proof.
  intros (_ & Hhl & Hhr).
  destruct l as [|ll al kl lr]; destruct r as [|rl ra rk rr].
  - by left.
  - right. exists ra. split; [done|]. left. destruct Hhr as (_ & ? & ?). done.
  - right. exists al. split; [done|]. left. destruct Hhl as (_ & ? & ?). done.
  - right. destruct rl as [|rll rla rlk rlr].
    + exists ra. split; [done|]. left. destruct Hhr as (_ & ? & ?). done.
    + exists (min_parent ra (Node rll rla rlk rlr)). split; [done|].
      unfold del_root. right. right. split; [done|].
      by apply heights_off_drop_min.
Qed.

Lemma heights_BST_del (h : gmap positive BSTNode) (t : tree) :
  ∀ (up : ptr) (k : Z) (a : positive),
    heights h t → find t k = Some a →
    (BST_del_start up t k = up ∧ heights h (BST_del t k))
    ∨ (∃ c, BST_del_start up t k = Some c ∧ heights_off h c (BST_del t k)).
Proof.
  induction t as [|l IHl a0 ka r IHr]; intros up k a Hh Hfind; [discriminate|].
  cbn [find BST_del BST_del_start] in *.
  case_bool_decide as Hk; [by eapply heights_del_root|].
  destruct Hh as (_ & Hhl & Hhr). right.
  case_bool_decide as Hlt.
  - destruct (IHl (Some a0) k a Hhl Hfind) as [[E Hh'] | (c & E & Hh')];
      rewrite E.
    + exists a0. split; [done|]. by left.
    + exists c. split; [done|]. right. by left.
  - destruct (IHr (Some a0) k a Hhr Hfind) as [[E Hh'] | (c & E & Hh')];
      rewrite E.
    + exists a0. split; [done|]. by left.
    + exists c. split; [done|]. right. by right.
Qed.

(** *** The rebalancing loop where every node is within balance *)

(** One turn of the loop at a node below which everything is in place:
    the depth is stored, [balance] finds nothing to do, and the loop
    goes on at the parent. *)
Lemma deleteNode_loop_step (s : state) (a : positive) (n : BSTNode)
    (tl tr : tree) (ka : Z) (fuel : nat) :
  heap s !! a = Some n →
  linked (heap s) (Some a) (left n) tl → linked (heap s) (Some a) (right n) tr →
  heights (heap s) tl → heights (heap s) tr →
  a ∉ addrs tl → a ∉ addrs tr →
  Z.abs (Z.of_nat (depth tl) - Z.of_nat (depth tr)) ≤ 1 →
  (parent n = None → root s = Some a) →
  AVLTree.deleteNode_loop (S fuel) (Some a) s
  = AVLTree.deleteNode_loop fuel (parent n)
      (mkState (<[a := with_height (Z.of_nat (depth (Node tl a ka tr))) n]>
                  (heap s)) (root s) (next s)).
Proof.
  intros Hn Hl Hr Hhl Hhr Hal Har Hb Hroot.
  set (s' := mkState (<[a := with_height (Z.of_nat (depth (Node tl a ka tr))) n]>
                        (heap s)) (root s) (next s)).
  assert (Hupd : BinarySearchTree.updateHeight (Some a) s = Ok (tt, s')).
  { unfold BinarySearchTree.updateHeight. cbn [is_null].
    mstep Hn. rewrite (bind_ok _ _ _ _ _ (getHeight_depth _ _ _ _ Hl Hhl)).
    mstep Hn. rewrite (bind_ok _ _ _ _ _ (getHeight_depth _ _ _ _ Hr Hhr)).
    unfold set_height. rewrite (update_ok _ _ _ _ Hn).
    unfold s'. do 5 f_equal. cbn [depth]. lia. }
  assert (Hn' : heap s' !! a
                = Some (with_height (Z.of_nat (depth (Node tl a ka tr))) n))
    by apply lookup_insert_eq.
  assert (Hfr : ∀ b, b ≠ a → heap s' !! b = heap s !! b).
  { intros b Hb'. unfold s'. cbn [heap]. by rewrite lookup_insert_ne. }
  assert (Hl' : linked (heap s') (Some a) (left n) tl).
  { apply (linked_frame _ (heap s)); [done|].
    intros b Hin. apply Hfr. intros ->. done. }
  assert (Hr' : linked (heap s') (Some a) (right n) tr).
  { apply (linked_frame _ (heap s)); [done|].
    intros b Hin. apply Hfr. intros ->. done. }
  assert (Hhl' : heights (heap s') tl).
  { apply (heights_frame _ (heap s)); [done|].
    intros b Hin. apply Hfr. intros ->. done. }
  assert (Hhr' : heights (heap s') tr).
  { apply (heights_frame _ (heap s)); [done|].
    intros b Hin. apply Hfr. intros ->. done. }
  assert (Hbal : AVLTree.balance (Some a) (key n) s' = Ok (Some a, s')).
  { apply (balance_within_one s' (Some a) (key n)
             (Z.of_nat (depth tl) - Z.of_nat (depth tr))); [|lia].
    unfold BinarySearchTree.getBalance. cbn [not_null].
    mstep Hn'. cbn [with_height left].
    rewrite (bind_ok _ _ _ _ _ (getHeight_depth _ _ _ _ Hl' Hhl')).
    mstep Hn'. cbn [with_height right].
    rewrite (bind_ok _ _ _ _ _ (getHeight_depth _ _ _ _ Hr' Hhr')).
    reflexivity. }
  cbn [AVLTree.deleteNode_loop not_null].
  rewrite (bind_ok _ _ _ _ _ Hupd). mstep Hn'. cbn [with_height key].
  rewrite (bind_ok _ _ _ _ _ Hbal). mstep Hn'. cbn [with_height parent].
  destruct (parent n) as [u|] eqn:Eu; cbn [is_null when].
  - rewrite bind_eq, ret_eq. mstep Hn'. cbn [with_height parent].
    by rewrite Eu.
  - unfold set_root. rewrite bind_eq.
    replace (mkState (heap s') (Some a) (next s')) with s'
      by (unfold s'; cbn [heap next]; by rewrite (Hroot eq_refl)).
    mstep Hn'. cbn [with_height parent]. by rewrite Eu.
Qed.

(** The loop from a node [c] of [t] up to the root of [t]: where the
    cached heights below the path are right and the shape is balanced,
    it stores the depth at every node of the path and changes nothing
    else, then goes on at the parent of [t]. *)
Lemma deleteNode_loop_climb (t : tree) :
  ∀ (s : state) (up p : ptr) (c : positive),
    linked (heap s) up p t → NoDup (addrs t) → heights_off (heap s) c t →
    balanced t → (up = None → root s = p) →
    ∃ s' n, (n ≤ depth t)%nat
      ∧ (∀ fuel, AVLTree.deleteNode_loop (n + fuel) (Some c) s
                 = AVLTree.deleteNode_loop fuel up s')
      ∧ linked (heap s') up p t ∧ heights (heap s') t
      ∧ root s' = root s ∧ next s' = next s
      ∧ ∀ b, b ∉ addrs t → heap s' !! b = heap s !! b.
Proof.
  induction t as [|l IHl a k r IHr]; intros s up p c Hl Hnd Hoff Hbal Hroot;
    [done|].
  destruct Hl as [-> Hl].
  destruct (heap s !! a) as [n|] eqn:Hn; [|contradiction].
  destruct Hl as (Hkey & Hup & Hll & Hlr).
  change (addrs (Node l a k r)) with (addrs l ++ a :: addrs r) in Hnd.
  apply NoDup_app in Hnd as (Hndl & Hdisj & Hndr).
  apply NoDup_cons in Hndr as [Har Hndr].
  assert (Hal : a ∉ addrs l).
  { intros Hin. apply (Hdisj a Hin). apply list_elem_of_here. }
  assert (Hlr' : ∀ b, b ∈ addrs l → b ∉ addrs r).
  { intros b Hb Hb'. apply (Hdisj b Hb). by apply list_elem_of_further. }
  destruct Hbal as (Hb & Hball & Hbalr).
  (* the last turn, at [a], from a state [s1] in which the subtrees are
     in place *)
  assert (Hlast : ∀ s1,
            heap s1 !! a = Some n → linked (heap s1) (Some a) (left n) l →
            linked (heap s1) (Some a) (right n) r →
            heights (heap s1) l → heights (heap s1) r →
            root s1 = root s → next s1 = next s →
            (∀ b, b ∉ addrs (Node l a k r) → heap s1 !! b = heap s !! b) →
            ∃ s', (∀ fuel, AVLTree.deleteNode_loop (S fuel) (Some a) s1
                           = AVLTree.deleteNode_loop fuel up s')
              ∧ linked (heap s') up (Some a) (Node l a k r)
              ∧ heights (heap s') (Node l a k r)
              ∧ root s' = root s ∧ next s' = next s
              ∧ ∀ b, b ∉ addrs (Node l a k r) → heap s' !! b = heap s !! b).
  { intros s1 Hn1 Hl1 Hr1 Hhl1 Hhr1 Hroot1 Hnext1 Hfr1.
    eexists. split.
    { intros fuel. rewrite <- Hup.
      apply (deleteNode_loop_step s1 a n l r k fuel); try done.
      intros E. rewrite Hroot1. apply Hroot. by rewrite <- Hup. }
    cbn [heap root next].
    split; [|split; [|split; [done|split; [done|]]]].
    - split; [done|]. rewrite lookup_insert_eq.
      cbn [with_height key parent left right].
      split; [done|]. split; [done|].
      split; (apply (linked_frame _ (heap s1)); [done|]);
        intros b Hb'; apply lookup_insert_ne; intros ->; done.
    - split; [by rewrite lookup_insert_eq|].
      split; (apply (heights_frame _ (heap s1)); [done|]);
        intros b Hb'; apply lookup_insert_ne; intros ->; done.
    - intros b Hb'. rewrite lookup_insert_ne; [by apply Hfr1|].
      intros ->. apply Hb'. apply addrs_node. auto. }
  destruct Hoff as [(-> & Hhl & Hhr) | [(Hoffl & Hhr) | (Hhl & Hoffr)]].
  - destruct (Hlast s) as (s' & Hrun & Hrest); try done.
    exists s', 1%nat. split; [simpl; lia|]. split; [exact Hrun | exact Hrest].
  - destruct (IHl s (Some a) (left n) c Hll Hndl Hoffl Hball ltac:(done))
      as (s1 & n1 & Hn1 & Hrun1 & Hl1 & Hh1 & Hroot1 & Hnext1 & Hfr1).
    destruct (Hlast s1) as (s' & Hrun & Hrest); try done.
    + by rewrite Hfr1.
    + apply (linked_frame _ (heap s)); [done|]. intros b Hb'. apply Hfr1.
      intros Hb''. exact (Hlr' _ Hb'' Hb').
    + apply (heights_frame _ (heap s)); [done|]. intros b Hb'. apply Hfr1.
      intros Hb''. exact (Hlr' _ Hb'' Hb').
    + intros b Hb'. apply Hfr1. rewrite addrs_node in Hb'. tauto.
    + exists s', (n1 + 1)%nat. split; [cbn [depth]; lia|].
      split; [|exact Hrest]. intros fuel.
      replace (n1 + 1 + fuel)%nat with (n1 + S fuel)%nat by lia.
      rewrite Hrun1. apply Hrun.
  - destruct (IHr s (Some a) (right n) c Hlr Hndr Hoffr Hbalr ltac:(done))
      as (s1 & n1 & Hn1 & Hrun1 & Hl1 & Hh1 & Hroot1 & Hnext1 & Hfr1).
    destruct (Hlast s1) as (s' & Hrun & Hrest); try done.
    + by rewrite Hfr1.
    + apply (linked_frame _ (heap s)); [done|]. intros b Hb'. apply Hfr1.
      intros Hb''. exact (Hlr' _ Hb' Hb'').
    + apply (heights_frame _ (heap s)); [done|]. intros b Hb'. apply Hfr1.
      intros Hb''. exact (Hlr' _ Hb' Hb'').
    + intros b Hb'. apply Hfr1. rewrite addrs_node in Hb'. tauto.
    + exists s', (n1 + 1)%nat. split; [cbn [depth]; lia|].
      split; [|exact Hrest]. intros fuel.
      replace (n1 + 1 + fuel)%nat with (n1 + S fuel)%nat by lia.
      rewrite Hrun1. apply Hrun.
Qed.

(** *** Unlinking the node *)

Lemma min_parent_addr (rl : tree) :
  ∀ (rr : tree) (ra : positive) (rk : Z),
    min_parent ra rl ∈ addrs (Node rl ra rk rr).
Proof.
  induction rl as [|rll IH rla rlk rlr _]; intros rr ra rk.
  - apply addrs_node. auto.
  - destruct rll as [|rlll rlla rllk rllr].
    + apply addrs_node. auto.
    + change (min_parent ra (Node (Node rlll rlla rllk rllr) rla rlk rlr))
        with (min_parent rla (Node rlll rlla rllk rllr)).
      apply addrs_node. left. apply IH.
Qed.

Lemma replaced_delete (s s' : state) (up : ptr) (a : positive) (t t' : tree) :
  replaced s s' up (Some a) t t' → a ∈ addrs t → a ∉ addrs t' →
  Some a ≠ up →
  replaced s (mkState (delete a (heap s')) (root s') (next s')) up (Some a)
    t t'.
Proof.
  intros (Hl & Hnext & Hpar & Hfr) Hat Hat' Hup.
  split; [|split; [done|split]]; cbn [heap root next].
  - apply (linked_frame _ (heap s')); [done|].
    intros b Hb. apply lookup_delete_ne. intros ->. done.
  - destruct up as [u|]; [|done].
    destruct Hpar as (Hroot & nu & Hu & Hu'). split; [done|].
    exists nu. split; [done|]. rewrite lookup_delete_ne by congruence. done.
  - intros b Hb Hbup. rewrite lookup_delete_ne by (intros ->; done).
    by apply Hfr.
Qed.

(** The guarded statements of [AVLTree::deleteNode] do what the
    unguarded ones of [BinarySearchTree::deleteNode] do, wherever those
    return. *)
Lemma unlink_detach_guarded (s sC : state) (sec node sp : ptr) (c : bool) :
  get_parent sec s = Ok (sp, s) →
  when c
    (sr ← get_right sec;
     BinarySearchTree.transplant sec sr;;
     nr ← get_right node;
     set_right sec nr;;
     sr ← get_right sec;
     set_parent sr sec) s = Ok (tt, sC) →
  (if c then
     rebalanceStart ← get_parent sec;
     sr ← get_right sec;
     BinarySearchTree.transplant sec sr;;
     nr ← get_right node;
     set_right sec nr;;
     sr ← get_right sec;
     when (not_null sr) (sr ← get_right sec; set_parent sr sec);;
     mret rebalanceStart
   else mret sec) s = Ok ((if c then sp else sec), sC).
Proof.
  intros Hsp H. destruct c; [|by injection H as <-].
  cbn [when] in H. rewrite (bind_ok _ _ _ _ _ Hsp).
  apply bind_inv in H as (sr & s1 & E1 & H). rewrite (bind_ok _ _ _ _ _ E1).
  apply bind_inv in H as ([] & s2 & E2 & H). rewrite (bind_ok _ _ _ _ _ E2).
  apply bind_inv in H as (nr & s3 & E3 & H). rewrite (bind_ok _ _ _ _ _ E3).
  apply bind_inv in H as ([] & s4 & E4 & H). rewrite (bind_ok _ _ _ _ _ E4).
  apply bind_inv in H as (sr' & s5 & E5 & H). rewrite (bind_ok _ _ _ _ _ E5).
  assert (s5 = s4) as ->.
  { unfold get_right in E5. apply bind_inv in E5 as (m & s6 & E5 & E6).
    injection E6 as _ <-. exact (load_inv _ _ _ _ E5). }
  destruct sr' as [c|]; [|done]. cbn [not_null when].
  rewrite bind_eq, (bind_ok _ _ _ _ _ E5), H. reflexivity.
Qed.

Lemma unlink_tail_guarded (sC s' : state) (a : positive) (n : BSTNode)
    (sec rs : ptr) :
  (BinarySearchTree.transplant (Some a) sec;;
   nl ← get_left (Some a);
   set_left sec nl;;
   sl ← get_left sec;
   set_parent sl sec) sC = Ok (tt, s') →
  heap s' !! a = Some n →
  (BinarySearchTree.transplant (Some a) sec;;
   nl ← get_left (Some a);
   set_left sec nl;;
   sl ← get_left sec;
   when (not_null sl) (sl ← get_left sec; set_parent sl sec);;
   delete_node (Some a);;
   mret rs) sC
  = Ok (rs, mkState (delete a (heap s')) (root s') (next s')).
Proof.
  intros H Hn.
  apply bind_inv in H as ([] & s1 & E1 & H). rewrite (bind_ok _ _ _ _ _ E1).
  apply bind_inv in H as (nl & s2 & E2 & H). rewrite (bind_ok _ _ _ _ _ E2).
  apply bind_inv in H as ([] & s3 & E3 & H). rewrite (bind_ok _ _ _ _ _ E3).
  apply bind_inv in H as (sl & s4 & E4 & H). rewrite (bind_ok _ _ _ _ _ E4).
  assert (s4 = s3) as ->.
  { unfold get_left in E4. apply bind_inv in E4 as (m & s6 & E4 & E6).
    injection E6 as _ <-. exact (load_inv _ _ _ _ E4). }
  destruct sl as [c|]; [|done]. cbn [not_null when].
  rewrite bind_eq, (bind_ok _ _ _ _ _ E4), H.
  rewrite bind_eq. unfold delete_node. rewrite Hn. reflexivity.
Qed.

Lemma childless_test (s : state) (a : positive) (n : BSTNode) :
  heap s !! a = Some n →
  and_then (is_null (left n)) (nr ← get_right (Some a); mret (is_null nr)) s
  = Ok (is_null (left n) && is_null (right n), s).
Proof.
  intros Hn. destruct (left n); cbn [is_null and_then andb]; [reflexivity|].
  mstep Hn. reflexivity.
Qed.

(** The cases of [AVLTree::deleteNode] at the root [a] of a subtree:
    the subtree is rebuilt as by [BinarySearchTree::deleteNode], the
    node is freed, and the rebalancing starts where [del_start] says. *)
Lemma unlink_here (s : state) (l r : tree) (a : positive) (ka : Z)
    (n : BSTNode) (up : ptr) (fuel : nat) :
  heap s !! a = Some n →
  linked (heap s) up (Some a) (Node l a ka r) →
  NoDup (addrs (Node l a ka r)) →
  slot s up (Some a) → (∀ u, up = Some u → u ∉ addrs (Node l a ka r)) →
  (depth r ≤ fuel)%nat →
  ∃ rs s',
    unlink_cases fuel (Some a) (is_null (left n) && is_null (right n)) s
    = Ok (rs, s')
    ∧ (if not_null rs then rs else parent n) = del_start up l r
    ∧ heap s' !! a = None
    ∧ replaced s s' up (Some a) (Node l a ka r) (del_root l r).
Proof.
  intros Hn Hl Hnd Hslot Hup Hf.
  pose proof Hl as [_ Hl']. rewrite Hn in Hl'.
  destruct Hl' as (Hkey & Hpar & Hll & Hlr). subst up.
  pose proof Hnd as Hnd'.
  change (addrs (Node l a ka r)) with (addrs l ++ a :: addrs r) in Hnd'.
  apply NoDup_app in Hnd' as (Hndl & Hdisj & Hndr).
  apply NoDup_cons in Hndr as [Har Hndr].
  assert (Hal : a ∉ addrs l).
  { intros Hin. apply (Hdisj a Hin). apply list_elem_of_here. }
  assert (Hat : a ∈ addrs (Node l a ka r)) by (apply addrs_node; auto).
  assert (Hself : Some a ≠ parent n).
  { intros E. symmetry in E. exact (Hup a E Hat). }
  assert (Hdel : ∀ s1 rs,
            heap s1 !! a = Some n →
            (delete_node (Some a);; (mret rs : M ptr)) s1
            = Ok (rs, mkState (delete a (heap s1)) (root s1) (next s1))).
  { intros s1 rs H1. rewrite bind_eq. unfold delete_node. by rewrite H1. }
  unfold unlink_cases.
  destruct l as [|ll al kl lr].
  - simpl in Hll. rewrite Hll. cbn [is_null andb].
    destruct (transplant_subtree s a n (right n) (Node Leaf a ka r) r
                Hn Hslot Hup Hat Hndr Hlr) as (s1 & Hrun & Hrep & Hn1).
    { intros b Hb. split; [apply addrs_node; auto | by intros ->]. }
    destruct r as [|rl ra rk rr].
    + (* no children *)
      simpl in Hlr. rewrite Hlr in Hrun |- *. cbn [is_null].
      mstep Hn. rewrite (bind_ok _ _ _ _ _ Hrun), (Hdel s1 _ Hn1).
      eexists _, _. split; [reflexivity|].
      split; [by destruct (parent n)|].
      split; [apply lookup_delete_eq|].
      apply replaced_delete; done.
    + (* one child (right) *)
      pose proof (linked_root_ptr _ _ _ _ Hlr) as Er. cbn [root_ptr] in Er.
      rewrite Er in Hrun |- *. cbn [is_null].
      mstep Hn. rewrite Hll. cbn [is_null]. mstep Hn. mstep Hn. rewrite Er.
      rewrite (bind_ok _ _ _ _ _ Hrun), (Hdel s1 _ Hn1).
      eexists _, _. split; [reflexivity|]. split; [done|].
      split; [apply lookup_delete_eq|].
      apply replaced_delete; done.
  - pose proof (linked_root_ptr _ _ _ _ Hll) as El. cbn [root_ptr] in El.
    rewrite El. cbn [is_null andb].
    mstep Hn. rewrite El. cbn [is_null]. mstep Hn.
    destruct r as [|rl ra rk rr].
    + (* one child (left) *)
      simpl in Hlr. rewrite Hlr. cbn [is_null]. mstep Hn. mstep Hn.
      rewrite El.
      destruct (transplant_subtree s a n (left n)
                  (Node (Node ll al kl lr) a ka Leaf) (Node ll al kl lr)
                  Hn Hslot Hup Hat Hndl Hll) as (s1 & Hrun & Hrep & Hn1).
      { intros b Hb. split; [apply addrs_node; auto | by intros ->]. }
      rewrite El in Hrun.
      rewrite (bind_ok _ _ _ _ _ Hrun), (Hdel s1 _ Hn1).
      eexists _, _. split; [reflexivity|]. split; [done|].
      split; [apply lookup_delete_eq|].
      apply replaced_delete; done.
    + (* two children *)
      pose proof (linked_root_ptr _ _ _ _ Hlr) as Er. cbn [root_ptr] in Er.
      rewrite Er. cbn [is_null]. mstep Hn. rewrite Er.
      destruct (minimumNode_leftmost rl rr ra rk s (Some ra) fuel
                  ltac:(rewrite <- Er; exact (linked_shape _ _ _ _ Hlr)) Hf)
        as (Hmin & nsec & Hsec & Hksec & Hlsec).
      rewrite (bind_ok _ _ _ _ _ Hmin). mstep Hsec.
      destruct (detach_successor s a n nsec rl rr ra rk Hn Hlr Hndr Har Hsec)
        as (Hsp & sC & nsecC & HrunC & HfrC & HrootC & HnextC & HsecC & HkC
            & HlC).
      set (sec := min_addr ra rl) in *.
      assert (Hsecr : sec ∈ addrs (Node rl ra rk rr)).
      { unfold sec. rewrite addrs_drop_min. apply list_elem_of_here. }
      assert (Htr : ∀ b, b ∈ addrs (drop_min (Node rl ra rk rr)) →
                    b ∈ addrs (Node rl ra rk rr) ∧ b ≠ sec).
      { pose proof Hndr as Hndr'. rewrite addrs_drop_min in Hndr'.
        fold sec in Hndr'. apply NoDup_cons in Hndr' as [Hsecd Hndd].
        intros b Hb. split; [|by intros ->].
        rewrite addrs_drop_min. by apply list_elem_of_further. }
      assert (Hgp : get_parent (Some sec) s = Ok (parent nsec, s)).
      { unfold get_parent. by rewrite (bind_ok _ _ _ _ _ (load_ok _ _ _ Hsec)). }
      rewrite (bind_ok _ _ _ _ _
                 (unlink_detach_guarded s sC (Some sec) (Some a) (parent nsec)
                    _ Hgp HrunC)).
      destruct (deleteNode_tail s sC a sec n nsecC (Node ll al kl lr)
                  (Node rl ra rk rr) (drop_min (Node rl ra rk rr)) ka
                  Hn Hll ltac:(done) Hnd Hslot Hup HfrC HrootC HnextC HsecC
                  Hsecr HlC Htr) as (s1 & Hrun & Hrep & Hn1).
      rewrite (unlink_tail_guarded sC s1 a n (Some sec) _ Hrun Hn1).
      eexists _, _. split; [reflexivity|].
      split; [|split; [apply lookup_delete_eq|]].
      * rewrite Hsp. destruct rl as [|rll rla rlk rlr].
        -- rewrite bool_decide_eq_false_2 by (intros H; by apply H). done.
        -- rewrite bool_decide_eq_true_2; [done|].
           intros [= E]. apply Har. rewrite <- E.
           exact (min_parent_addr (Node rll rla rlk rlr) rr ra rk).
      * apply replaced_delete; try done.
        -- unfold del_root. rewrite HkC, Hksec in Hrep. exact Hrep.
        -- unfold del_root. rewrite addrs_node. intros [Hin | [E | Hin]].
           ++ done.
           ++ apply Har. rewrite E. exact Hsecr.
           ++ apply Har. by apply Htr.
Qed.

(** [AVLTree::remove(key)] where the search stops at a node and the
    shape without that node is balanced: the tree is rebuilt as
    [BST_del] says, the node is freed, and the loop refreshes the cached
    heights from [BST_del_start] up to the root without a rotation. *)
Lemma AVL_remove_effect (s : state) (t : tree) (k : Z) (a : positive)
    (fuel : nat) :
  tree_at s t → heights (heap s) t → find t k = Some a →
  balanced (BST_del t k) → (depth t < fuel)%nat →
  ∃ s', AVLTree.remove fuel k s = Ok (tt, s')
        ∧ tree_at s' (BST_del t k) ∧ heights (heap s') (BST_del t k)
        ∧ heap s' !! a = None ∧ next s' = next s
        ∧ ∀ b, b ∉ addrs t → heap s' !! b = heap s !! b.
Proof.
  intros (Hl & Hnd & Hfr) Hh Hfind Hbal Hf.
  pose proof (linked_root_ptr _ _ _ _ Hl) as Eroot.
  pose proof (find_addr t k a Hfind) as Hat.
  destruct (linked_addr_live _ _ _ _ Hl a Hat) as [n Hn].
  destruct (replaced_at_find s k a fuel
              (λ cur s1, ∃ rs,
                 unlink_cases fuel (Some a)
                   (is_null (left n) && is_null (right n)) s = Ok (rs, s1)
                 ∧ (if not_null rs then rs else parent n) = cur
                 ∧ heap s1 !! a = None))
    with (t := t) (up := @None positive)
    as (s1 & (rs & Hrun & Hcur & Ha1) & Hrep); try done.
  { intros l r ka up Hl' Hnd' Hslot' Hup' Hd'.
    destruct (unlink_here s l r a ka n up fuel Hn Hl' Hnd' Hslot' Hup')
      as (rs & s1 & H1 & H2 & H3 & H4).
    { simpl in Hd'. lia. }
    exists s1. split; [exists rs; auto | done]. }
  { by rewrite <- Eroot. }
  { lia. }
  destruct Hrep as (Hl1 & Hnext1 & Hroot1 & Hfr1).
  pose proof (addrs_BST_del t k a Hfind) as Hperm.
  pose proof (depth_BST_del t k) as Hdepth.
  assert (Hnd' : NoDup (a :: addrs (BST_del t k))) by (by rewrite <- Hperm).
  apply NoDup_cons in Hnd' as [Hat' Hnd'].
  assert (Hfr' : Forall (λ b, (b < next s)%positive) (addrs (BST_del t k))).
  { rewrite Hperm in Hfr. by apply Forall_cons in Hfr as [_ ?]. }
  assert (Hsub : ∀ b, b ∉ addrs t → b ∉ addrs (BST_del t k)).
  { intros b Hb Hb'. apply Hb. rewrite Hperm. by apply list_elem_of_further. }
  assert (Hkh : ∀ b, b ∈ addrs (BST_del t k) →
                height <$> (heap s1 !! b) = height <$> (heap s !! b)).
  { intros b Hb. apply (kh_unlink_cases _ _ _ s s1 rs Hrun).
    exact (linked_addr_live _ _ _ _ Hl1 b Hb). }
  assert (Hrem : ∀ s2,
            AVLTree.deleteNode_loop fuel (BST_del_start None t k) s1
            = Ok (tt, s2) →
            AVLTree.remove fuel k s = Ok (tt, s2)).
  { intros s2 Hloop. unfold AVLTree.remove. rewrite bind_eq. cbn [get_root].
    rewrite (bind_ok _ _ _ _ _
               (searchNode_find t s (root s) k fuel (linked_shape _ _ _ _ Hl) Hf)).
    rewrite Hfind, AVL_deleteNode_cases, bind_eq.
    mstep Hn. mstep Hn.
    rewrite (bind_ok _ _ _ _ _ (childless_test s a n Hn)).
    rewrite (bind_ok _ _ _ _ _ Hrun), Hcur, (bind_ok _ _ _ _ _ Hloop).
    reflexivity. }
  destruct (heights_BST_del (heap s) t None k a Hh Hfind)
    as [[E Hh'] | (c & E & Hoff)]; rewrite E in Hrem.
  - exists s1. split.
    { apply Hrem. destruct fuel; [lia | reflexivity]. }
    split; [|split; [by eapply heights_keep|split; [done|split; [done|]]]].
    + split; [by rewrite Hroot1|]. split; [done|]. by rewrite Hnext1.
    + intros b Hb. by apply Hfr1.
  - destruct (deleteNode_loop_climb (BST_del t k) s1 None (root s1) c)
      as (s2 & m & Hm & Hloop & Hl2 & Hh2 & Hroot2 & Hnext2 & Hfr2);
      try done.
    { by rewrite Hroot1. }
    { by eapply heights_off_keep. }
    exists s2. split.
    { apply Hrem. replace fuel with (m + S (fuel - m - 1))%nat by lia.
      rewrite Hloop. reflexivity. }
    split; [|split; [done|split; [|split; [congruence|]]]].
    + split; [by rewrite Hroot2|]. split; [done|]. by rewrite Hnext2, Hnext1.
    + by rewrite Hfr2.
    + intros b Hb. rewrite Hfr2 by auto. by apply Hfr1.
Qed.


(** X19: on a finite tree that does not hold [key],
    [BinarySearchTree::remove(key)] hands the null pointer that the
    search returned to [deleteNode], which reads [node->left] through it:
    a fault on every non-empty tree.  Only on the empty tree the guard
    on [root] makes the call return with nothing changed. *)
Theorem BST_remove_of_missing_key (s : state) (t : tree) (k : Z) (fuel : nat) :
  shape (heap s) (root s) t → k ∉ keys t → (depth t < fuel)%nat →
  BinarySearchTree.remove fuel k s
  = match t with
    | Leaf => Ok (tt, s)
    | Node _ _ _ _ => Fault
    end.
Proof.
  intros Hs Hk Hf. unfold BinarySearchTree.remove.
  rewrite bind_eq. cbn [get_root].
  rewrite (bind_ok _ _ _ _ _ (searchNode_absent t s (root s) k fuel Hs Hk Hf)).
  destruct t as [|l a ka r].
  - simpl in Hs. rewrite Hs. reflexivity.
  - destruct Hs as [-> _]. reflexivity.
Qed.

Lemma BST_remove_of_missing_key_witness :
  shape (heap tree_20_10_30) (root tree_20_10_30) shape_20_10_30
  ∧ (25 ∉ keys shape_20_10_30)
  ∧ BinarySearchTree.remove 3 25 tree_20_10_30 = Fault.
Proof.
  assert (Hs : shape (heap tree_20_10_30) (root tree_20_10_30)
                 shape_20_10_30) by (vm_compute; tauto).
  split; [exact Hs|]. split; [exact key_25_not_in_20_10_30|].
  apply (BST_remove_of_missing_key tree_20_10_30 shape_20_10_30 25 3 Hs
           key_25_not_in_20_10_30).
  simpl. lia.
Defined.

(** X20: where the shape without the node that holds [key] is balanced,
    [AVLTree::remove(key)] on a well-formed tree with distinct keys in
    order and correct cached heights unlinks that node as the plain
    search tree does, frees it, refreshes the cached heights on the way
    up to the root and rotates nothing: the result is a well-formed,
    ordered, balanced tree with correct heights that holds the other
    keys, and no node outside the tree is written. *)
Theorem AVL_remove_without_rotation (s : state) (t : tree) (k : Z)
    (fuel : nat) :
  tree_at s t → heights (heap s) t → ordered t → k ∈ keys t →
  balanced (BST_del t k) → (depth t < fuel)%nat →
  ∃ s' t', AVLTree.remove fuel k s = Ok (tt, s')
           ∧ t' = BST_del t k
           ∧ tree_at s' t' ∧ heights (heap s') t'
           ∧ ordered t' ∧ balanced t'
           ∧ keys t ≡ₚ k :: keys t' ∧ (k ∉ keys t')
           ∧ (∃ a, addrs t ≡ₚ a :: addrs t' ∧ heap s' !! a = None)
           ∧ next s' = next s
           ∧ ∀ b, b ∉ addrs t → heap s' !! b = heap s !! b.
Proof.
  intros Ht Hh Ho Hk Hbal Hf.
  destruct (find_present t k (ordered_ordered_dup t Ho) Hk) as [a Ha].
  destruct (AVL_remove_effect s t k a fuel Ht Hh Ha Hbal Hf)
    as (s' & Hrun & Ht' & Hh' & Hfree & Hnext & Hfr).
  exists s', (BST_del t k).
  split; [exact Hrun|]. split; [reflexivity|]. split; [exact Ht'|].
  split; [exact Hh'|]. split; [by apply ordered_BST_del|].
  split; [exact Hbal|]. split; [exact (keys_BST_del t k a Ha)|].
  split; [by apply BST_del_drops_key|].
  split; [exists a; split; [exact (addrs_BST_del t k a Ha) | exact Hfree]|].
  split; [exact Hnext | exact Hfr].
Qed.


Lemma heights_20_10_30 : heights (heap tree_20_10_30) shape_20_10_30.
Proof. vm_compute. tauto. Qed.


Lemma AVL_remove_without_rotation_witness :
  tree_at tree_20_10_30 shape_20_10_30
  ∧ heights (heap tree_20_10_30) shape_20_10_30
  ∧ ordered shape_20_10_30
  ∧ 20 ∈ keys shape_20_10_30
  ∧ balanced (BST_del shape_20_10_30 20)
  ∧ ∃ s' t', AVLTree.remove 3 20 tree_20_10_30 = Ok (tt, s')
             ∧ t' = BST_del shape_20_10_30 20
             ∧ tree_at s' t' ∧ heights (heap s') t'
             ∧ ordered t' ∧ balanced t'
             ∧ keys shape_20_10_30 ≡ₚ 20 :: keys t' ∧ (20 ∉ keys t')
             ∧ (∃ a, addrs shape_20_10_30 ≡ₚ a :: addrs t'
                     ∧ heap s' !! a = None)
             ∧ next s' = next tree_20_10_30
             ∧ ∀ b, b ∉ addrs shape_20_10_30 →
                    heap s' !! b = heap tree_20_10_30 !! b.
Proof.
  assert (Hb : balanced (BST_del shape_20_10_30 20))
    by (vm_compute; repeat split; discriminate).
  split; [exact tree_at_20_10_30|]. split; [exact heights_20_10_30|].
  split; [exact ordered_20_10_30|]. split; [exact key_20_in_20_10_30|].
  split; [exact Hb|].
  apply (AVL_remove_without_rotation tree_20_10_30 shape_20_10_30 20 3
           tree_at_20_10_30 heights_20_10_30 ordered_20_10_30
           key_20_in_20_10_30 Hb).
  simpl. lia.
Defined.


(** X22: [BinarySearchTree::remove] frees nothing: the node it takes
    out of the tree is neither deleted nor written; it stays allocated
    with its key and its old links, no longer part of the tree. *)
Theorem BST_remove_leaves_node_allocated (s : state) (t : tree) (k : Z)
    (fuel : nat) :
  tree_at s t → ordered_dup t → k ∈ keys t → (depth t < fuel)%nat →
  ∃ s' a n, BinarySearchTree.remove fuel k s = Ok (tt, s')
            ∧ tree_at s' (BST_del t k)
            ∧ a ∈ addrs t ∧ (a ∉ addrs (BST_del t k))
            ∧ heap s !! a = Some n ∧ key n = k
            ∧ heap s' !! a = Some n.
Proof.
  intros Ht Ho Hk Hf.
  destruct (find_present t k Ho Hk) as [a Ha].
  destruct (BST_remove_effect s t k a fuel Ht Ha Hf)
    as (s' & Hrun & Ht' & _ & _ & Hkeep).
  destruct Ht as (Hl & Hnd & _).
  destruct (find_holds_key t _ _ _ _ (linked_shape _ _ _ _ Hl) Ha)
    as (_ & n & Hn & Hkey).
  exists s', a, n. split; [exact Hrun|]. split; [exact Ht'|].
  split; [by eapply find_addr|].
  split; [|split; [exact Hn|split; [exact Hkey | by rewrite Hkeep]]].
  rewrite (addrs_BST_del t k a Ha) in Hnd.
  by apply NoDup_cons in Hnd as [? _].
Qed.

Lemma BST_remove_leaves_node_allocated_witness :
  tree_at tree_20_10_30 shape_20_10_30
  ∧ ordered_dup shape_20_10_30
  ∧ 20 ∈ keys shape_20_10_30
  ∧ ∃ s' a n, BinarySearchTree.remove 3 20 tree_20_10_30 = Ok (tt, s')
              ∧ tree_at s' (BST_del shape_20_10_30 20)
              ∧ a ∈ addrs shape_20_10_30
              ∧ (a ∉ addrs (BST_del shape_20_10_30 20))
              ∧ heap tree_20_10_30 !! a = Some n ∧ key n = 20
              ∧ heap s' !! a = Some n.
Proof.
  split; [exact tree_at_20_10_30|]. split; [exact ordered_dup_20_10_30|].
  split; [exact key_20_in_20_10_30|].
  apply (BST_remove_leaves_node_allocated tree_20_10_30 shape_20_10_30 20 3
           tree_at_20_10_30 ordered_dup_20_10_30 key_20_in_20_10_30).
  simpl. lia.
Defined.
